(** * cheese: observable cells (src/src/observable.ts, src/src/index.ts)

    A shallow embedding of [BasicObservable<T>] together with the part of the
    JavaScript run time its behaviour depends on: the timers started with
    [setTimeout], the microtask queue on which an [await] resumes, and the
    identity of the array held by [_subscribers].

    Conventions of the model.
    - Time is a virtual clock counting milliseconds; a timer started with delay
      [d] runs when the clock reaches its start time plus [d].
    - [T] is the type of the values a cell holds, and its equality is [===]:
      a value of [T] is strictly equal to itself, so [NaN] is not one of them
      (primitive values are compared by value, objects by reference).
    - Durations ([debounce], [throttle]) are natural numbers.
    - A subscriber is either a function supplied by a caller ([Listener]),
      whose only effect is that the call is recorded, or the callback that
      [bind] registers ([Recompute]).
    - An [await] resumes after one turn of the microtask queue. *)

From stdpp Require Import base option list.
From Stdlib Require Import Lia ZArith.
From Stdlib Require String.

(** ** Types (the declarations at the end of observable.ts) *)

(** [ObservableState = 'sealed' | 'unsealed' | 'muted'] *)
Inductive ObservableState := sealed | unsealed | muted.

#[global] Instance ObservableState_eq_dec : EqDecision ObservableState.
Proof. solve_decision. Defined.

(** [ObservableOptions = { debounce?: number; throttle?: number }] *)
Record ObservableOptions := mkOptions {
  debounce : option nat;
  throttle : option nat;
}.

(** The options object [{}] the field [_options] starts with. *)
Definition no_options : ObservableOptions := mkOptions None None.

(** [if (this._options.throttle)]: an absent field and [0] are falsy. *)
Definition truthy (n : option nat) : option nat :=
  match n with
  | Some (S d) => Some (S d)
  | _ => None
  end.

(** The error built by [_throwSealedMutationError]:
    [new Error('Cannot set value or change the state of a sealed observable')]. *)
Inductive Error := SealedMutationError.

(** How a call ends: a method returns or throws; [set], declared [async],
    returns a promise that is fulfilled or rejected. *)
Inductive outcome :=
  | Returned
  | Threw (e : Error)
  | Fulfilled
  | Rejected (e : Error).

Definition fails_with (r : outcome) (e : Error) : Prop :=
  r = Threw e ∨ r = Rejected e.

Definition succeeds (r : outcome) : Prop :=
  r = Returned ∨ r = Fulfilled.

(** The identity of a function value: one supplied by a caller, or the
    [k]-th closure created by [bind]. *)
Inductive fn_id := user_fn (n : nat) | bind_fn (k : nat).

#[global] Instance fn_id_eq_dec : EqDecision fn_id.
Proof. solve_decision. Defined.

Section Observable.

Context {T : Type} `{EqDecision T}.

(** [Subscriber<T> = (newValue: T, oldValue: T) => Promise<void> | void] *)
Inductive Subscriber :=
  | Listener (n : nat)
  | Recompute (k : nat) (target : nat) (dependencies : list nat)
              (compute : list T → T).

Definition fn_of (s : Subscriber) : fn_id :=
  match s with
  | Listener n => user_fn n
  | Recompute k _ _ _ => bind_fn k
  end.

(** The fields of [BasicObservable<T>].  [_subscribers] is the content of the
    array the field points to now; [_replaced] lists the arrays the field
    pointed to before, oldest first: [seal] and the unsubscribe handle assign a
    new array, while a [for … of] loop suspended at an [await] goes on reading
    the array it started with. *)
Record BasicObservable := mkObservable {
  _state : ObservableState;
  _subscribers : list Subscriber;
  _value : T;
  _options : ObservableOptions;
  _history : list T;
  _debounceTimeout : option nat;
  _throttleTimeout : option nat;
  _replaced : list (list Subscriber);
}.

(** The callbacks given to [setTimeout] in [_notify]. *)
Inductive timer_callback :=
  | throttle_expired (this : nat)
  | debounce_elapsed (this : nat) (newValue oldValue : T).

Record timer := mkTimer {
  timer_id : nat;
  due : nat;
  callback : timer_callback;
}.

(** What remains of a [for (const subscriber of this._subscribers)] loop of
    [_notify] suspended at its [await]: the object, the array being iterated
    (the [array]-th one [_subscribers] has pointed to), the index of the next
    element, and the two arguments. *)
Record continuation := mkContinuation {
  k_this : nat;
  k_array : nat;
  k_index : nat;
  k_newValue : T;
  k_oldValue : T;
}.

(** One call of a subscriber: the cell whose list it was registered in, the
    function, and the two arguments ([None] is [undefined]). *)
Definition call : Type := nat * fn_id * T * option T.

Record world := mkWorld {
  cells : list BasicObservable;
  timers : list timer;
  next_timer : nat;
  next_closure : nat;
  clock : nat;
  microtasks : list continuation;
  calls : list call;
}.

Definition empty_world : world := mkWorld [] [] 0 0 0 [] [].

(** *** Field updates *)

Definition with_state (x : ObservableState) (o : BasicObservable) :=
  mkObservable x (_subscribers o) (_value o) (_options o) (_history o)
    (_debounceTimeout o) (_throttleTimeout o) (_replaced o).

Definition with_value (x : T) (o : BasicObservable) :=
  mkObservable (_state o) (_subscribers o) x (_options o) (_history o)
    (_debounceTimeout o) (_throttleTimeout o) (_replaced o).

Definition with_history (x : list T) (o : BasicObservable) :=
  mkObservable (_state o) (_subscribers o) (_value o) (_options o) x
    (_debounceTimeout o) (_throttleTimeout o) (_replaced o).

Definition with_debounceTimeout (x : option nat) (o : BasicObservable) :=
  mkObservable (_state o) (_subscribers o) (_value o) (_options o) (_history o)
    x (_throttleTimeout o) (_replaced o).

Definition with_throttleTimeout (x : option nat) (o : BasicObservable) :=
  mkObservable (_state o) (_subscribers o) (_value o) (_options o) (_history o)
    (_debounceTimeout o) x (_replaced o).

(** [this._subscribers.push(s)]: the array is extended in place. *)
Definition push_subscriber (s : Subscriber) (o : BasicObservable) :=
  mkObservable (_state o) (_subscribers o ++ [s]) (_value o) (_options o)
    (_history o) (_debounceTimeout o) (_throttleTimeout o) (_replaced o).

(** [this._subscribers = a]: the field points to a new array, the old one
    stays as it is. *)
Definition assign_subscribers (a : list Subscriber) (o : BasicObservable) :=
  mkObservable (_state o) a (_value o) (_options o) (_history o)
    (_debounceTimeout o) (_throttleTimeout o) (_replaced o ++ [_subscribers o]).

Definition with_cells (x : list BasicObservable) (w : world) :=
  mkWorld x (timers w) (next_timer w) (next_closure w) (clock w)
    (microtasks w) (calls w).

Definition with_timers (x : list timer) (w : world) :=
  mkWorld (cells w) x (next_timer w) (next_closure w) (clock w)
    (microtasks w) (calls w).

Definition with_clock (x : nat) (w : world) :=
  mkWorld (cells w) (timers w) (next_timer w) (next_closure w) x
    (microtasks w) (calls w).

Definition with_microtasks (x : list continuation) (w : world) :=
  mkWorld (cells w) (timers w) (next_timer w) (next_closure w) (clock w)
    x (calls w).

Definition with_calls (x : list call) (w : world) :=
  mkWorld (cells w) (timers w) (next_timer w) (next_closure w) (clock w)
    (microtasks w) x.

(** Update of the object at address [c]. *)
Definition modify (c : nat) (f : BasicObservable → BasicObservable) (w : world) : world :=
  with_cells (alter f c (cells w)) w.


(** ** The run time: timers *)

(** [setTimeout(cb, delay)]: the handle returned, and the world with the timer
    pending. *)
Definition setTimeout (cb : timer_callback) (delay : nat) (w : world) : nat * world :=
  (next_timer w,
   mkWorld (cells w)
     (timers w ++ [mkTimer (next_timer w) (clock w + delay) cb])
     (S (next_timer w)) (next_closure w) (clock w) (microtasks w) (calls w)).

(** [clearTimeout(id)]: a handle that is not pending is ignored. *)
Definition clearTimeout (id : nat) (w : world) : world :=
  with_timers (filter (λ t, timer_id t ≠ id) (timers w)) w.

(** ** BasicObservable *)

(** [_checkForSealedMutationError] *)
Definition _checkForSealedMutationError (this : BasicObservable) : option Error :=
  if decide (_state this = sealed) then Some SealedMutationError else None.

(** The array a suspended loop iterates: the current one while the field has
    not been assigned since, else the one kept in [_replaced]. *)
Definition array_of (this : BasicObservable) (a : nat) : list Subscriber :=
  if decide (a = length (_replaced this)) then _subscribers this
  else default [] (_replaced this !! a).

Definition next_turn (k : continuation) : continuation :=
  mkContinuation (k_this k) (k_array k) (S (k_index k)) (k_newValue k) (k_oldValue k).

(** [this._history[this._history.length - 2]] *)
Definition penultimate (h : list T) : option T :=
  if decide (2 ≤ length h) then h !! (length h - 2) else None.

Section Notify.

(** The call of a subscriber, defined below by recursion on the depth of
    nested calls. *)
Variable invoke : nat → Subscriber → T → option T → world → option world.

(** One turn of
    [for (const subscriber of this._subscribers) { await subscriber(newValue, oldValue); }
     this._history.push(newValue);]
    When the array has an element at the index, the subscriber is called and
    the loop is suspended at the [await]; when it has none, the loop is over
    and the value is pushed. *)
Definition iterate (k : continuation) (w : world) : option world :=
  this ← cells w !! k_this k;
  match array_of this (k_array k) !! k_index k with
  | Some subscriber =>
      w' ← invoke (k_this k) subscriber (k_newValue k) (Some (k_oldValue k)) w;
      Some (with_microtasks (microtasks w' ++ [next_turn k]) w')
  | None =>
      Some (modify (k_this k) (λ o, with_history (_history o ++ [k_newValue k]) o) w)
  end.

(** The loop from its start, on the array [_subscribers] points to now. *)
Definition for_of (c : nat) (newValue oldValue : T) (w : world) : option world :=
  this ← cells w !! c;
  iterate (mkContinuation c (length (_replaced this)) 0 newValue oldValue) w.

(** Lines 45-53 of [_notify].  [None]: the function returns at line 47. *)
Definition throttle_gate (c : nat) (this : BasicObservable) (w : world) : option world :=
  match truthy (throttle (_options this)) with
  | Some t =>
      match _throttleTimeout this with
      | Some _ => None
      | None =>
          let '(id, w1) := setTimeout (throttle_expired c) t w in
          Some (modify c (with_throttleTimeout (Some id)) w1)
      end
  | None => Some w
  end.

(** [_notify(newValue, oldValue)] up to its first [await]. *)
Definition _notify (c : nat) (newValue oldValue : T) (w : world) : option world :=
  this ← cells w !! c;
  if decide (_state this = muted) then Some w
  else if decide (newValue = oldValue) then Some w
  else
    match throttle_gate c this w with
    | None => Some w
    | Some w1 =>
        match truthy (debounce (_options this)) with
        | Some d =>
            let w2 := match _debounceTimeout this with
                      | Some id => clearTimeout id w1
                      | None => w1
                      end in
            let '(id, w3) := setTimeout (debounce_elapsed c newValue oldValue) d w2 in
            Some (modify c (with_debounceTimeout (Some id)) w3)
        | None => for_of c newValue oldValue w1
        end
    end.

(** [set(newValue)] *)
Definition set_with (c : nat) (newValue : T) (w : world) : option (outcome * world) :=
  this ← cells w !! c;
  match _checkForSealedMutationError this with
  | Some e => Some (Rejected e, w)
  | None =>
      let oldValue := _value this in
      let w1 := modify c (with_value newValue) w in
      w2 ← _notify c newValue oldValue w1;
      Some (Fulfilled, w2)
  end.

(** The callback of a timer. *)
Definition run_timer (cb : timer_callback) (w : world) : option world :=
  match cb with
  | throttle_expired c =>
      this ← cells w !! c;
      let w1 := match _throttleTimeout this with
                | Some id => clearTimeout id w
                | None => w
                end in
      Some (modify c (with_throttleTimeout None) w1)
  | debounce_elapsed c newValue oldValue => for_of c newValue oldValue w
  end.

End Notify.

(** [dependencies.map((dependency) => dependency.value)], each dependency
    being a [BasicObservable], whose getter [value] returns [_value].  The
    cells of a world are [BasicObservable]s; for a dependency that is an
    [InputElementObservable], see [reads] below. *)
Definition values_of (dependencies : list nat) (w : world) : option (list T) :=
  mapM (λ d, _value <$> cells w !! d) dependencies.

(** The call [subscriber(newValue, oldValue)] made for the cell [c].  A
    listener returns at once.  The callback of [bind] is
    [async () => { this.set(compute(dependencies.map(d => d.value))) }]: it
    reads every dependency, calls [set] on the target and drops the promise
    [set] returns.  [fuel] bounds the depth of nested calls; [None] stands for
    a nesting that exceeds it. *)
Fixpoint invoke (fuel : nat) (c : nat) (s : Subscriber) (newValue : T)
    (oldValue : option T) (w : world) : option world :=
  let w := with_calls (calls w ++ [(c, fn_of s, newValue, oldValue)]) w in
  match s with
  | Listener _ => Some w
  | Recompute _ target dependencies compute =>
      match fuel with
      | 0 => None
      | S fuel =>
          args ← values_of dependencies w;
          snd <$> set_with (invoke fuel) target (compute args) w
      end
  end.

Definition set (fuel : nat) (c : nat) (newValue : T) (w : world) : option (outcome * world) :=
  set_with (invoke fuel) c newValue w.

(** [get()] and the getter [value] *)
Definition get (c : nat) (w : world) : option T :=
  _value <$> cells w !! c.

(** The getter [state] *)
Definition state (c : nat) (w : world) : option ObservableState :=
  _state <$> cells w !! c.

(** [update(updater)]: the promise that [set] returns is dropped, rejected
    or not, and [update] returns. *)
Definition update (fuel : nat) (c : nat) (updater : T → T) (w : world) : option (outcome * world) :=
  v ← get c w;
  r ← set fuel c (updater v) w;
  Some (Returned, r.2).

(** The constructor. *)
Definition create (value : T) (options : option ObservableOptions) (w : world) : nat * world :=
  (length (cells w),
   with_cells
     (cells w ++ [mkObservable unsealed [] value (default no_options options) [value] None None []]) w).

(** The unsubscribe handle is the closure
    [() => { this._subscribers = this._subscribers.filter((s) => s !== subscriber) }]:
    it is given by the cell and the subscriber it has captured. *)
Definition handle : Type := nat * Subscriber.

Definition unsubscribe (h : handle) (w : world) : option world :=
  this ← cells w !! h.1;
  Some (modify h.1
          (assign_subscribers (filter (λ s, fn_of s ≠ fn_of h.2) (_subscribers this))) w).

(** [subscribe(subscriber)] *)
Definition subscribe (fuel : nat) (c : nat) (subscriber : Subscriber) (w : world) : option (handle * world) :=
  this ← cells w !! c;
  let w1 := modify c (push_subscriber subscriber) w in
  w2 ← invoke fuel c subscriber (_value this) (penultimate (_history this)) w1;
  Some ((c, subscriber), w2).

(** [seal()] *)
Definition seal (c : nat) (w : world) : option (outcome * world) :=
  this ← cells w !! c;
  Some (Returned, modify c (λ o, with_state sealed (assign_subscribers [] o)) w).

(** [mute()] *)
Definition mute (c : nat) (w : world) : option (outcome * world) :=
  this ← cells w !! c;
  match _checkForSealedMutationError this with
  | Some e => Some (Threw e, w)
  | None => Some (Returned, modify c (with_state muted) w)
  end.

(** [unmute()] *)
Definition unmute (c : nat) (w : world) : option (outcome * world) :=
  this ← cells w !! c;
  match _checkForSealedMutationError this with
  | Some e => Some (Threw e, w)
  | None => Some (Returned, modify c (with_state unsealed) w)
  end.

(** [bind(dependencies, compute)]: the loop over the dependencies; each turn
    creates a closure of its own and subscribes it. *)
Fixpoint bind_loop (fuel : nat) (target : nat) (dependencies : list nat)
    (compute : list T → T) (rest : list nat) (w : world) : option (list handle * world) :=
  match rest with
  | [] => Some ([], w)
  | dependency :: rest =>
      let closure := Recompute (next_closure w) target dependencies compute in
      let w0 := mkWorld (cells w) (timers w) (next_timer w) (S (next_closure w))
                  (clock w) (microtasks w) (calls w) in
      r ← subscribe fuel dependency closure w0;
      r' ← bind_loop fuel target dependencies compute rest r.2;
      Some (r.1 :: r'.1, r'.2)
  end.

(** [bind]: it returns the list [unsubscribers] its teardown closure has
    captured.  The promise of the last [set] is dropped. *)
Definition bind (fuel : nat) (target : nat) (dependencies : list nat)
    (compute : list T → T) (w : world) : option (list handle * world) :=
  r ← bind_loop fuel target dependencies compute dependencies w;
  args ← values_of dependencies r.2;
  r' ← set fuel target (compute args) r.2;
  Some (r.1, r'.2).

(** The teardown closure of [bind]:
    [for (const unsubscriber of unsubscribers) { unsubscriber(); }] *)
Fixpoint unbind (unsubscribers : list handle) (w : world) : option world :=
  match unsubscribers with
  | [] => Some w
  | unsubscriber :: rest => w' ← unsubscribe unsubscriber w; unbind rest w'
  end.

(** [cheeze(input, options)] of index.ts where [input] is no input element. *)
Definition cheeze (input : T) (options : option ObservableOptions) (w : world) : nat * world :=
  create input options w.

(** ** The run time: the event loop *)

(** The microtask queue is run until it is empty; [n] bounds the number of
    turns. *)
Fixpoint drain_turns (n fuel : nat) (w : world) : option world :=
  match microtasks w with
  | [] => Some w
  | k :: queue =>
      match n with
      | 0 => None
      | S n =>
          w' ← iterate (invoke fuel) k (with_microtasks queue w);
          drain_turns n fuel w'
      end
  end.

Definition drain (fuel : nat) (w : world) : option world :=
  drain_turns fuel fuel w.

Definition pending (id : nat) (w : world) : option timer :=
  head (filter (λ t, timer_id t = id) (timers w)).

(** The timers of [ids] run in this order, each as a task of its own followed
    by the microtasks it leaves; one that has been cleared meanwhile is
    skipped. *)
Fixpoint fire (fuel : nat) (ids : list nat) (w : world) : option world :=
  match ids with
  | [] => Some w
  | id :: ids =>
      match pending id w with
      | Some t =>
          w1 ← run_timer (invoke fuel) (callback t) (clearTimeout id w);
          w2 ← drain fuel w1;
          fire fuel ids w2
      | None => fire fuel ids w
      end
  end.

(** One millisecond passes: the current task ends, its microtasks run, and
    the timers that are due run in the order they were started. *)
Definition tick (fuel : nat) (w : world) : option world :=
  w0 ← drain fuel w;
  let w1 := with_clock (S (clock w0)) w0 in
  fire fuel (timer_id <$> filter (λ t, due t ≤ clock w1) (timers w1)) w1.

Fixpoint advance (fuel : nat) (ms : nat) (w : world) : option world :=
  match ms with
  | 0 => Some w
  | S ms => w' ← tick fuel w; advance fuel ms w'
  end.

(** ** Programs that use a cell *)

(** What the code around the cells can do, one step at a time. *)
Inductive event :=
  | Create (value : T) (options : option ObservableOptions)
  | Subscribe (c : nat) (listener : nat)
  | Unsubscribe (h : handle)
  | Set_ (c : nat) (value : T)
  | Update (c : nat) (updater : T → T)
  | Bind (target : nat) (dependencies : list nat) (compute : list T → T)
  | Unbind (unsubscribers : list handle)
  | Seal (c : nat)
  | Mute (c : nat)
  | Unmute (c : nat)
  | EndOfTask
  | Wait (ms : nat).

Definition step (fuel : nat) (e : event) (w : world) : option world :=
  match e with
  | Create v o => Some (create v o w).2
  | Subscribe c n => snd <$> subscribe fuel c (Listener n) w
  | Unsubscribe h => unsubscribe h w
  | Set_ c v => snd <$> set fuel c v w
  | Update c f => snd <$> update fuel c f w
  | Bind t ds f => snd <$> bind fuel t ds f w
  | Unbind us => unbind us w
  | Seal c => snd <$> seal c w
  | Mute c => snd <$> mute c w
  | Unmute c => snd <$> unmute c w
  | EndOfTask => drain fuel w
  | Wait ms => advance fuel ms w
  end.

Fixpoint run (fuel : nat) (es : list event) (w : world) : option world :=
  match es with
  | [] => Some w
  | e :: es => w' ← step fuel e w; run fuel es w'
  end.

(** ** Vocabulary of the statements *)

Definition is_listener (s : Subscriber) : Prop :=
  match s with
  | Listener _ => True
  | Recompute _ _ _ _ => False
  end.

(** One notification: every subscriber of the list [A] of the cell [c] is
    called once, in the order of the list, with [(newValue, oldValue)]. *)
Definition notifications (c : nat) (A : list Subscriber) (newValue oldValue : T) : list call :=
  (λ s, (c, fn_of s, newValue, Some oldValue)) <$> A.

(** [this._history.push(v)] *)
Definition push_history (v : T) (o : BasicObservable) : BasicObservable :=
  with_history (_history o ++ [v]) o.

(** The timers left when the handle [h] is cleared. *)
Definition cancel (h : option nat) (ts : list timer) : list timer :=
  match h with
  | Some id => filter (λ t, timer_id t ≠ id) ts
  | None => ts
  end.

(** Calls of [set] on the cell [c] that follow a first one: each is made
    [gap] ms after the one before it, as a task of its own. *)
Fixpoint burst (c : nat) (rest : list (nat * T)) : list event :=
  match rest with
  | [] => []
  | (gap, v) :: rest => Wait gap :: Set_ c v :: EndOfTask :: burst c rest
  end.

(** Each value of [vs] differs from the one before it, the first from [v]. *)
Fixpoint changes (v : T) (vs : list T) : Prop :=
  match vs with
  | [] => True
  | x :: vs => x ≠ v ∧ changes x vs
  end.

(** The fields of the source, without the model's record of the arrays
    [_subscribers] pointed to before. *)
Definition fields (o : BasicObservable) : BasicObservable :=
  mkObservable (_state o) (_subscribers o) (_value o) (_options o) (_history o)
    (_debounceTimeout o) (_throttleTimeout o) [].

Definition contents (w : world) : world :=
  with_cells (fields <$> cells w) w.

(** Nothing is pending: no timer, no suspended loop. *)
Definition quiescent (w : world) : Prop :=
  timers w = [] ∧ microtasks w = [].

End Observable.

Arguments Subscriber T : clear implicits.
Arguments BasicObservable T : clear implicits.
Arguments timer_callback T : clear implicits.
Arguments timer T : clear implicits.
Arguments continuation T : clear implicits.
Arguments call T : clear implicits.
Arguments world T : clear implicits.
Arguments handle T : clear implicits.
Arguments event T : clear implicits.

(** ** Concrete cells *)

Definition debounced10 : ObservableOptions := mkOptions (Some 10) None.

Definition throttled10 : ObservableOptions := mkOptions None (Some 10).

(** The cell of [const c = cheeze(0, options); c.subscribe(f7)], with [f7] a
    listener. *)
Definition watched_cell (options : option ObservableOptions) : BasicObservable Z :=
  mkObservable unsealed [Listener 7] 0%Z (default no_options options) [0%Z] None None [].

(** The world that program leaves. *)
Definition watched (options : option ObservableOptions) : world Z :=
  mkWorld [watched_cell options] [] 0 0 0 [] [(0, user_fn 7, 0%Z, None)].

(** The compute function [(args) => args.reduce((x, y) => x + y, 0)]. *)
Definition sum_of (args : list Z) : Z := foldr Z.add 0%Z args.

(** The target of [const a = cheeze(1), b = cheeze(2), t = cheeze(0);
    a.subscribe(f7); t.subscribe(f9)]. *)
Definition derived_cell : BasicObservable Z :=
  mkObservable unsealed [Listener 9] 0%Z no_options [0%Z] None None [].

(** The world that program leaves: the cells [a], [b] and [t]. *)
Definition derivation : world Z :=
  mkWorld
    [mkObservable unsealed [Listener 7] 1%Z no_options [1%Z] None None [];
     mkObservable unsealed [] 2%Z no_options [2%Z] None None [];
     derived_cell]
    [] 0 0 0 [] [(0, user_fn 7, 1%Z, None); (2, user_fn 9, 0%Z, None)].

(** The source [a] of the binding with a debounce of 10 ms, the callback of
    the binding in its list. *)
Definition debounced_source : world Z :=
  mkWorld
    [mkObservable unsealed [Recompute 0 2 [0; 1] sum_of] 1%Z debounced10 [1%Z] None None [];
     mkObservable unsealed [] 2%Z no_options [2%Z] None None [];
     mkObservable unsealed [Listener 9] 3%Z no_options [0%Z; 3%Z] None None []]
    [] 0 1 0 [] [].

(** ** Basic facts *)

Section Basics.

Context {T : Type} `{EqDecision T}.

Implicit Types (w : world T) (o this : BasicObservable T) (c : nat).

Lemma with_cells_id w : with_cells (cells w) w = w.
Proof. by destruct w. Qed.

Lemma lookup_modify c f w :
  cells (modify c f w) !! c = f <$> cells w !! c.
Proof. apply list_lookup_alter_eq. Qed.

Lemma lookup_modify_ne c c' f w :
  c ≠ c' → cells (modify c f w) !! c' = cells w !! c'.
Proof. intros. by apply list_lookup_alter_ne. Qed.

Lemma modify_id c f w :
  (∀ o, cells w !! c = Some o → f o = o) → modify c f w = w.
Proof.
  intros Hf. unfold modify.
  rewrite (list_alter_ext f id (cells w) (cells w) c) by (simpl; auto).
  rewrite list_alter_id by done. apply with_cells_id.
Qed.

Lemma modify_modify c f g w :
  modify c f (modify c g w) = modify c (f ∘ g) w.
Proof. unfold modify, with_cells. simpl. by rewrite list_alter_alter_eq. Qed.

Lemma with_value_id o : with_value (_value o) o = o.
Proof. by destruct o. Qed.

Lemma check_sealed this :
  _state this = sealed → _checkForSealedMutationError this = Some SealedMutationError.
Proof. unfold _checkForSealedMutationError. intros ->. by rewrite decide_True. Qed.

Lemma check_not_sealed this :
  _state this ≠ sealed → _checkForSealedMutationError this = None.
Proof. unfold _checkForSealedMutationError. intros. by rewrite decide_False. Qed.

(** On a sealed cell the three mutators fail and change nothing. *)
Lemma set_sealed fuel c v w this :
  cells w !! c = Some this → _state this = sealed →
  set fuel c v w = Some (Rejected SealedMutationError, w).
Proof.
  intros Hc Hs. unfold set, set_with. rewrite Hc. simpl.
  by rewrite check_sealed.
Qed.

Lemma mute_sealed c w this :
  cells w !! c = Some this → _state this = sealed →
  mute c w = Some (Threw SealedMutationError, w).
Proof. intros Hc Hs. unfold mute. rewrite Hc. simpl. by rewrite check_sealed. Qed.

Lemma unmute_sealed c w this :
  cells w !! c = Some this → _state this = sealed →
  unmute c w = Some (Threw SealedMutationError, w).
Proof. intros Hc Hs. unfold unmute. rewrite Hc. simpl. by rewrite check_sealed. Qed.

Lemma seal_spec c w this :
  cells w !! c = Some this →
  seal c w = Some (Returned, modify c (λ o, with_state sealed (assign_subscribers [] o)) w).
Proof. intros Hc. unfold seal. by rewrite Hc. Qed.

End Basics.

(** ** What no operation undoes

    Every operation leaves each cell with its options, extends its history at
    the end only, and leaves a sealed cell sealed with the value it has. *)

Section Evolution.

Context {T : Type} `{EqDecision T}.

Implicit Types (w : world T) (o this : BasicObservable T) (c : nat).

Definition grows o o' : Prop :=
  _history o `prefix_of` _history o'
  ∧ _options o' = _options o
  ∧ (_state o = sealed → _state o' = sealed ∧ _value o' = _value o).

Definition evolves w w' : Prop :=
  (∀ c o, cells w !! c = Some o → ∃ o', cells w' !! c = Some o' ∧ grows o o')
  ∧ (∀ c o', cells w' !! c = Some o' → cells w !! c = None → _history o' ≠ [])
  ∧ next_closure w ≤ next_closure w'.

Definition sound (inv : nat → Subscriber T → T → option T → world T → option (world T)) : Prop :=
  ∀ c s nv ov w w', inv c s nv ov w = Some w' → evolves w w'.

Lemma grows_refl o : grows o o.
Proof. by repeat split. Qed.

Lemma grows_trans o1 o2 o3 : grows o1 o2 → grows o2 o3 → grows o1 o3.
Proof.
  intros (Hh1 & Ho1 & Hs1) (Hh2 & Ho2 & Hs2). split; [by etrans|].
  split; [congruence|]. intros Hs.
  destruct (Hs1 Hs) as [Hs' Hv']. destruct (Hs2 Hs') as [Hs'' Hv''].
  split; congruence.
Qed.

#[local] Instance evolves_preorder : PreOrder evolves.
Proof.
  split.
  - intros w. split; [|split; [|done]].
    + intros c o Hc. exists o. split; [done|apply grows_refl].
    + intros c o' Hc Hn. congruence.
  - intros w1 w2 w3 (H12 & N12 & C12) (H23 & N23 & C23). split; [|split; [|lia]].
    + intros c o Hc.
      destruct (H12 _ _ Hc) as (o2 & Hc2 & Hg2).
      destruct (H23 _ _ Hc2) as (o3 & Hc3 & Hg3).
      exists o3. split; [done|by eapply grows_trans].
    + intros c o3 Hc3 Hn1.
      destruct (cells w2 !! c) as [o2|] eqn:Hc2; [|by eapply N23].
      destruct (H23 _ _ Hc2) as (o3' & Hc3' & (Hp & _)). simplify_eq.
      pose proof (N12 _ _ Hc2 Hn1) as Hne. intros Hnil. rewrite Hnil in Hp.
      by apply prefix_nil_inv in Hp.
Qed.

Lemma evolves_fields w w' :
  cells w' = cells w → next_closure w ≤ next_closure w' → evolves w w'.
Proof.
  intros Hw Hn. split; [|split; [|done]].
  - intros c o Hc. exists o. rewrite Hw. split; [done|apply grows_refl].
  - rewrite Hw. intros c o' Hc Hn'. congruence.
Qed.

Lemma evolves_cells w w' :
  cells w' = cells w → next_closure w' = next_closure w → evolves w w'.
Proof. intros Hw Hn. apply evolves_fields; [done|lia]. Qed.

Lemma evolves_modify c f w :
  (∀ o, cells w !! c = Some o → grows o (f o)) → evolves w (modify c f w).
Proof.
  intros Hf. split; [|split; [|done]].
  - intros c' o Hc'. destruct (decide (c = c')) as [<-|Hne].
    + exists (f o). rewrite lookup_modify, Hc'. split; [done|by apply Hf].
    + exists o. rewrite lookup_modify_ne by done. split; [done|apply grows_refl].
  - intros c' o' Hc' Hn. apply lookup_lt_Some in Hc'. apply lookup_ge_None in Hn.
    unfold modify in Hc'. simpl in Hc'. rewrite length_alter in Hc'. lia.
Qed.

Lemma grows_debounceTimeout o x : grows o (with_debounceTimeout x o).
Proof. by repeat split. Qed.

Lemma grows_throttleTimeout o x : grows o (with_throttleTimeout x o).
Proof. by repeat split. Qed.

Lemma grows_history o v : grows o (with_history (_history o ++ [v]) o).
Proof. repeat split; try done. simpl. by apply prefix_app_r. Qed.

Lemma grows_push o s : grows o (push_subscriber s o).
Proof. by repeat split. Qed.

Lemma grows_assign o a : grows o (assign_subscribers a o).
Proof. by repeat split. Qed.

Section WithInvoke.

Variable inv : nat → Subscriber T → T → option T → world T → option (world T).
Hypothesis inv_sound : sound inv.

Lemma iterate_evolves k w w' : iterate inv k w = Some w' → evolves w w'.
Proof.
  unfold iterate. intros Hk.
  destruct (cells w !! k_this k) as [this|] eqn:Hc; simplify_eq/=.
  destruct (array_of this (k_array k) !! k_index k) as [s|]; simplify_eq/=.
  - destruct (inv _ _ _ _ w) as [w1|] eqn:Hi; simplify_eq/=.
    etrans; [by eapply inv_sound|]. by apply evolves_cells.
  - apply evolves_modify. intros. apply grows_history.
Qed.

Lemma for_of_evolves c nv ov w w' : for_of inv c nv ov w = Some w' → evolves w w'.
Proof.
  unfold for_of. intros Hk.
  destruct (cells w !! c) as [this|]; simplify_eq/=. by eapply iterate_evolves.
Qed.

Lemma throttle_gate_evolves c this w w' :
  throttle_gate c this w = Some w' → evolves w w'.
Proof.
  unfold throttle_gate. intros Hg.
  destruct (truthy _); [|by simplify_eq].
  destruct (_throttleTimeout this); simplify_eq/=.
  etrans; [|apply evolves_modify; intros; apply grows_throttleTimeout].
  by apply evolves_cells.
Qed.

Lemma _notify_evolves c nv ov w w' : _notify inv c nv ov w = Some w' → evolves w w'.
Proof.
  unfold _notify. intros Hn.
  destruct (cells w !! c) as [this|]; simplify_eq/=.
  repeat case_decide; simplify_eq; try reflexivity.
  destruct (throttle_gate c this w) as [w1|] eqn:Hg; [|by simplify_eq].
  etrans; [by eapply throttle_gate_evolves|].
  destruct (truthy (debounce _)).
  - simplify_eq/=. etrans; [|apply evolves_modify; intros; apply grows_debounceTimeout].
    destruct (_debounceTimeout this); by apply evolves_cells.
  - by eapply for_of_evolves.
Qed.

Lemma set_with_evolves c v w r w' : set_with inv c v w = Some (r, w') → evolves w w'.
Proof.
  unfold set_with. intros Hs.
  destruct (cells w !! c) as [this|] eqn:Hc; simplify_eq/=.
  unfold _checkForSealedMutationError in Hs. case_decide; simplify_eq/=; [reflexivity|].
  destruct (_notify _ _ _ _ _) as [w2|] eqn:Hn; simplify_eq/=.
  etrans; [|by eapply _notify_evolves].
  apply evolves_modify. intros o Ho. simplify_eq. by repeat split.
Qed.

Lemma run_timer_evolves cb w w' : run_timer inv cb w = Some w' → evolves w w'.
Proof.
  destruct cb as [c|c nv ov]; simpl; intros Hr.
  - destruct (cells w !! c) as [this|]; simplify_eq/=.
    etrans; [|apply evolves_modify; intros; apply grows_throttleTimeout].
    destruct (_throttleTimeout this); by apply evolves_cells.
  - by eapply for_of_evolves.
Qed.

End WithInvoke.

Lemma invoke_sound fuel : sound (invoke fuel).
Proof.
  induction fuel as [|fuel IH]; intros c s nv ov w w'; destruct s as [n|k t ds f]; simpl;
    intros Hi; simplify_eq; try by apply evolves_cells.
  destruct (values_of ds _) as [args|]; simplify_eq/=.
  destruct (set_with _ _ _ _) as [[r w2]|] eqn:Hs; simplify_eq/=.
  etrans; [|by eapply set_with_evolves]. by apply evolves_cells.
Qed.

Lemma set_evolves fuel c v w r w' : set fuel c v w = Some (r, w') → evolves w w'.
Proof. apply set_with_evolves, invoke_sound. Qed.

Lemma drain_turns_evolves n fuel w w' : drain_turns n fuel w = Some w' → evolves w w'.
Proof.
  revert w. induction n as [|n IH]; intros w; simpl;
    destruct (microtasks w) as [|k queue]; intros Hd; simplify_eq; try reflexivity.
  destruct (iterate _ _ _) as [w1|] eqn:Hi; simplify_eq/=.
  etrans; [|by apply IH]. etrans; [|by eapply iterate_evolves, Hi; apply invoke_sound].
  by apply evolves_cells.
Qed.

Lemma drain_evolves fuel w w' : drain fuel w = Some w' → evolves w w'.
Proof. apply drain_turns_evolves. Qed.

Lemma fire_evolves fuel ids w w' : fire fuel ids w = Some w' → evolves w w'.
Proof.
  revert w. induction ids as [|id ids IH]; intros w; simpl; intros Hf; simplify_eq;
    [reflexivity|].
  destruct (pending id w); [|by apply IH].
  destruct (run_timer _ _ _) as [w1|] eqn:Hr; simplify_eq/=.
  destruct (drain fuel w1) as [w2|] eqn:Hd; simplify_eq/=.
  etrans; [|by apply IH]. etrans; [|by eapply drain_evolves].
  etrans; [|by eapply run_timer_evolves, Hr; apply invoke_sound].
  by apply evolves_cells.
Qed.

Lemma tick_evolves fuel w w' : tick fuel w = Some w' → evolves w w'.
Proof.
  unfold tick. intros Ht.
  destruct (drain fuel w) as [w0|] eqn:Hd; simplify_eq/=.
  etrans; [by eapply drain_evolves|]. etrans; [|by eapply fire_evolves].
  by apply evolves_cells.
Qed.

Lemma advance_evolves fuel ms w w' : advance fuel ms w = Some w' → evolves w w'.
Proof.
  revert w. induction ms as [|ms IH]; intros w; simpl; intros Ha; simplify_eq;
    [reflexivity|].
  destruct (tick fuel w) as [w1|] eqn:Ht; simplify_eq/=.
  etrans; [by eapply tick_evolves|by apply IH].
Qed.

Lemma subscribe_evolves fuel c s w h w' :
  subscribe fuel c s w = Some (h, w') → evolves w w'.
Proof.
  unfold subscribe. intros Hs.
  destruct (cells w !! c) as [this|]; simplify_eq/=.
  destruct (invoke _ _ _ _ _ _) as [w2|] eqn:Hi; simplify_eq/=.
  etrans; [|by eapply invoke_sound].
  apply evolves_modify. intros. apply grows_push.
Qed.

Lemma unsubscribe_evolves h w w' : unsubscribe h w = Some w' → evolves w w'.
Proof.
  unfold unsubscribe. intros Hu.
  destruct (cells w !! h.1) as [this|]; simplify_eq/=.
  apply evolves_modify. intros. apply grows_assign.
Qed.

Lemma bind_loop_evolves fuel t ds f rest w us w' :
  bind_loop fuel t ds f rest w = Some (us, w') → evolves w w'.
Proof.
  revert w us. induction rest as [|d rest IH]; intros w us; simpl; intros Hb;
    simplify_eq; [reflexivity|].
  destruct (subscribe _ _ _ _) as [[h w1]|] eqn:Hs; simplify_eq/=.
  destruct (bind_loop _ _ _ _ _ _) as [[us' w2]|] eqn:Hl; simplify_eq/=.
  etrans; [|by eapply IH]. etrans; [|by eapply subscribe_evolves].
  apply evolves_fields; simpl; [done|lia].
Qed.

Lemma bind_evolves fuel t ds f w us w' :
  bind fuel t ds f w = Some (us, w') → evolves w w'.
Proof.
  unfold bind. intros Hb.
  destruct (bind_loop _ _ _ _ _ _) as [[us' w1]|] eqn:Hl; simplify_eq/=.
  destruct (values_of ds w1) as [args|]; simplify_eq/=.
  destruct (set _ _ _ _) as [[r w2]|] eqn:Hs; simplify_eq/=.
  etrans; [by eapply bind_loop_evolves|by eapply set_evolves].
Qed.

Lemma unbind_evolves us w w' : unbind us w = Some w' → evolves w w'.
Proof.
  revert w. induction us as [|u us IH]; intros w; simpl; intros Hu; simplify_eq;
    [reflexivity|].
  destruct (unsubscribe u w) as [w1|] eqn:Hw; simplify_eq/=.
  etrans; [by eapply unsubscribe_evolves|by apply IH].
Qed.

Lemma seal_evolves c w r w' : seal c w = Some (r, w') → evolves w w'.
Proof.
  unfold seal. intros Hs. destruct (cells w !! c) as [this|]; simplify_eq/=.
  apply evolves_modify. intros o Ho. by repeat split.
Qed.

Lemma mute_evolves c w r w' : mute c w = Some (r, w') → evolves w w'.
Proof.
  unfold mute, _checkForSealedMutationError. intros Hs.
  destruct (cells w !! c) as [this|] eqn:Hc; simplify_eq/=.
  case_decide; simplify_eq; [reflexivity|].
  apply evolves_modify. intros o Ho. simplify_eq. by repeat split.
Qed.

Lemma unmute_evolves c w r w' : unmute c w = Some (r, w') → evolves w w'.
Proof.
  unfold unmute, _checkForSealedMutationError. intros Hs.
  destruct (cells w !! c) as [this|] eqn:Hc; simplify_eq/=.
  case_decide; simplify_eq; [reflexivity|].
  apply evolves_modify. intros o Ho. simplify_eq. by repeat split.
Qed.

Lemma create_evolves v options w : evolves w (create v options w).2.
Proof.
  split; [|split; [|done]].
  - intros c o Hc. exists o. split; [|apply grows_refl].
    simpl. by apply lookup_app_l_Some.
  - simpl. intros c o' Hc Hn. apply lookup_ge_None in Hn.
    rewrite lookup_app_r in Hc by done.
    destruct (c - length (cells w)) as [|i]; simplify_eq/=. done.
Qed.

Lemma step_evolves fuel e w w' : step fuel e w = Some w' → evolves w w'.
Proof.
  destruct e; simpl; intros Hs.
  - simplify_eq. apply create_evolves.
  - destruct (subscribe _ _ _ _) as [[??]|] eqn:?; simplify_eq/=.
    by eapply subscribe_evolves.
  - by eapply unsubscribe_evolves.
  - destruct (set _ _ _ _) as [[??]|] eqn:?; simplify_eq/=. by eapply set_evolves.
  - unfold update in Hs. destruct (get c w); simplify_eq/=.
    destruct (set _ _ _ _) as [[??]|] eqn:?; simplify_eq/=. by eapply set_evolves.
  - destruct (bind _ _ _ _ _) as [[??]|] eqn:?; simplify_eq/=. by eapply bind_evolves.
  - by eapply unbind_evolves.
  - destruct (seal _ _) as [[??]|] eqn:?; simplify_eq/=. by eapply seal_evolves.
  - destruct (mute _ _) as [[??]|] eqn:?; simplify_eq/=. by eapply mute_evolves.
  - destruct (unmute _ _) as [[??]|] eqn:?; simplify_eq/=. by eapply unmute_evolves.
  - by eapply drain_evolves.
  - by eapply advance_evolves.
Qed.

Lemma run_evolves fuel es w w' : run fuel es w = Some w' → evolves w w'.
Proof.
  revert w. induction es as [|e es IH]; intros w; simpl; intros Hr; simplify_eq;
    [reflexivity|].
  destruct (step fuel e w) as [w1|] eqn:Hs; simplify_eq/=.
  etrans; [by eapply step_evolves|by apply IH].
Qed.

End Evolution.

(** ** Notifications of listeners *)

Section Cycles.

Context {T : Type} `{EqDecision T}.

Implicit Types (w : world T) (o this : BasicObservable T) (c : nat).

Lemma invoke_listener fuel c n nv ov w :
  invoke fuel c (Listener n) nv ov w
  = Some (with_calls (calls w ++ [(c, user_fn n, nv, ov)]) w).
Proof. by destruct fuel. Qed.

Lemma list_alter_insert {A} (f : A → A) (l : list A) i x :
  l !! i = Some x → alter f i l = <[i:=f x]> l.
Proof.
  revert i. induction l as [|y l IH]; intros [|i] Hi; simplify_eq/=; [done|].
  f_equal. by apply IH.
Qed.

Lemma list_alter_insert_eq {A} (f : A → A) (l : list A) i x y :
  l !! i = Some y → alter f i (<[i:=x]> l) = <[i:=f x]> l.
Proof.
  intros Hi. rewrite list_alter_insert with (x := x).
  - apply list_insert_insert_eq.
  - apply list_lookup_insert_eq. by eapply lookup_lt_Some.
Qed.

Lemma modify_lookup c f w o :
  cells w !! c = Some o → modify c f w = with_cells (<[c:=f o]> (cells w)) w.
Proof. intros Hc. unfold modify. by rewrite (list_alter_insert _ _ _ _ Hc). Qed.

Lemma drain_turns_nil n fuel w : microtasks w = [] → drain_turns n fuel w = Some w.
Proof. intros Hq. destruct n; simpl; by rewrite Hq. Qed.

Lemma drain_nil fuel w : microtasks w = [] → drain fuel w = Some w.
Proof. apply drain_turns_nil. Qed.

(** A loop over listeners, resumed alone, calls the listeners that remain and
    then pushes the value. *)
Lemma drain_loop n fuel w k this :
  microtasks w = [k] →
  cells w !! k_this k = Some this →
  Forall is_listener (array_of this (k_array k)) →
  length (array_of this (k_array k)) - k_index k < n →
  drain_turns n fuel w
  = Some (mkWorld (<[k_this k:=push_history (k_newValue k) this]> (cells w))
            (timers w) (next_timer w) (next_closure w) (clock w) []
            (calls w ++ notifications (k_this k)
                          (drop (k_index k) (array_of this (k_array k)))
                          (k_newValue k) (k_oldValue k))).
Proof.
  revert w k. induction n as [|n IH]; intros w k Hq Hc HA Hn; [lia|].
  simpl. rewrite Hq. unfold iterate. simpl. rewrite Hc. simpl.
  destruct (array_of this (k_array k) !! k_index k) as [s|] eqn:Hs.
  - assert (is_listener s) as Hl by (eapply Forall_lookup_1; eauto).
    destruct s as [m|]; [|done]. rewrite invoke_listener. simpl.
    apply lookup_lt_Some in Hs as Hlt.
    rewrite (IH _ (next_turn k)); simpl; try done; [|lia].
    rewrite (drop_S _ _ _ Hs). simpl. by rewrite <-app_assoc.
  - apply lookup_ge_None in Hs. rewrite drop_ge by done.
    rewrite (modify_lookup _ _ (with_microtasks [] w) this Hc).
    unfold notifications. simpl. rewrite app_nil_r. by rewrite drain_turns_nil.
Qed.

(** A whole notification of a list of listeners, from the start of the loop to
    the push, when nothing else is suspended. *)
Lemma cycle fuel c nv ov w this :
  cells w !! c = Some this →
  microtasks w = [] →
  Forall is_listener (_subscribers this) →
  length (_subscribers this) ≤ fuel →
  for_of (invoke fuel) c nv ov w ≫= drain fuel
  = Some (mkWorld (<[c:=push_history nv this]> (cells w))
            (timers w) (next_timer w) (next_closure w) (clock w) []
            (calls w ++ notifications c (_subscribers this) nv ov)).
Proof.
  intros Hc Hq HA Hn. unfold for_of, iterate. rewrite Hc. simpl. rewrite Hc. simpl.
  unfold array_of. simpl. rewrite decide_True by done.
  destruct (_subscribers this) as [|s A] eqn:HS; simpl.
  - rewrite drain_nil by done. rewrite (modify_lookup _ _ _ _ Hc).
    unfold with_cells. simpl. by rewrite Hq, app_nil_r.
  - apply Forall_cons in HA as [Hs HA'].
    destruct s as [m|]; [|done]. rewrite invoke_listener. simpl.
    unfold drain. rewrite Hq. simpl in Hn.
    erewrite drain_loop; simpl; eauto.
    + unfold array_of. simpl. rewrite decide_True by done. rewrite HS. simpl.
      rewrite drop_0. by rewrite <-app_assoc.
    + unfold array_of. simpl. rewrite decide_True by done. rewrite HS.
      by apply Forall_cons.
    + unfold array_of. simpl. rewrite decide_True by done. rewrite HS. simpl. lia.
Qed.

(** *** What [set] does, case by case *)

(** A muted cell takes the value and nothing else happens. *)
Lemma set_muted fuel c v w this :
  cells w !! c = Some this → _state this = muted →
  set fuel c v w = Some (Fulfilled, modify c (with_value v) w).
Proof.
  intros Hc Hs. unfold set, set_with. rewrite Hc. simpl.
  rewrite check_not_sealed by (rewrite Hs; done).
  unfold _notify. rewrite lookup_modify, Hc. simpl.
  by rewrite decide_True.
Qed.

(** While the throttle timer is set, the cell takes the value and nothing else
    happens. *)
Lemma set_throttled fuel c v w this t id :
  cells w !! c = Some this → _state this ≠ sealed →
  truthy (throttle (_options this)) = Some t →
  _throttleTimeout this = Some id →
  set fuel c v w = Some (Fulfilled, modify c (with_value v) w).
Proof.
  intros Hc Hs Ht Hid. unfold set, set_with. rewrite Hc. simpl.
  rewrite check_not_sealed by done.
  unfold _notify. rewrite lookup_modify, Hc. simpl.
  repeat case_decide; try done.
  unfold throttle_gate. simpl. by rewrite Ht, Hid.
Qed.

(** No throttle, no debounce: the listeners are notified at once. *)
Lemma set_notifies fuel c v w this :
  cells w !! c = Some this → _state this = unsealed →
  v ≠ _value this →
  truthy (throttle (_options this)) = None →
  truthy (debounce (_options this)) = None →
  microtasks w = [] →
  Forall is_listener (_subscribers this) →
  length (_subscribers this) ≤ fuel →
  run fuel [Set_ c v; EndOfTask] w
  = Some (mkWorld (<[c:=push_history v (with_value v this)]> (cells w))
            (timers w) (next_timer w) (next_closure w) (clock w) []
            (calls w ++ notifications c (_subscribers this) v (_value this))).
Proof.
  intros Hc Hs Hv Ht Hd Hq HA Hn. simpl. unfold set, set_with. rewrite Hc. simpl.
  rewrite check_not_sealed by (rewrite Hs; done).
  unfold _notify. rewrite lookup_modify, Hc. simpl.
  rewrite decide_False by (rewrite Hs; done). rewrite decide_False by done.
  unfold throttle_gate. simpl. rewrite Ht, Hd.
  rewrite (modify_lookup _ _ _ _ Hc).
  rewrite option_fmap_bind. unfold compose. simpl.
  pose proof (cycle fuel c v (_value this)
                (with_cells (<[c:=with_value v this]> (cells w)) w)
                (with_value v this)) as Hcy.
  simpl in Hcy. rewrite list_lookup_insert_eq in Hcy by (by eapply lookup_lt_Some).
  specialize (Hcy eq_refl Hq HA Hn).
  destruct (for_of _ _ _ _ _) as [w1|]; [|done]. simpl in *.
  rewrite Hcy. simpl. by rewrite list_insert_insert_eq.
Qed.

(** Throttle configured and no window open: the listeners are notified at
    once and the window opens. *)
Lemma set_opens_window fuel c v w this t :
  cells w !! c = Some this → _state this = unsealed →
  v ≠ _value this →
  truthy (throttle (_options this)) = Some t →
  _throttleTimeout this = None →
  truthy (debounce (_options this)) = None →
  microtasks w = [] →
  Forall is_listener (_subscribers this) →
  length (_subscribers this) ≤ fuel →
  run fuel [Set_ c v; EndOfTask] w
  = Some (mkWorld
            (<[c:=push_history v (with_throttleTimeout (Some (next_timer w)) (with_value v this))]>
               (cells w))
            (timers w ++ [mkTimer (next_timer w) (clock w + t) (throttle_expired c)])
            (S (next_timer w)) (next_closure w) (clock w) []
            (calls w ++ notifications c (_subscribers this) v (_value this))).
Proof.
  intros Hc Hs Hv Ht Hid Hd Hq HA Hn. simpl. unfold set, set_with. rewrite Hc. simpl.
  rewrite check_not_sealed by (rewrite Hs; done).
  unfold _notify. rewrite lookup_modify, Hc. simpl.
  rewrite decide_False by (rewrite Hs; done). rewrite decide_False by done.
  unfold throttle_gate. simpl. rewrite Ht, Hid, Hd. simpl.
  unfold modify. simpl.
  rewrite (list_alter_insert _ _ _ _ Hc), (list_alter_insert_eq _ _ _ _ _ Hc).
  rewrite option_fmap_bind. unfold compose. simpl.
  match goal with |- context [for_of _ _ _ _ ?u] =>
    pose proof (cycle fuel c v (_value this) u
      (with_throttleTimeout (Some (next_timer w)) (with_value v this))) as Hcy end.
  simpl in Hcy. rewrite list_lookup_insert_eq in Hcy by (by eapply lookup_lt_Some).
  specialize (Hcy eq_refl Hq HA Hn).
  destruct (for_of _ _ _ _ _) as [w1|]; [|done]. simpl in *.
  rewrite Hcy. simpl. by rewrite list_insert_insert_eq.
Qed.

(** Debounce configured, no throttle: the pending timer is replaced. *)
Lemma set_debounces fuel c v w this d :
  cells w !! c = Some this → _state this = unsealed →
  v ≠ _value this →
  truthy (throttle (_options this)) = None →
  truthy (debounce (_options this)) = Some d →
  set fuel c v w
  = Some (Fulfilled,
          mkWorld
            (<[c:=with_debounceTimeout (Some (next_timer w)) (with_value v this)]> (cells w))
            (cancel (_debounceTimeout this) (timers w)
               ++ [mkTimer (next_timer w) (clock w + d) (debounce_elapsed c v (_value this))])
            (S (next_timer w)) (next_closure w) (clock w) (microtasks w) (calls w)).
Proof.
  intros Hc Hs Hv Ht Hd. unfold set, set_with. rewrite Hc. simpl.
  rewrite check_not_sealed by (rewrite Hs; done).
  unfold _notify. rewrite lookup_modify, Hc. simpl.
  rewrite decide_False by (rewrite Hs; done). rewrite decide_False by done.
  unfold throttle_gate. simpl. rewrite Ht, Hd. simpl.
  unfold modify. simpl.
  destruct (_debounceTimeout this) as [id|]; simpl;
    by rewrite (list_alter_insert _ _ _ _ Hc), (list_alter_insert_eq _ _ _ _ _ Hc).
Qed.

(** *** The passing of time *)

Lemma filter_none {A} (P : A → Prop) `{∀ x, Decision (P x)} (l : list A) :
  Forall (λ x, ¬ P x) l → filter P l = [].
Proof.
  induction 1 as [|x l Hx Hl IH]; [done|].
  rewrite filter_cons, decide_False by done. done.
Qed.

Lemma tick_idle fuel w :
  microtasks w = [] →
  Forall (λ t, S (clock w) < due t) (timers w) →
  tick fuel w = Some (with_clock (S (clock w)) w).
Proof.
  intros Hq Hd. unfold tick. rewrite drain_nil by done. simpl.
  rewrite filter_none; [done|].
  eapply Forall_impl; [exact Hd|]. simpl. lia.
Qed.

Lemma advance_idle fuel ms w :
  microtasks w = [] →
  Forall (λ t, clock w + ms < due t) (timers w) →
  advance fuel ms w = Some (with_clock (clock w + ms) w).
Proof.
  revert w. induction ms as [|ms IH]; intros w Hq Hd; simpl.
  - rewrite Nat.add_0_r. by destruct w.
  - rewrite tick_idle; [|done|eapply Forall_impl; [exact Hd|simpl; lia]].
    simpl. rewrite IH; simpl; [|done|eapply Forall_impl; [exact Hd|simpl; lia]].
    unfold with_clock. simpl. do 2 f_equal. lia.
Qed.

Lemma advance_add fuel a b w :
  advance fuel (a + b) w = advance fuel a w ≫= advance fuel b.
Proof.
  revert w. induction a as [|a IH]; intros w; simpl; [done|].
  destruct (tick fuel w) as [w1|]; simpl; [apply IH|done].
Qed.

(** The only pending timer becomes due. *)
Lemma tick_fires fuel w t w2 :
  microtasks w = [] →
  timers w = [t] →
  due t ≤ S (clock w) →
  run_timer (invoke fuel) (callback t)
    (mkWorld (cells w) [] (next_timer w) (next_closure w) (S (clock w)) [] (calls w))
    ≫= drain fuel = Some w2 →
  tick fuel w = Some w2.
Proof.
  intros Hq Ht Hd Hr. unfold tick. rewrite drain_nil by done. simpl.
  rewrite Ht. rewrite filter_cons, decide_True by (simpl; lia).
  rewrite filter_nil. simpl. unfold pending. simpl. rewrite Ht.
  rewrite filter_cons, decide_True by done. simpl.
  unfold clearTimeout. simpl. rewrite Ht.
  rewrite filter_cons, decide_False by (simpl; auto). rewrite filter_nil.
  unfold with_timers. simpl. rewrite Hq.
  destruct (run_timer _ _ _) as [w1|]; [|done]. simpl in *.
  rewrite Hr. done.
Qed.

Lemma advance_fires fuel ms w t w2 :
  microtasks w = [] →
  timers w = [t] →
  clock w < due t → due t ≤ clock w + ms →
  run_timer (invoke fuel) (callback t)
    (mkWorld (cells w) [] (next_timer w) (next_closure w) (due t) [] (calls w))
    ≫= drain fuel = Some w2 →
  timers w2 = [] → microtasks w2 = [] → clock w2 = due t →
  advance fuel ms w = Some (with_clock (clock w + ms) w2).
Proof.
  intros Hq Ht Hlt Hle Hr Ht2 Hq2 Hc2.
  replace ms with ((due t - clock w - 1) + (1 + (clock w + ms - due t))) at 1 by lia.
  rewrite advance_add.
  rewrite advance_idle; [|done|rewrite Ht; repeat constructor; lia]. simpl.
  erewrite tick_fires; simpl; eauto; [| |].
  - simpl. rewrite advance_idle; [|done|rewrite Ht2; constructor].
    unfold with_clock. do 2 f_equal. lia.
  - lia.
  - replace (S (clock w + (due t - clock w - 1))) with (due t) by lia. done.
Qed.

Lemma throttle_expires fuel c w this :
  cells w !! c = Some this →
  microtasks w = [] →
  run_timer (invoke fuel) (throttle_expired c) w ≫= drain fuel
  = Some (mkWorld (<[c:=with_throttleTimeout None this]> (cells w))
            (cancel (_throttleTimeout this) (timers w))
            (next_timer w) (next_closure w) (clock w) [] (calls w)).
Proof.
  intros Hc Hq. simpl. rewrite Hc. simpl.
  destruct (_throttleTimeout this) as [id|]; simpl;
    (rewrite drain_nil by done); unfold modify; simpl;
    rewrite (list_alter_insert _ _ _ _ Hc); destruct w; simpl in *; by subst.
Qed.

Lemma run_app fuel es1 es2 w :
  run fuel (es1 ++ es2) w = run fuel es1 w ≫= run fuel es2.
Proof.
  revert w. induction es1 as [|e es1 IH]; intros w; simpl; [done|].
  destruct (step fuel e w) as [w1|]; simpl; [apply IH|done].
Qed.

(** *** A burst of calls under debounce *)

Lemma truthy_Some n d : truthy n = Some d → 0 < d.
Proof. destruct n as [[|m]|]; simpl; intros; simplify_eq; lia. Qed.

Lemma cancel_nil h : cancel h ([] : list (timer T)) = [].
Proof. by destruct h. Qed.

Section Burst.

Variables (fuel c : nat) (w : world T) (this : BasicObservable T) (d : nat).
Hypothesis Hc : cells w !! c = Some this.
Hypothesis Hs : _state this = unsealed.
Hypothesis Ht : truthy (throttle (_options this)) = None.
Hypothesis Hd : truthy (debounce (_options this)) = Some d.

(** The world while a debounce timer started at [clk] is pending for the call
    [set(v)] made when the value was [ov]. *)
Definition debouncing (id clk : nat) (v ov : T) : world T :=
  mkWorld (<[c:=with_debounceTimeout (Some id) (with_value v this)]> (cells w))
    [mkTimer id (clk + d) (debounce_elapsed c v ov)]
    (S id) (next_closure w) clk [] (calls w).

(** The arguments the pending timer holds after the calls of [rest]. *)
Definition held (v ov : T) (rest : list (nat * T)) : T * T :=
  foldl (λ p gv, (gv.2, p.1)) (v, ov) rest.

Lemma debouncing_first v :
  quiescent w → v ≠ _value this →
  run fuel [Set_ c v; EndOfTask] w
  = Some (debouncing (next_timer w) (clock w) v (_value this)).
Proof.
  intros [Htm Hq] Hv. simpl. rewrite (set_debounces _ _ _ _ this d) by done.
  simpl. rewrite drain_nil by done. simpl.
  by rewrite Htm, cancel_nil, Hq.
Qed.

Lemma debouncing_burst rest id clk v ov :
  Forall (λ gv, gv.1 < d) rest →
  changes v (snd <$> rest) →
  ∃ id' clk', run fuel (burst c rest) (debouncing id clk v ov)
              = Some (debouncing id' clk' (held v ov rest).1 (held v ov rest).2).
Proof.
  revert id clk v ov. induction rest as [|[g v'] rest IH]; intros id clk v ov Hg Hv.
  - by exists id, clk.
  - apply Forall_cons in Hg as [Hg Hg']. destruct Hv as [Hv Hv']. simpl in *.
    rewrite advance_idle; simpl; [|done|repeat constructor; simpl; lia].
    rewrite (set_debounces fuel c v' _
               (with_debounceTimeout (Some id) (with_value v this)) d);
      [|simpl; by apply list_lookup_insert_eq; eapply lookup_lt_Some|done..].
    simpl. rewrite filter_cons, decide_False by (simpl; auto). rewrite filter_nil.
    rewrite drain_nil by done. simpl. rewrite list_insert_insert_eq.
    apply (IH (S id) (clk + g) v' v); done.
Qed.

Lemma debouncing_fires id clk v ov e :
  d ≤ e →
  Forall is_listener (_subscribers this) →
  length (_subscribers this) ≤ fuel →
  run fuel [Wait e] (debouncing id clk v ov)
  = Some (mkWorld
            (<[c:=push_history v (with_debounceTimeout (Some id) (with_value v this))]> (cells w))
            [] (S id) (next_closure w) (clk + e) []
            (calls w ++ notifications c (_subscribers this) v ov)).
Proof.
  intros He HA Hn. simpl. pose proof (truthy_Some _ _ Hd) as Hpos.
  set (o := with_debounceTimeout (Some id) (with_value v this)).
  rewrite (advance_fires fuel e _ (mkTimer id (clk + d) (debounce_elapsed c v ov))
             (mkWorld (<[c:=push_history v o]> (cells w)) [] (S id) (next_closure w)
                (clk + d) [] (calls w ++ notifications c (_subscribers this) v ov)));
    [done|done|done|simpl; lia|simpl; lia| |done|done|done].
  cbn [callback due cells timers next_timer next_closure clock microtasks calls run_timer].
  rewrite (cycle fuel c v ov _ o); simpl; try done.
  - by rewrite list_insert_insert_eq.
  - apply list_lookup_insert_eq. by eapply lookup_lt_Some.
Qed.

End Burst.

Lemma held_fst (v ov : T) rest :
  (held v ov rest).1 = default v (last (snd <$> rest)).
Proof.
  revert v ov. induction rest as [|[g x] rest IH]; intros v ov; [done|].
  unfold held in *. simpl. rewrite IH.
  change (list_fmap _ _ snd rest) with (snd <$> rest).
  generalize (snd <$> rest). intros [|a l]; [done|].
  change (last (x :: a :: l)) with (last (a :: l)).
  destruct (last (a :: l)) eqn:E; [done|]. by apply last_None in E.
Qed.

Lemma held_snoc (v ov : T) rest g x :
  held v ov (rest ++ [(g, x)]) = (x, default v (last (snd <$> rest))).
Proof. unfold held. rewrite foldl_snoc. simpl. f_equal. apply held_fst. Qed.


End Cycles.

(** ** Who is still called

    Once no array of the cell [c] that a loop reads, now or later, holds the
    function [fn], nothing calls [fn] for [c] again, whatever is done, unless
    it is subscribed again. *)

Section Silence.

Context {T : Type} `{EqDecision T}.

Implicit Types (w : world T) (o this : BasicObservable T) (k : continuation T).

Variables (c : nat) (fn : fn_id) (a0 : nat).

Definition spared (s : Subscriber T) : Prop := fn_of s ≠ fn.

(** The arrays of [c] from the [a0]-th on are free of [fn], the suspended loops
    of [c] read such arrays, and [fn] is no closure that [bind] has yet to
    create. *)
Definition silent w : Prop :=
  (∀ o, cells w !! c = Some o →
     a0 ≤ length (_replaced o) ∧ ∀ a, a0 ≤ a → Forall spared (array_of o a))
  ∧ (∀ k, k ∈ microtasks w → k_this k = c → a0 ≤ k_array k)
  ∧ (∀ j : nat, fn = bind_fn j → j < next_closure w)
  ∧ c < length (cells w).

(** The calls made from [w] to [w'] are not calls of [fn] for [c]. *)
Definition quiet w w' : Prop :=
  ∃ l, calls w' = calls w ++ l ∧ Forall (λ e : call T, e.1.1 ≠ (c, fn)) l.

(** Every event but the subscription of [fn] to [c]. *)
Definition allowed (e : event T) : Prop :=
  match e with
  | Subscribe c' n => ¬ (c' = c ∧ user_fn n = fn)
  | _ => True
  end.

Definition keeps (g : BasicObservable T → BasicObservable T) : Prop :=
  ∀ o, _subscribers (g o) = _subscribers o ∧ _replaced (g o) = _replaced o.

Definition hushed (inv : nat → Subscriber T → T → option T → world T → option (world T)) : Prop :=
  ∀ c' s nv ov w w',
    (c' = c → spared s) → silent w → inv c' s nv ov w = Some w' → silent w' ∧ quiet w w'.

Lemma quiet_refl w : quiet w w.
Proof. exists []. by rewrite app_nil_r. Qed.

Lemma quiet_trans w1 w2 w3 : quiet w1 w2 → quiet w2 w3 → quiet w1 w3.
Proof.
  intros (l1 & H1 & F1) (l2 & H2 & F2). exists (l1 ++ l2).
  rewrite H2, H1, app_assoc. split; [done|by apply Forall_app].
Qed.

Lemma quiet_calls w w' : calls w' = calls w → quiet w w'.
Proof. intros Hw. exists []. by rewrite app_nil_r. Qed.

Lemma array_of_keeps g o a : keeps g → array_of (g o) a = array_of o a.
Proof. intros Hg. unfold array_of. by destruct (Hg o) as [-> ->]. Qed.

Lemma silent_fields w w' :
  cells w' = cells w → microtasks w' = microtasks w → next_closure w' = next_closure w →
  silent w → silent w'.
Proof. unfold silent. by intros -> -> ->. Qed.

Lemma silent_cells w w' :
  silent w → cells w !! c = cells w' !! c → length (cells w) ≤ length (cells w') →
  microtasks w' = microtasks w → next_closure w ≤ next_closure w' → silent w'.
Proof.
  intros (HA & HL & HF & HC) Hc Hlen Hq Hn. unfold silent.
  rewrite <-Hc, Hq. split; [done|]. split; [done|]. split; [|lia].
  intros j Hj. specialize (HF j Hj). lia.
Qed.

Lemma silent_cell c' g w :
  (c' = c → ∀ o, cells w !! c = Some o →
     a0 ≤ length (_replaced o) → (∀ a, a0 ≤ a → Forall spared (array_of o a)) →
     a0 ≤ length (_replaced (g o)) ∧ ∀ a, a0 ≤ a → Forall spared (array_of (g o) a)) →
  silent w → silent (modify c' g w).
Proof.
  intros Hg (HA & HL & HF & HC).
  split; [|split; [done|split; [done|by unfold modify; simpl; rewrite length_alter]]].
  intros o Ho. destruct (decide (c' = c)) as [->|Hne].
  - rewrite lookup_modify in Ho. destruct (cells w !! c) as [o1|] eqn:Ho1; simplify_eq/=.
    destruct (HA _ eq_refl) as [Hlen Harr]. by apply Hg.
  - rewrite lookup_modify_ne in Ho by done. auto.
Qed.

Lemma silent_modify c' g w : keeps g → silent w → silent (modify c' g w).
Proof.
  intros Hg. apply silent_cell. intros _ o _ Hlen Harr. destruct (Hg o) as [Hs Hr].
  rewrite Hr. split; [done|]. intros a Ha. rewrite array_of_keeps by done. auto.
Qed.

Lemma silent_enqueue k w :
  (k_this k = c → a0 ≤ k_array k) → silent w →
  silent (with_microtasks (microtasks w ++ [k]) w).
Proof.
  intros Hk (HA & HL & HF & HC). split; [done|split; [|done]].
  simpl. intros k' [Hin|Hin%list_elem_of_singleton]%elem_of_app; [auto|by subst].
Qed.

Lemma silent_dequeue k q w :
  microtasks w = k :: q → silent w →
  silent (with_microtasks q w) ∧ (k_this k = c → a0 ≤ k_array k).
Proof.
  intros Hq (HA & HL & HF & HC). rewrite Hq in HL. split.
  - split; [done|split; [|done]]. simpl. intros k' Hin. apply HL. by right.
  - apply HL. by left.
Qed.

Lemma silent_push c' s w :
  (c' = c → spared s) → silent w → silent (modify c' (push_subscriber s) w).
Proof.
  intros Hs. apply silent_cell. intros Heq o _ Hlen Harr. split; [done|].
  intros a Ha. specialize (Harr a Ha). unfold array_of in *. simpl.
  case_decide; [|done]. apply Forall_app. split; [done|]. repeat constructor. auto.
Qed.

Lemma silent_assign c' A w :
  (c' = c → Forall spared A) → silent w → silent (modify c' (assign_subscribers A) w).
Proof.
  intros Hs. apply silent_cell. intros Heq o1 _ Hlen Harr.
  simpl. rewrite length_app. simpl. split; [lia|].
  intros a Ha. unfold array_of. simpl. rewrite length_app. simpl.
  case_decide; [auto|].
  destruct (decide (a < length (_replaced o1))) as [Hlt|Hge].
  - rewrite lookup_app_l by done. specialize (Harr a Ha). unfold array_of in Harr.
    by rewrite decide_False in Harr by lia.
  - destruct (decide (a = length (_replaced o1))) as [->|Hne].
    + rewrite lookup_app_r, Nat.sub_diag by done. simpl.
      specialize (Harr _ Ha). unfold array_of in Harr.
      by rewrite decide_True in Harr.
    + rewrite lookup_ge_None_2; [by constructor|]. rewrite length_app. simpl. lia.
Qed.

Section WithInvoke.

Variable inv : nat → Subscriber T → T → option T → world T → option (world T).
Hypothesis inv_hushed : hushed inv.

Lemma iterate_silent k w w' :
  (k_this k = c → a0 ≤ k_array k) → silent w →
  iterate inv k w = Some w' → silent w' ∧ quiet w w'.
Proof.
  unfold iterate. intros Hk Hw Hi.
  destruct (cells w !! k_this k) as [this|] eqn:Hc; simplify_eq/=.
  destruct (array_of this (k_array k) !! k_index k) as [s|] eqn:Hs; simplify_eq/=.
  - destruct (inv _ _ _ _ w) as [w1|] eqn:Hi1; simplify_eq/=.
    assert (k_this k = c → spared s) as Hsp.
    { intros Heq. destruct Hw as (HA & _). rewrite Heq in Hc.
      destruct (HA _ Hc) as [_ Harr].
      eapply Forall_lookup_1; [apply (Harr _ (Hk Heq))|done]. }
    destruct (inv_hushed _ _ _ _ _ _ Hsp Hw Hi1) as [Hw1 Hq].
    split; [by apply silent_enqueue|].
    eapply quiet_trans; [done|by apply quiet_calls].
  - split; [by apply silent_modify|by apply quiet_calls].
Qed.

Lemma for_of_silent c' nv ov w w' :
  silent w → for_of inv c' nv ov w = Some w' → silent w' ∧ quiet w w'.
Proof.
  unfold for_of. intros Hw Hf.
  destruct (cells w !! c') as [this|] eqn:Hc; simplify_eq/=.
  eapply iterate_silent; [|done|done]. simpl. intros ->.
  destruct Hw as (HA & _). by destruct (HA _ Hc).
Qed.

Lemma throttle_gate_silent c' this w w' :
  silent w → throttle_gate c' this w = Some w' → silent w' ∧ quiet w w'.
Proof.
  unfold throttle_gate. intros Hw Hg.
  destruct (truthy _); [|simplify_eq; split; [done|apply quiet_refl]].
  destruct (_throttleTimeout this); simplify_eq/=.
  split; [|by apply quiet_calls].
  apply silent_modify; [done|]. by eapply silent_fields.
Qed.

Lemma _notify_silent c' nv ov w w' :
  silent w → _notify inv c' nv ov w = Some w' → silent w' ∧ quiet w w'.
Proof.
  unfold _notify. intros Hw Hn.
  destruct (cells w !! c') as [this|]; simplify_eq/=.
  repeat case_decide; simplify_eq; try (split; [done|apply quiet_refl]).
  destruct (throttle_gate c' this w) as [w1|] eqn:Hg;
    [|simplify_eq; split; [done|apply quiet_refl]].
  destruct (throttle_gate_silent _ _ _ _ Hw Hg) as [Hw1 Hq1].
  destruct (truthy (debounce _)).
  - destruct (_debounceTimeout this); simplify_eq/=;
      (split; [|eapply quiet_trans; [done|by apply quiet_calls]]);
      (apply silent_modify; [done|]); by eapply silent_fields; [..|exact Hw1].
  - destruct (for_of_silent _ _ _ _ _ Hw1 Hn) as [Hw2 Hq2].
    split; [done|by eapply quiet_trans].
Qed.

Lemma set_with_silent c' v w r w' :
  silent w → set_with inv c' v w = Some (r, w') → silent w' ∧ quiet w w'.
Proof.
  unfold set_with. intros Hw Hs.
  destruct (cells w !! c') as [this|] eqn:Hc; simplify_eq/=.
  destruct (_checkForSealedMutationError this); simplify_eq/=;
    [split; [done|apply quiet_refl]|].
  destruct (_notify _ _ _ _ _) as [w2|] eqn:Hn; simplify_eq/=.
  eapply _notify_silent in Hn as [Hw2 Hq2]; [|by apply silent_modify].
  split; [done|]. eapply quiet_trans; [|done]. by apply quiet_calls.
Qed.

Lemma run_timer_silent cb w w' :
  silent w → run_timer inv cb w = Some w' → silent w' ∧ quiet w w'.
Proof.
  destruct cb as [c'|c' nv ov]; simpl; intros Hw Hr.
  - destruct (cells w !! c') as [this|]; simplify_eq/=.
    split; [|destruct (_throttleTimeout this); by apply quiet_calls].
    apply silent_modify; [done|].
    destruct (_throttleTimeout this); [by eapply silent_fields|done].
  - by eapply for_of_silent.
Qed.

End WithInvoke.

Lemma invoke_hushed fuel : hushed (invoke fuel).
Proof.
  induction fuel as [|fuel IH]; intros c' s nv ov w w' Hs Hw; destruct s as [n|k t ds f];
    simpl; intros Hi; simplify_eq.
  - split; [by eapply silent_fields|].
    exists [(c', user_fn n, nv, ov)]. split; [done|]. repeat constructor. simpl.
    intros [= -> <-]. by apply Hs.
  - split; [by eapply silent_fields|].
    exists [(c', user_fn n, nv, ov)]. split; [done|]. repeat constructor. simpl.
    intros [= -> <-]. by apply Hs.
  - destruct (values_of ds _) as [args|]; simplify_eq/=.
    destruct (set_with _ _ _ _) as [[r w2]|] eqn:Hset; simplify_eq/=.
    eapply set_with_silent in Hset as [Hw2 Hq2]; [|done|by eapply silent_fields].
    split; [done|]. eapply quiet_trans; [|done].
    exists [(c', bind_fn k, nv, ov)]. split; [done|]. repeat constructor. simpl.
    intros [= -> <-]. by apply Hs.
Qed.

Lemma set_silent fuel c' v w r w' :
  silent w → set fuel c' v w = Some (r, w') → silent w' ∧ quiet w w'.
Proof. apply set_with_silent, invoke_hushed. Qed.

Lemma drain_turns_silent n fuel w w' :
  silent w → drain_turns n fuel w = Some w' → silent w' ∧ quiet w w'.
Proof.
  revert w. induction n as [|n IH]; intros w Hw; simpl;
    destruct (microtasks w) as [|k queue] eqn:Hq; intros Hd; simplify_eq;
    try (split; [done|apply quiet_refl]).
  destruct (iterate _ _ _) as [w1|] eqn:Hi; simplify_eq/=.
  destruct (silent_dequeue _ _ _ Hq Hw) as [Hw0 Hk].
  eapply iterate_silent in Hi as [Hw1 Hq1]; [|apply invoke_hushed|done|done].
  destruct (IH _ Hw1 Hd) as [Hw2 Hq2]. split; [done|].
  eapply quiet_trans; [|done]. eapply quiet_trans; [|done]. by apply quiet_calls.
Qed.

Lemma drain_silent fuel w w' :
  silent w → drain fuel w = Some w' → silent w' ∧ quiet w w'.
Proof. apply drain_turns_silent. Qed.

Lemma fire_silent fuel ids w w' :
  silent w → fire fuel ids w = Some w' → silent w' ∧ quiet w w'.
Proof.
  revert w. induction ids as [|id ids IH]; intros w Hw; simpl; intros Hf; simplify_eq;
    [split; [done|apply quiet_refl]|].
  destruct (pending id w); [|by apply IH].
  destruct (run_timer _ _ _) as [w1|] eqn:Hr; simplify_eq/=.
  destruct (drain fuel w1) as [w2|] eqn:Hd; simplify_eq/=.
  eapply run_timer_silent in Hr as [Hw1 Hq1];
    [|apply invoke_hushed|by eapply silent_fields; [..|exact Hw]].
  destruct (drain_silent _ _ _ Hw1 Hd) as [Hw2 Hq2].
  destruct (IH _ Hw2 Hf) as [Hw3 Hq3]. split; [done|].
  eapply quiet_trans; [|done]. eapply quiet_trans; [|done].
  eapply quiet_trans; [|done]. by apply quiet_calls.
Qed.

Lemma tick_silent fuel w w' :
  silent w → tick fuel w = Some w' → silent w' ∧ quiet w w'.
Proof.
  unfold tick. intros Hw Ht.
  destruct (drain fuel w) as [w0|] eqn:Hd; simplify_eq/=.
  destruct (drain_silent _ _ _ Hw Hd) as [Hw0 Hq0].
  eapply fire_silent in Ht as [Hw1 Hq1]; [|by eapply silent_fields; [..|exact Hw0]].
  split; [done|]. eapply quiet_trans; [done|].
  eapply quiet_trans; [|done]. by apply quiet_calls.
Qed.

Lemma advance_silent fuel ms w w' :
  silent w → advance fuel ms w = Some w' → silent w' ∧ quiet w w'.
Proof.
  revert w. induction ms as [|ms IH]; intros w Hw; simpl; intros Ha; simplify_eq;
    [split; [done|apply quiet_refl]|].
  destruct (tick fuel w) as [w1|] eqn:Ht; simplify_eq/=.
  destruct (tick_silent _ _ _ Hw Ht) as [Hw1 Hq1].
  destruct (IH _ Hw1 Ha) as [Hw2 Hq2]. split; [done|by eapply quiet_trans].
Qed.

Lemma subscribe_silent fuel c' s w h w' :
  (c' = c → spared s) → silent w →
  subscribe fuel c' s w = Some (h, w') → silent w' ∧ quiet w w'.
Proof.
  unfold subscribe. intros Hs Hw Hsub.
  destruct (cells w !! c') as [this|]; simplify_eq/=.
  destruct (invoke _ _ _ _ _ _) as [w2|] eqn:Hi; simplify_eq/=.
  eapply invoke_hushed in Hi as [Hw2 Hq2]; [|done|by apply silent_push].
  split; [done|]. eapply quiet_trans; [|done]. by apply quiet_calls.
Qed.

Lemma unsubscribe_silent h w w' :
  silent w → unsubscribe h w = Some w' → silent w' ∧ quiet w w'.
Proof.
  unfold unsubscribe. intros Hw Hu.
  destruct (cells w !! h.1) as [this|] eqn:Hc; simplify_eq/=.
  split; [|by apply quiet_calls].
  apply silent_assign; [|done]. intros Heq. rewrite Heq in Hc.
  destruct Hw as (HA & _). destruct (HA _ Hc) as [Hlen Harr].
  specialize (Harr _ Hlen). unfold array_of in Harr. rewrite decide_True in Harr by done.
  apply Forall_forall. intros x [_ Hx]%list_elem_of_filter.
  by eapply Forall_forall in Harr.
Qed.

Lemma bind_loop_silent fuel t ds f rest w us w' :
  silent w → bind_loop fuel t ds f rest w = Some (us, w') → silent w' ∧ quiet w w'.
Proof.
  revert w us. induction rest as [|d rest IH]; intros w us Hw; simpl; intros Hb;
    simplify_eq; [split; [done|apply quiet_refl]|].
  destruct (subscribe _ _ _ _) as [[h w1]|] eqn:Hs; simplify_eq/=.
  destruct (bind_loop _ _ _ _ _ _) as [[us' w2]|] eqn:Hl; simplify_eq/=.
  eapply subscribe_silent in Hs as [Hw1 Hq1].
  - destruct (IH _ _ Hw1 Hl) as [Hw2 Hq2]. split; [done|].
    eapply quiet_trans; [|done]. eapply quiet_trans; [|done]. by apply quiet_calls.
  - intros _ Heq. destruct Hw as (_ & _ & HF & _). simpl in Heq.
    specialize (HF _ (eq_sym Heq)). lia.
  - eapply silent_cells; [exact Hw|done..|simpl; lia].
Qed.

Lemma bind_silent fuel t ds f w us w' :
  silent w → bind fuel t ds f w = Some (us, w') → silent w' ∧ quiet w w'.
Proof.
  unfold bind. intros Hw Hb.
  destruct (bind_loop _ _ _ _ _ _) as [[us' w1]|] eqn:Hl; simplify_eq/=.
  destruct (values_of ds w1) as [args|]; simplify_eq/=.
  destruct (set _ _ _ _) as [[r w2]|] eqn:Hs; simplify_eq/=.
  destruct (bind_loop_silent _ _ _ _ _ _ _ _ Hw Hl) as [Hw1 Hq1].
  destruct (set_silent _ _ _ _ _ _ Hw1 Hs) as [Hw2 Hq2].
  split; [done|by eapply quiet_trans].
Qed.

Lemma unbind_silent us w w' :
  silent w → unbind us w = Some w' → silent w' ∧ quiet w w'.
Proof.
  revert w. induction us as [|u us IH]; intros w Hw; simpl; intros Hu; simplify_eq;
    [split; [done|apply quiet_refl]|].
  destruct (unsubscribe u w) as [w1|] eqn:Hw1; simplify_eq/=.
  destruct (unsubscribe_silent _ _ _ Hw Hw1) as [Hs1 Hq1].
  destruct (IH _ Hs1 Hu) as [Hs2 Hq2]. split; [done|by eapply quiet_trans].
Qed.

Lemma seal_silent c' w r w' :
  silent w → seal c' w = Some (r, w') → silent w' ∧ quiet w w'.
Proof.
  unfold seal. intros Hw Hs. destruct (cells w !! c') as [this|]; simplify_eq/=.
  split; [|by apply quiet_calls].
  change (silent (modify c' (with_state sealed ∘ assign_subscribers []) w)).
  rewrite <-modify_modify.
  apply silent_modify; [done|]. apply silent_assign; [|done]. by constructor.
Qed.

Lemma mute_silent c' w r w' :
  silent w → mute c' w = Some (r, w') → silent w' ∧ quiet w w'.
Proof.
  unfold mute. intros Hw Hs. destruct (cells w !! c') as [this|]; simplify_eq/=.
  destruct (_checkForSealedMutationError this); simplify_eq;
    (split; [|by apply quiet_calls]); [done|by apply silent_modify].
Qed.

Lemma unmute_silent c' w r w' :
  silent w → unmute c' w = Some (r, w') → silent w' ∧ quiet w w'.
Proof.
  unfold unmute. intros Hw Hs. destruct (cells w !! c') as [this|]; simplify_eq/=.
  destruct (_checkForSealedMutationError this); simplify_eq;
    (split; [|by apply quiet_calls]); [done|by apply silent_modify].
Qed.

Lemma create_silent v options w : silent w → silent (create v options w).2.
Proof.
  intros Hw. eapply silent_cells; [exact Hw| |simpl..]; try done.
  - simpl. destruct Hw as (_ & _ & _ & HC). by rewrite lookup_app_l.
  - rewrite length_app. lia.
Qed.

Lemma step_silent fuel e w w' :
  allowed e → silent w → step fuel e w = Some w' → silent w' ∧ quiet w w'.
Proof.
  destruct e; simpl; intros He Hw Hs.
  - simplify_eq. split; [by apply create_silent|by apply quiet_calls].
  - destruct (subscribe _ _ _ _) as [[??]|] eqn:Hsub; simplify_eq/=.
    eapply subscribe_silent; [|done..]. intros -> Hfn. by apply He.
  - by eapply unsubscribe_silent.
  - destruct (set _ _ _ _) as [[??]|] eqn:?; simplify_eq/=. by eapply set_silent.
  - unfold update in Hs. destruct (get _ w); simplify_eq/=.
    destruct (set _ _ _ _) as [[??]|] eqn:?; simplify_eq/=. by eapply set_silent.
  - destruct (bind _ _ _ _ _) as [[??]|] eqn:?; simplify_eq/=. by eapply bind_silent.
  - by eapply unbind_silent.
  - destruct (seal _ _) as [[??]|] eqn:?; simplify_eq/=. by eapply seal_silent.
  - destruct (mute _ _) as [[??]|] eqn:?; simplify_eq/=. by eapply mute_silent.
  - destruct (unmute _ _) as [[??]|] eqn:?; simplify_eq/=. by eapply unmute_silent.
  - by eapply drain_silent.
  - by eapply advance_silent.
Qed.

Lemma run_silent fuel es w w' :
  Forall allowed es → silent w → run fuel es w = Some w' → silent w' ∧ quiet w w'.
Proof.
  revert w. induction es as [|e es IH]; intros w He Hw; simpl; intros Hr; simplify_eq;
    [split; [done|apply quiet_refl]|].
  apply Forall_cons in He as [He Hes].
  destruct (step fuel e w) as [w1|] eqn:Hs; simplify_eq/=.
  destruct (step_silent _ _ _ _ He Hw Hs) as [Hw1 Hq1].
  destruct (IH _ Hes Hw1 Hr) as [Hw2 Hq2]. split; [done|by eapply quiet_trans].
Qed.

End Silence.

(** ** Derived binding

    [bind] registers on every source a callback that sets the target to
    [compute] over the values of the sources. *)

Section Binding.

Context {T : Type} `{EqDecision T}.

Implicit Types (w : world T) (o this : BasicObservable T) (k : continuation T).

Variables (t : nat) (ds : list nat) (f : list T → T).

(** A callback that [bind] made for this binding. *)
Definition closure_of (s : Subscriber T) : Prop := ∃ j, s = Recompute j t ds f.

(** The subscribers that a source of the binding holds: plain functions and
    callbacks of the binding. *)
Definition feeds (s : Subscriber T) : Prop := is_listener s ∨ closure_of s.

(** [set] on an unsealed target whose subscribers are plain functions: the
    value is assigned, and at most one loop of the target is left suspended. *)
Lemma target_set fuel x w ot :
  cells w !! t = Some ot → _state ot ≠ sealed → Forall is_listener (_subscribers ot) →
  ∃ ot' extra w', set_with (invoke fuel) t x w = Some (Fulfilled, w')
    ∧ cells w' = <[t:=ot']> (cells w)
    ∧ _value ot' = x ∧ _state ot' = _state ot
    ∧ _subscribers ot' = _subscribers ot ∧ _replaced ot' = _replaced ot
    ∧ microtasks w' = microtasks w ++ extra
    ∧ (extra = []
       ∨ extra = [mkContinuation t (length (_replaced ot)) 1 x (_value ot)]
         ∧ _subscribers ot ≠ [])
    ∧ next_closure w' = next_closure w.
Proof.
  intros Hc Hs HA. unfold set_with. rewrite Hc. simpl.
  rewrite check_not_sealed by done.
  unfold _notify. rewrite lookup_modify, Hc. simpl.
  destruct (decide (_state ot = muted)) as [Hm|Hm].
  { eexists _, [], _. split; [done|]. unfold modify. simpl.
    rewrite (list_alter_insert _ _ _ _ Hc). rewrite app_nil_r. repeat split; try done. by left. }
  destruct (decide (x = _value ot)) as [Hx|Hx].
  { eexists _, [], _. split; [done|]. unfold modify. simpl.
    rewrite (list_alter_insert _ _ _ _ Hc). rewrite app_nil_r. repeat split; try done. by left. }
  unfold throttle_gate. simpl.
  destruct (truthy (throttle (_options ot))) as [th|];
    [destruct (_throttleTimeout ot) as [id|]|].
  - eexists _, [], _. split; [done|]. unfold modify. simpl.
    rewrite (list_alter_insert _ _ _ _ Hc). rewrite app_nil_r. repeat split; try done. by left.
  - simpl. destruct (truthy (debounce (_options ot))) as [d|].
    + destruct (_debounceTimeout ot); simpl;
        (eexists _, [], _; split; [done|]); unfold modify; simpl;
        rewrite (list_alter_insert _ _ _ _ Hc), !(list_alter_insert_eq _ _ _ _ _ Hc), app_nil_r;
        repeat split; try done; by left.
    + unfold for_of, iterate. simpl. unfold modify. simpl.
      rewrite (list_alter_insert _ _ _ _ Hc), !(list_alter_insert_eq _ _ _ _ _ Hc).
      rewrite !list_lookup_insert_eq by (by eapply lookup_lt_Some). simpl.
      unfold array_of. simpl. rewrite decide_True by done.
      destruct (_subscribers ot) as [|s A] eqn:HS; simpl.
      * eexists _, [], _. split; [done|]. simpl.
        rewrite ?(list_alter_insert_eq _ _ _ _ _ Hc), app_nil_r.
        repeat split; try done. by left.
      * apply Forall_cons in HA as [Hl _]. destruct s as [n|]; [|done].
        rewrite invoke_listener. simpl.
        eexists _, _, _. split; [done|]. simpl.
        repeat split; try done. by right.
  - simpl. destruct (truthy (debounce (_options ot))) as [d|].
    + destruct (_debounceTimeout ot); simpl;
        (eexists _, [], _; split; [done|]); unfold modify; simpl;
        rewrite (list_alter_insert _ _ _ _ Hc), !(list_alter_insert_eq _ _ _ _ _ Hc), app_nil_r;
        repeat split; try done; by left.
    + unfold for_of, iterate. simpl. unfold modify. simpl.
      rewrite (list_alter_insert _ _ _ _ Hc).
      rewrite !list_lookup_insert_eq by (by eapply lookup_lt_Some). simpl.
      unfold array_of. simpl. rewrite decide_True by done.
      destruct (_subscribers ot) as [|s A] eqn:HS; simpl.
      * eexists _, [], _. split; [done|]. simpl.
        rewrite ?(list_alter_insert_eq _ _ _ _ _ Hc), app_nil_r.
        repeat split; try done. by left.
      * apply Forall_cons in HA as [Hl _]. destruct s as [n|]; [|done].
        rewrite invoke_listener. simpl.
        eexists _, _, _. split; [done|]. simpl.
        repeat split; try done. by right.
Qed.

Lemma values_of_cells (w w' : world T) :
  Forall (λ d, _value <$> cells w' !! d = _value <$> cells w !! d) ds →
  values_of ds w' = values_of ds w.
Proof. intros Hd. unfold values_of. apply Forall_mapM_ext. exact Hd. Qed.

(** *** One notification of a source

    While a notification of the source [d] runs, the target keeps its state
    and its subscribers [At], the source its subscribers [Ad] and its value;
    every turn of the microtask queue lowers the [load] of the queue, so that
    the queue drains, and once a closure of the binding has been called the
    target holds [compute] over the sources' values. *)

Section Recomputation.

Variables (d : nat) (At Ad : list (Subscriber T)) (gt gd : nat) (vals : list T) (vd : T).
Hypothesis Htd : t ≠ d.
Hypothesis Ht : t ∉ ds.
Hypothesis HAt : Forall is_listener At.
Hypothesis HAd : Forall feeds Ad.

(** The target and the source as they stay while a notification of the
    source runs. *)
Definition tuned (cs : list (BasicObservable T)) : Prop :=
  (∃ ot, cs !! t = Some ot ∧ _state ot ≠ sealed ∧ _subscribers ot = At
         ∧ length (_replaced ot) = gt)
  ∧ (∃ od, cs !! d = Some od ∧ _subscribers od = Ad ∧ length (_replaced od) = gd
           ∧ _value od = vd)
  ∧ mapM (λ d', _value <$> cs !! d') ds = Some vals.

(** The loops that are suspended meanwhile: of the target or of the source,
    on their current arrays. *)
Definition loop k : Prop :=
  (k_this k = t ∧ k_array k = gt) ∨ (k_this k = d ∧ k_array k = gd).

(** A bound on the turns that the loop [k] still causes. *)
Definition weight k : nat :=
  if decide (k_this k = d) then (length Ad - k_index k) * (length At + 2) + 1
  else length At - k_index k + 1.

Definition load (q : list (continuation T)) : nat := sum_list (weight <$> q).

Definition settled w : Prop := get t w = Some (f vals).

(** The loop [k] of the source has yet to call a closure of the binding. *)
Definition due_closure k : Prop :=
  k_this k = d ∧ ∃ j s, k_index k ≤ j ∧ Ad !! j = Some s ∧ closure_of s.

Lemma load_app q1 q2 : load (q1 ++ q2) = load q1 + load q2.
Proof.
  unfold load. rewrite fmap_app. generalize (weight <$> q1) as l.
  induction l as [|x l IH]; simpl; [done|]. rewrite IH. lia.
Qed.

Lemma tuned_insert_t cs ot ot' :
  tuned cs → cs !! t = Some ot →
  _state ot' = _state ot → _subscribers ot' = _subscribers ot →
  _replaced ot' = _replaced ot →
  tuned (<[t:=ot']> cs).
Proof.
  intros ((o & Ho & Hs & HA & Hg) & (od & Hod & Hd) & Hv) Hc Hs' HA' Hr'.
  rewrite Hc in Ho. injection Ho as <-.
  assert (t < length cs) by (by eapply lookup_lt_Some).
  split; [|split].
  - exists ot'. rewrite list_lookup_insert_eq by done. rewrite Hs', HA', Hr'. done.
  - exists od. by rewrite list_lookup_insert_ne.
  - rewrite <-Hv. apply Forall_mapM_ext, Forall_forall. intros d' Hd'.
    rewrite list_lookup_insert_ne; [done|]. by intros ->.
Qed.

Lemma tuned_insert_d cs od od' :
  tuned cs → cs !! d = Some od →
  _subscribers od' = _subscribers od → _replaced od' = _replaced od →
  _value od' = _value od →
  tuned (<[d:=od']> cs).
Proof.
  intros ((o & Ho & Hs) & (od0 & Hod & HA & Hg & Hvd) & Hv) Hc HA' Hr' Hv'.
  rewrite Hc in Hod. injection Hod as <-.
  assert (d < length cs) by (by eapply lookup_lt_Some).
  split; [|split].
  - exists o. by rewrite list_lookup_insert_ne.
  - exists od'. rewrite list_lookup_insert_eq by done. rewrite HA', Hr', Hv'. done.
  - rewrite <-Hv. apply Forall_mapM_ext, Forall_forall. intros d' Hd'.
    destruct (decide (d = d')) as [<-|Hne].
    + rewrite list_lookup_insert_eq by done. rewrite Hc. simpl. by rewrite Hv'.
    + by rewrite list_lookup_insert_ne.
Qed.

(** A call of the closure sets the target. *)
Lemma closure_turn fuel j nv ov w :
  tuned (cells w) → 0 < fuel →
  ∃ w' extra, invoke fuel d (Recompute j t ds f) nv ov w = Some w'
    ∧ tuned (cells w') ∧ settled w'
    ∧ microtasks w' = microtasks w ++ extra
    ∧ Forall loop extra ∧ load extra ≤ length At.
Proof.
  intros Hw Hf. destruct fuel as [|fuel]; [lia|]. simpl.
  pose proof Hw as ((ot & Ho & Hs & HA & Hg) & _ & Hv).
  unfold values_of. simpl. rewrite Hv. simpl.
  destruct (target_set fuel (f vals) (with_calls (calls w ++ [(d, bind_fn j, nv, ov)]) w) ot)
    as (ot' & extra & w' & Hset & Hcells & Hval & Hst & Hsub & Hrep & Hq & Hex & _);
    [done|done|by rewrite HA|].
  rewrite Hset. simpl. exists w', extra. split; [done|].
  split; [rewrite Hcells; by eapply tuned_insert_t|].
  split; [unfold settled, get; rewrite Hcells, list_lookup_insert_eq
            by (by eapply lookup_lt_Some); simpl; by rewrite Hval|].
  split; [done|].
  destruct Hex as [->|[-> Hne]]; [split; [constructor|unfold load; simpl; lia]|].
  split.
  - apply Forall_singleton. left. simpl. by rewrite Hg.
  - unfold load, weight. simpl. rewrite decide_False by done.
    rewrite HA in Hne. destruct At; [done|]. simpl. lia.
Qed.

Lemma turn fuel k w :
  tuned (cells w) → loop k → 0 < fuel →
  ∃ w' extra, iterate (invoke fuel) k w = Some w'
    ∧ tuned (cells w')
    ∧ (settled w → settled w')
    ∧ microtasks w' = microtasks w ++ extra
    ∧ Forall loop extra
    ∧ load extra + 1 ≤ weight k
    ∧ (due_closure k → settled w' ∨ Exists due_closure extra).
Proof.
  intros Hw Hk Hf. unfold iterate.
  pose proof Hw as ((ot & Ho & Hs & HA & Hg) & (od & Hod & HAd' & Hgd & Hvd) & Hv).
  destruct Hk as [[Hkt Hka]|[Hkd Hka]].
  - (* a loop of the target *)
    rewrite Hkt, Ho. simpl. unfold array_of. rewrite Hka, decide_True by done. rewrite HA.
    destruct (At !! k_index k) as [s|] eqn:Hs'.
    + assert (is_listener s) as Hl by (eapply Forall_lookup_1; eauto).
      destruct s as [n|]; [|done]. rewrite invoke_listener. simpl.
      eexists _, [next_turn k]. split; [done|]. simpl. split; [done|].
      split; [done|]. split; [done|].
      split; [apply Forall_singleton; left; by simpl|].
      apply lookup_lt_Some in Hs'.
      split; [unfold load, weight; simpl; rewrite !decide_False by (rewrite Hkt; done); lia|].
      intros [Hkd _]. congruence.
    + eexists _, []. split; [done|]. rewrite (modify_lookup _ _ _ _ Ho). simpl.
      split; [by eapply tuned_insert_t|].
      split; [unfold settled, get; simpl; rewrite Ho;
              rewrite list_lookup_insert_eq by (by eapply lookup_lt_Some); done|].
      rewrite app_nil_r. split; [done|]. split; [constructor|].
      split; [unfold load, weight; simpl; rewrite decide_False by (rewrite Hkt; done); lia|].
      intros [Hkd _]. congruence.
  - (* the loop of the source *)
    rewrite Hkd, Hod. simpl. unfold array_of. rewrite Hka, decide_True by done. rewrite HAd'.
    destruct (Ad !! k_index k) as [s|] eqn:Hs'.
    + apply lookup_lt_Some in Hs' as Hlt.
      assert (feeds s) as [Hl|[j ->]] by (eapply Forall_lookup_1; eauto).
      * destruct s as [n|]; [|done]. rewrite invoke_listener. simpl.
        eexists _, [next_turn k]. split; [done|]. simpl. split; [done|].
        split; [done|]. split; [done|].
        split; [apply Forall_singleton; right; by simpl|].
        split; [unfold load, weight; simpl; rewrite !decide_True by done; nia|].
        intros (_ & j & s & Hj & Hjs & [j' ->]). right. constructor.
        split; [done|]. exists j, (Recompute j' t ds f). simpl.
        split; [|split; [done|by exists j']].
        destruct (decide (j = k_index k)) as [->|]; [congruence|lia].
      * destruct (closure_turn fuel j (k_newValue k) (Some (k_oldValue k)) w Hw Hf)
          as (w1 & extra & Hi & Hw1 & Hset & Hq & Hloop & Hload).
        rewrite Hi. simpl.
        eexists _, (extra ++ [next_turn k]). split; [done|]. simpl.
        split; [done|]. split; [done|].
        split; [by rewrite Hq, app_assoc|].
        split; [apply Forall_app; split; [done|apply Forall_singleton; right; by simpl]|].
        split; [rewrite load_app; unfold load at 2, weight; simpl;
                rewrite !decide_True by done; nia|].
        intros _. by left.
    + apply lookup_ge_None in Hs'.
      eexists _, []. split; [done|]. rewrite (modify_lookup _ _ _ _ Hod). simpl.
      split; [by eapply tuned_insert_d|].
      split; [unfold settled, get; simpl;
              rewrite list_lookup_insert_ne by (by intros ->); done|].
      rewrite app_nil_r. split; [done|]. split; [constructor|].
      split; [unfold load, weight; simpl; case_decide; lia|].
      intros (_ & j & s & Hj & Hjs%lookup_lt_Some & _). lia.
Qed.

Lemma drain_tuned fuel n w :
  tuned (cells w) → Forall loop (microtasks w) → load (microtasks w) ≤ n → 0 < fuel →
  settled w ∨ Exists due_closure (microtasks w) →
  ∃ w', drain_turns n fuel w = Some w' ∧ tuned (cells w') ∧ microtasks w' = []
    ∧ settled w'.
Proof.
  revert w. induction n as [|n IH]; intros w Hw Hq Hn Hf Hp;
    destruct (microtasks w) as [|k q] eqn:Hm.
  - exists w. rewrite drain_turns_nil by done.
    destruct Hp as [?|Hp]; [done|by apply Exists_nil in Hp].
  - exfalso. unfold load in Hn. simpl in Hn. unfold weight in Hn at 1.
    case_decide; nia.
  - exists w. rewrite drain_turns_nil by done.
    destruct Hp as [?|Hp]; [done|by apply Exists_nil in Hp].
  - simpl. rewrite Hm. apply Forall_cons in Hq as [Hk Hq].
    destruct (turn fuel k (with_microtasks q w) Hw Hk Hf)
      as (w1 & extra & Hi & Hw1 & Hset & Hq1 & Hl1 & Hload & Hdue).
    rewrite Hi. simpl. simpl in Hq1.
    unfold load in Hn. simpl in Hn.
    change (sum_list (list_fmap _ _ weight q)) with (load q) in Hn.
    apply IH; try done.
    + rewrite Hq1. by apply Forall_app.
    + rewrite Hq1, load_app. lia.
    + destruct Hp as [Hp|Hp]; [left; by apply Hset|].
      apply Exists_cons in Hp as [Hp|Hp].
      * destruct (Hdue Hp) as [?|?]; [by left|right]. rewrite Hq1.
        apply Exists_app. by right.
      * right. rewrite Hq1. apply Exists_app. by left.
Qed.

End Recomputation.

(** When a source that feeds the binding changes, the target is set to
    [compute] over the values the sources have then. *)
Lemma source_loop fuel w d ot od nv ov vals' :
  t ∉ ds → d ∈ ds → values_of ds w = Some vals' →
  cells w !! t = Some ot → _state ot ≠ sealed → Forall is_listener (_subscribers ot) →
  cells w !! d = Some od →
  Forall feeds (_subscribers od) → Exists closure_of (_subscribers od) →
  microtasks w = [] →
  length (_subscribers od) * (length (_subscribers ot) + 2) ≤ fuel →
  ∃ w2 w3, for_of (invoke fuel) d nv ov w = Some w2 ∧ drain fuel w2 = Some w3
    ∧ get d w3 = Some (_value od)
    ∧ values_of ds w3 = Some vals'
    ∧ get t w3 = Some (f vals').
Proof.
  intros Ht Hd Hvals Hct Hst HAt Hcd HAd Hex Hq Hfuel.
  assert (t ≠ d) as Htd by (by intros ->).
  assert (tuned d (_subscribers ot) (_subscribers od) (length (_replaced ot))
            (length (_replaced od)) vals' (_value od) (cells w)) as Hw1.
  { split; [|split; [|done]]; [by exists ot|by exists od]. }
  assert (0 < fuel) as Hf.
  { apply Exists_exists in Hex as (s & Hs & _).
    destruct (_subscribers od); [by apply elem_of_nil in Hs|]. simpl in Hfuel. lia. }
  set (k0 := mkContinuation d (length (_replaced od)) 0 nv ov).
  destruct (turn d (_subscribers ot) (_subscribers od) (length (_replaced ot))
              (length (_replaced od)) vals' (_value od) Htd Ht HAt HAd fuel k0 w Hw1)
    as (w2 & extra & Hi & Hw2 & _ & Hq2 & Hl2 & Hload & Hdue); [by right|done|].
  rewrite Hq in Hq2. simpl in Hq2.
  destruct (drain_tuned d (_subscribers ot) (_subscribers od) (length (_replaced ot))
              (length (_replaced od)) vals' (_value od) Htd Ht HAt HAd fuel fuel w2)
    as (w3 & Hdrain & Hw3 & Hq3 & Hset3); try done.
  { by rewrite Hq2. }
  { rewrite Hq2. unfold weight in Hload. simpl in Hload.
    rewrite decide_True in Hload by done. lia. }
  { rewrite Hq2. apply Hdue. split; [done|].
    apply Exists_exists in Hex as (s & [j Hj]%list_elem_of_lookup & Hs).
    exists j, s. simpl. split; [lia|done]. }
  exists w2, w3. split; [by unfold for_of; rewrite Hcd|].
  split; [by unfold drain; rewrite Hdrain|].
  destruct Hw3 as (_ & (od3 & Hod3 & _ & _ & Hv3) & Hvals3).
  split; [unfold get; by rewrite Hod3; simpl; rewrite Hv3|]. done.
Qed.

(** The source has no throttle window open. *)
Definition throttle_open (o : BasicObservable T) : Prop :=
  truthy (throttle (_options o)) = None ∨ _throttleTimeout o = None.

(** A change of a source that notifies at once sets the target to [compute]
    over the values that the sources have then. *)
Lemma source_change fuel w d ot od v :
  t ∉ ds → d ∈ ds →
  is_Some (values_of ds w) →
  cells w !! t = Some ot → _state ot ≠ sealed → Forall is_listener (_subscribers ot) →
  cells w !! d = Some od → _state od = unsealed →
  throttle_open od → truthy (debounce (_options od)) = None →
  v ≠ _value od →
  Forall feeds (_subscribers od) → Exists closure_of (_subscribers od) →
  microtasks w = [] →
  length (_subscribers od) * (length (_subscribers ot) + 2) ≤ fuel →
  ∃ w' vals', run fuel [Set_ d v; EndOfTask] w = Some w'
    ∧ get d w' = Some v
    ∧ values_of ds w' = Some vals'
    ∧ get t w' = Some (f vals').
Proof.
  intros Ht Hd Hvals Hct Hst HAt Hcd Hsd Hth Hdb Hv HAd Hex Hq Hfuel.
  assert (t ≠ d) as Htd by (by intros ->).
  assert (d < length (cells w)) as Hlen by (by eapply lookup_lt_Some).
  assert (∀ od1 w1, cells w1 = <[d:=od1]> (cells w) → _value od1 = v →
            is_Some (values_of ds w1)) as Hvals1.
  { intros od1 w1 Hc1 Hv1. apply mapM_is_Some_2. apply mapM_is_Some_1 in Hvals.
    eapply Forall_impl; [exact Hvals|]. simpl. intros d' [x Hx]. rewrite Hc1.
    destruct (decide (d = d')) as [<-|Hne].
    - rewrite list_lookup_insert_eq by done. by eexists.
    - rewrite list_lookup_insert_ne by done. by eexists. }
  assert (∀ od1 w1, cells w1 = <[d:=od1]> (cells w) → _value od1 = v →
            _subscribers od1 = _subscribers od → microtasks w1 = [] →
            ∃ w2 w3 vals', for_of (invoke fuel) d v (_value od) w1 = Some w2
              ∧ drain fuel w2 = Some w3 ∧ get d w3 = Some v
              ∧ values_of ds w3 = Some vals' ∧ get t w3 = Some (f vals')) as Hloop.
  { intros od1 w1 Hc1 Hv1 HA1 Hq1. destruct (Hvals1 od1 w1 Hc1 Hv1) as [vals' Hvals'].
    destruct (source_loop fuel w1 d ot od1 v (_value od) vals')
      as (w2 & w3 & Hfor & Hdr & Hg & Hvs & Hgt); try done.
    - by rewrite Hc1, list_lookup_insert_ne.
    - by rewrite Hc1, list_lookup_insert_eq.
    - by rewrite HA1.
    - by rewrite HA1.
    - by rewrite HA1.
    - exists w2, w3, vals'. by rewrite Hv1 in Hg. }
  simpl. unfold set, set_with. rewrite Hcd. simpl.
  rewrite check_not_sealed by (by rewrite Hsd).
  unfold _notify. rewrite lookup_modify, Hcd. simpl.
  rewrite decide_False by (by rewrite Hsd). rewrite decide_False by done.
  unfold throttle_gate. simpl. rewrite Hdb.
  destruct (truthy (throttle (_options od))) as [th|] eqn:Hthr.
  - destruct Hth as [Hth|Hth]; [congruence|]. rewrite Hth. simpl.
    match goal with |- context [for_of _ d v (_value od) ?w1] =>
      destruct (Hloop (with_throttleTimeout (Some (next_timer w)) (with_value v od)) w1)
        as (w2 & w3 & vals' & Hfor & Hdr & Hg & Hvs & Hgt); try done
    end.
    { unfold modify. simpl. rewrite (list_alter_insert _ _ _ _ Hcd).
      by rewrite (list_alter_insert_eq _ _ _ _ _ Hcd). }
    rewrite Hfor. simpl. rewrite Hdr. simpl. by exists w3, vals'.
  - match goal with |- context [for_of _ d v (_value od) ?w1] =>
      destruct (Hloop (with_value v od) w1)
        as (w2 & w3 & vals' & Hfor & Hdr & Hg & Hvs & Hgt); try done
    end.
    { unfold modify. simpl. by rewrite (list_alter_insert _ _ _ _ Hcd). }
    rewrite Hfor. simpl. rewrite Hdr. simpl. by exists w3, vals'.
Qed.

(** A change of a debounced source sets the target when the timer runs, the
    delay after the call, nothing else being done meanwhile. *)
Lemma source_change_debounced fuel w d ot od v delay :
  t ∉ ds → d ∈ ds →
  is_Some (values_of ds w) →
  cells w !! t = Some ot → _state ot ≠ sealed → Forall is_listener (_subscribers ot) →
  cells w !! d = Some od → _state od = unsealed →
  truthy (throttle (_options od)) = None → truthy (debounce (_options od)) = Some delay →
  v ≠ _value od →
  Forall feeds (_subscribers od) → Exists closure_of (_subscribers od) →
  quiescent w →
  length (_subscribers od) * (length (_subscribers ot) + 2) ≤ fuel →
  ∃ w1 w' vals', run fuel [Set_ d v; EndOfTask] w = Some w1
    ∧ get d w1 = Some v
    ∧ get t w1 = get t w
    ∧ run fuel [Wait delay] w1 = Some w'
    ∧ get d w' = Some v
    ∧ values_of ds w' = Some vals'
    ∧ get t w' = Some (f vals').
Proof.
  intros Ht Hd Hvals Hct Hst HAt Hcd Hsd Hth Hdb Hv HAd Hex Hqu Hfuel.
  assert (t ≠ d) as Htd by (by intros ->).
  assert (d < length (cells w)) as Hlen by (by eapply lookup_lt_Some).
  pose proof (truthy_Some _ _ Hdb) as Hpos.
  set (od1 := with_debounceTimeout (Some (next_timer w)) (with_value v od)).
  set (tm := mkTimer (next_timer w) (clock w + delay) (debounce_elapsed d v (_value od))).
  set (w0 := mkWorld (<[d:=od1]> (cells w)) [] (S (next_timer w)) (next_closure w)
               (clock w + delay) [] (calls w)).
  assert (is_Some (values_of ds w0)) as [vals' Hvals'].
  { apply mapM_is_Some_2. apply mapM_is_Some_1 in Hvals.
    eapply Forall_impl; [exact Hvals|]. simpl. intros d' [x Hx].
    destruct (decide (d = d')) as [<-|Hne].
    - rewrite list_lookup_insert_eq by done. by eexists.
    - rewrite list_lookup_insert_ne by done. by eexists. }
  destruct (source_loop fuel w0 d ot od1 v (_value od) vals')
    as (w2 & w3 & Hfor & Hdr & Hg & Hvs & Hgt); try done.
  { simpl. by rewrite list_lookup_insert_ne. }
  { simpl. by rewrite list_lookup_insert_eq. }
  exists (debouncing d w od delay (next_timer w) (clock w) v (_value od)), w3, vals'.
  split; [by apply debouncing_first|].
  unfold get. simpl. rewrite list_lookup_insert_eq by done.
  rewrite list_lookup_insert_ne by done. split; [done|]. split; [done|].
  split; [|done].
  simpl. replace delay with ((delay - 1) + 1) at 1 by lia. rewrite advance_add.
  rewrite advance_idle; [|done|simpl; repeat constructor; simpl; lia].
  cbn [mbind option_bind advance]. 
  erewrite (tick_fires fuel _ tm w3); [done|done|done|simpl; lia|].
  simpl. replace (S (clock w + (delay - 1))) with (clock w + delay) by lia.
  fold od1 w0. rewrite Hfor. done.
Qed.

(** *** At bind time *)

(** The target is unsealed and its subscribers are the listeners [At]. *)
Definition target_ok (At : list (Subscriber T)) w : Prop :=
  ∃ ot, cells w !! t = Some ot ∧ _state ot ≠ sealed ∧ _subscribers ot = At.

Lemma subscribe_closure fuel j d w od ot vals :
  cells w !! d = Some od → d ≠ t →
  cells w !! t = Some ot → _state ot ≠ sealed → Forall is_listener (_subscribers ot) →
  t ∉ ds → values_of ds w = Some vals → 0 < fuel →
  ∃ w' ot', subscribe fuel d (Recompute j t ds f) w = Some ((d, Recompute j t ds f), w')
    ∧ cells w' = <[t:=ot']> (<[d:=push_subscriber (Recompute j t ds f) od]> (cells w))
    ∧ _value ot' = f vals ∧ _state ot' = _state ot ∧ _subscribers ot' = _subscribers ot
    ∧ next_closure w' = next_closure w.
Proof.
  intros Hd Hdt Ht Hs HA Hnt Hv Hf. unfold subscribe. rewrite Hd. simpl.
  destruct fuel as [|fuel]; [lia|]. simpl.
  rewrite (modify_lookup _ _ _ _ Hd). simpl.
  assert (d < length (cells w)) as Hlen by (by eapply lookup_lt_Some).
  match goal with |- context [values_of ds ?u] =>
    assert (values_of ds u = Some vals) as Hv' end.
  { rewrite <-Hv. apply values_of_cells, Forall_forall. intros d' Hd'. simpl.
    destruct (decide (d = d')) as [<-|Hne].
    - rewrite list_lookup_insert_eq by done. by rewrite Hd.
    - by rewrite list_lookup_insert_ne. }
  rewrite Hv'. simpl.
  match goal with |- context [set_with _ t _ ?u] =>
    destruct (target_set fuel (f vals) u ot)
      as (ot' & extra & w' & Hset & Hcells & Hval & Hst & Hsub & _ & _ & _ & Hn) end;
    [by simpl; rewrite list_lookup_insert_ne|done|done|].
  rewrite Hset. simpl. exists w', ot'. by repeat split.
Qed.

Lemma bind_loop_spec fuel At vals rest w :
  Forall is_listener At → t ∉ ds → t ∉ rest →
  target_ok At w → values_of ds w = Some vals →
  Forall (λ d, is_Some (cells w !! d)) rest → 0 < fuel →
  ∃ us w1, bind_loop fuel t ds f rest w = Some (us, w1)
    ∧ target_ok At w1
    ∧ values_of ds w1 = Some vals
    ∧ length (cells w1) = length (cells w)
    ∧ next_closure w ≤ next_closure w1
    ∧ Forall2 (λ d h, h.1 = d ∧ ∃ j, h.2 = Recompute j t ds f
                               ∧ next_closure w ≤ j < next_closure w1) rest us
    ∧ (∀ c o, c ≠ t → cells w !! c = Some o →
         ∃ o1, cells w1 !! c = Some o1
           ∧ (Exists closure_of (_subscribers o) ∨ c ∈ rest →
              Exists closure_of (_subscribers o1))).
Proof.
  intros HAt Hnt. revert w. induction rest as [|d rest IH]; intros w Hr Ht Hv Hex Hf.
  - exists [], w. simpl. split; [done|]. split; [done|]. split; [done|].
    split; [done|]. split; [done|]. split; [constructor|].
    intros c o _ Hc. exists o. split; [done|]. intros [?|Hin]; [done|].
    by apply elem_of_nil in Hin.
  - apply not_elem_of_cons in Hr as [Hdt Hr]. apply Forall_cons in Hex as [[od Hd] Hex].
    destruct Ht as (ot & Hct & Hst & HA). simpl.
    set (w0 := mkWorld (cells w) (timers w) (next_timer w) (S (next_closure w))
                 (clock w) (microtasks w) (calls w)).
    destruct (subscribe_closure fuel (next_closure w) d w0 od ot vals)
      as (w1 & ot1 & Hsub & Hcells & Hval & Hst1 & HA1 & Hn1); try done.
    { by rewrite HA. }
    rewrite Hsub. simpl.
    assert (d < length (cells w)) as Hlend by (by eapply lookup_lt_Some).
    assert (t < length (cells w)) as Hlent by (by eapply lookup_lt_Some).
    destruct (IH w1) as (us & w2 & Hloop & Ht2 & Hv2 & Hlen2 & Hn2 & Hus & Hkeep); try done.
    { exists ot1. rewrite Hcells, list_lookup_insert_eq by (by rewrite length_insert).
      split; [done|]. split; [by rewrite Hst1|by rewrite HA1]. }
    { rewrite <-Hv. apply values_of_cells, Forall_forall. intros d' Hd'. rewrite Hcells.
      rewrite list_lookup_insert_ne by (by intros ->).
      destruct (decide (d = d')) as [<-|Hne].
      - rewrite list_lookup_insert_eq by done. by rewrite Hd.
      - by rewrite list_lookup_insert_ne. }
    { eapply Forall_impl; [exact Hex|]. simpl. intros d' Hd'. rewrite Hcells.
      apply lookup_lt_is_Some. rewrite !length_insert. by apply lookup_lt_is_Some. }
    rewrite Hloop. simpl. eexists _, w2. split; [done|]. split; [done|]. split; [done|].
    rewrite Hn1 in *. simpl in *.
    split; [by rewrite Hlen2, Hcells, !length_insert|]. split; [lia|]. split.
    + constructor.
      * split; [done|]. exists (next_closure w). split; [done|]. lia.
      * eapply Forall2_impl; [exact Hus|]. simpl. intros d' h (Hh & j & Hj & Hlt).
        split; [done|]. exists j. split; [done|]. lia.
    + intros c o Hct' Hc.
      destruct (decide (c = d)) as [->|Hcd].
      * rewrite Hd in Hc. injection Hc as <-.
        destruct (Hkeep d (push_subscriber (Recompute (next_closure w) t ds f) od))
          as (o1 & Ho1 & Hcl); [done| |].
        { rewrite Hcells, list_lookup_insert_ne by done.
          by rewrite list_lookup_insert_eq. }
        exists o1. split; [done|]. intros _. apply Hcl. left. simpl.
        apply Exists_app. right. constructor. by eexists.
      * destruct (Hkeep c o) as (o1 & Ho1 & Hcl); [done| |].
        { rewrite Hcells, list_lookup_insert_ne by done.
          by rewrite list_lookup_insert_ne. }
        exists o1. split; [done|]. intros [Hcl'|Hin]; apply Hcl; [by left|right].
        by apply elem_of_cons in Hin as [?|?].
Qed.

Lemma values_of_lookup w vals :
  values_of ds w = Some vals → Forall (λ d, is_Some (cells w !! d)) ds.
Proof.
  intros Hv. assert (is_Some (values_of ds w)) as Hs by (by rewrite Hv).
  apply mapM_is_Some_1 in Hs. eapply Forall_impl; [exact Hs|]. simpl.
  intros d Hd. by apply fmap_is_Some in Hd.
Qed.

(** [bind] sets the target to [compute] over the values the sources have
    and leaves a closure in the list of every source. *)
Lemma bind_spec fuel w ot vals :
  cells w !! t = Some ot → _state ot ≠ sealed → Forall is_listener (_subscribers ot) →
  t ∉ ds → values_of ds w = Some vals → 0 < fuel →
  ∃ us w1, bind fuel t ds f w = Some (us, w1)
    ∧ get t w1 = Some (f vals)
    ∧ values_of ds w1 = Some vals
    ∧ length (cells w1) = length (cells w)
    ∧ next_closure w ≤ next_closure w1
    ∧ Forall2 (λ d h, h.1 = d ∧ ∃ j, h.2 = Recompute j t ds f ∧ j < next_closure w1) ds us
    ∧ (∀ d, d ∈ ds → ∃ od, cells w1 !! d = Some od ∧ Exists closure_of (_subscribers od)).
Proof.
  intros Hct Hst HA Hnt Hv Hf. unfold bind.
  destruct (bind_loop_spec fuel (_subscribers ot) vals ds w)
    as (us & w1 & Hloop & (ot1 & Hct1 & Hst1 & HA1) & Hv1 & Hlen1 & Hn1 & Hus & Hkeep); try done.
  { by exists ot. }
  { by eapply values_of_lookup. }
  rewrite Hloop. simpl. rewrite Hv1. simpl.
  destruct (target_set fuel (f vals) w1 ot1)
    as (ot2 & extra & w2 & Hset & Hcells & Hval & _ & _ & _ & _ & _ & Hn2);
    [done|done|by rewrite HA1|].
  unfold set. rewrite Hset. simpl. exists us, w2. split; [done|].
  assert (t < length (cells w1)) as Hlent by (by eapply lookup_lt_Some).
  split; [unfold get; rewrite Hcells, list_lookup_insert_eq by done; simpl; by rewrite Hval|].
  split.
  { rewrite <-Hv1. apply values_of_cells, Forall_forall. intros d' Hd'. rewrite Hcells.
    by rewrite list_lookup_insert_ne by (by intros ->). }
  split; [by rewrite Hcells, length_insert|]. split; [lia|]. split.
  - eapply Forall2_impl; [exact Hus|]. simpl. intros d h (Hh & j & Hj & Hlt).
    split; [done|]. exists j. split; [done|]. lia.
  - intros d Hd. assert (d ≠ t) as Hdt by (by intros ->).
    assert (is_Some (cells w !! d)) as [od Hod].
    { pose proof (values_of_lookup w vals Hv) as Hall.
      rewrite Forall_forall in Hall. by apply Hall. }
    destruct (Hkeep d od Hdt Hod) as (o1 & Ho1 & Hcl).
    exists o1. rewrite Hcells, list_lookup_insert_ne by done. split; [done|]. apply Hcl.
    by right.
Qed.

End Binding.

(** ** The teardown of a binding *)

Section Teardown.

Context {T : Type} `{EqDecision T}.

Implicit Types (w : world T) (o this : BasicObservable T) (h : handle T).

(** The handle [h] leaves no occurrence of its function in the list of its
    cell; with no loop of the cell suspended, the function is silent there. *)
Lemma unsubscribe_silences h w w1 :
  (∀ k, k ∈ microtasks w → k_this k ≠ h.1) →
  (∀ j, fn_of h.2 = bind_fn j → j < next_closure w) →
  unsubscribe h w = Some w1 →
  ∃ a, silent h.1 (fn_of h.2) a w1.
Proof.
  intros Hq Hn. unfold unsubscribe.
  destruct (cells w !! h.1) as [this|] eqn:Hc; [|done]. simpl. intros [= <-].
  exists (S (length (_replaced this))).
  split; [|split; [|split; [done|by eapply lookup_lt_Some; rewrite lookup_modify, Hc]]].
  - intros o. rewrite lookup_modify, Hc. intros [= <-]. simpl.
    rewrite length_app. simpl. split; [lia|]. intros a Ha. unfold array_of. simpl.
    rewrite length_app. simpl. case_decide.
    + apply Forall_forall. by intros x [Hx _]%list_elem_of_filter.
    + rewrite lookup_ge_None_2; [by constructor|]. rewrite length_app. simpl. lia.
  - simpl. intros k Hk Heq. by destruct (Hq k Hk).
Qed.

Lemma unsubscribe_frame h w w1 :
  unsubscribe h w = Some w1 →
  microtasks w1 = microtasks w ∧ next_closure w1 = next_closure w
  ∧ timers w1 = timers w ∧ next_timer w1 = next_timer w ∧ clock w1 = clock w
  ∧ calls w1 = calls w ∧ length (cells w1) = length (cells w).
Proof.
  unfold unsubscribe. destruct (cells w !! h.1) as [this|]; [|done]. simpl.
  intros [= <-]. simpl. by rewrite length_alter.
Qed.

Lemma unbind_frame us w w1 :
  unbind us w = Some w1 →
  microtasks w1 = microtasks w ∧ next_closure w1 = next_closure w
  ∧ timers w1 = timers w ∧ next_timer w1 = next_timer w ∧ clock w1 = clock w
  ∧ calls w1 = calls w ∧ length (cells w1) = length (cells w).
Proof.
  revert w. induction us as [|h us IH]; intros w; simpl; [by intros [= <-]|].
  destruct (unsubscribe h w) as [w0|] eqn:Hu; [|done]. simpl. intros Hb.
  apply unsubscribe_frame in Hu as (? & ? & ? & ? & ? & ? & ?).
  apply IH in Hb as (? & ? & ? & ? & ? & ? & ?). repeat split; congruence.
Qed.

(** The teardown returns whenever the sources exist. *)
Lemma unbind_total us w :
  Forall (λ h, h.1 < length (cells w)) us → is_Some (unbind us w).
Proof.
  revert w. induction us as [|h us IH]; intros w Hus; simpl; [by eexists|].
  apply Forall_cons in Hus as [Hh Hus].
  destruct (unsubscribe h w) as [w0|] eqn:Hu.
  - simpl. apply IH. apply unsubscribe_frame in Hu as (_ & _ & _ & _ & _ & _ & ->). done.
  - unfold unsubscribe in Hu. apply lookup_lt_is_Some in Hh as [o Ho].
    by rewrite Ho in Hu.
Qed.

(** After the teardown, with no loop of a source suspended when it is called,
    every closure of the binding is silent at its source. *)
Lemma unbind_silences us w w1 h :
  unbind us w = Some w1 → h ∈ us →
  (∀ k, k ∈ microtasks w → k_this k ≠ h.1) →
  (∀ j, fn_of h.2 = bind_fn j → j < next_closure w) →
  ∃ a, silent h.1 (fn_of h.2) a w1.
Proof.
  revert w. induction us as [|h' us IH]; intros w Hb Hin Hq Hn;
    [by apply elem_of_nil in Hin|].
  simpl in Hb. destruct (unsubscribe h' w) as [w0|] eqn:Hu; [|done]. simpl in Hb.
  apply elem_of_cons in Hin as [->|Hin].
  - destruct (unsubscribe_silences _ _ _ Hq Hn Hu) as [a Ha]. exists a.
    by destruct (unbind_silent _ _ _ _ _ _ Ha Hb).
  - pose proof (unsubscribe_frame _ _ _ Hu) as (Hq0 & Hn0 & _).
    apply (IH w0); [done|done|by rewrite Hq0|by rewrite Hn0].
Qed.

Lemma allowed_closure c j (e : event T) : allowed c (bind_fn j) e.
Proof. destruct e; simpl; try done. by intros [_ ?]. Qed.

Lemma filter_all {A} (P : A → Prop) `{∀ x, Decision (P x)} (l : list A) :
  (∀ x, P x) → filter P l = l.
Proof.
  intros HP. induction l as [|x l IH]; [done|].
  rewrite filter_cons_True by done. by rewrite IH.
Qed.

(** The list of the cell [c] without the functions of the handles of [c]. *)
Definition without (us : list (handle T)) (c : nat) (o : BasicObservable T) :=
  mkObservable (_state o)
    (filter (λ s, Forall (λ h, h.1 = c → fn_of s ≠ fn_of h.2) us) (_subscribers o))
    (_value o) (_options o) (_history o) (_debounceTimeout o) (_throttleTimeout o) [].

Lemma unbind_contents us w w1 c :
  unbind us w = Some w1 → fields <$> cells w1 !! c = without us c <$> cells w !! c.
Proof.
  revert w. induction us as [|h us IH]; intros w; simpl.
  - intros [= <-]. destruct (cells w !! c) as [o|]; [|done]. simpl. f_equal.
    unfold fields, without. f_equal. symmetry. apply filter_all.
    intros s. constructor.
  - unfold unsubscribe at 1. destruct (cells w !! h.1) as [this|] eqn:Hh; [|done]. simpl.
    intros Hb. rewrite (IH _ Hb). simpl.
    destruct (decide (h.1 = c)) as [<-|Hne].
    + rewrite list_lookup_alter_eq, Hh. simpl. f_equal. unfold without. simpl. f_equal.
      rewrite list_filter_filter. apply list_filter_iff. intros s. rewrite Forall_cons.
      split; [intros [? ?]; by split|intros [Hs ?]; split; [done|by apply Hs]].
    + rewrite list_lookup_alter_ne by done. destruct (cells w !! c) as [o|]; [|done].
      simpl. f_equal. unfold without. f_equal. apply list_filter_iff. intros s.
      rewrite Forall_cons. split; [intros ?; by split|by intros [_ ?]].
Qed.

Lemma unbind_defined us w w1 :
  unbind us w = Some w1 → Forall (λ h, h.1 < length (cells w)) us.
Proof.
  revert w. induction us as [|h us IH]; intros w; simpl; [constructor|].
  destruct (unsubscribe h w) as [w0|] eqn:Hu; [|done]. simpl. intros Hb.
  pose proof (unsubscribe_frame _ _ _ Hu) as (_ & _ & _ & _ & _ & _ & Hlen).
  constructor; [|rewrite <-Hlen; by apply IH].
  unfold unsubscribe in Hu. destruct (cells w !! h.1) eqn:Hh; [|done].
  by eapply lookup_lt_Some.
Qed.

(** A second call of the teardown returns and changes no field. *)
Lemma unbind_twice us w w1 :
  unbind us w = Some w1 → ∃ w2, unbind us w1 = Some w2 ∧ contents w2 = contents w1.
Proof.
  intros Hb. destruct (unbind_total us w1) as [w2 Hb2].
  { pose proof (unbind_frame _ _ _ Hb) as (_ & _ & _ & _ & _ & _ & ->).
    by eapply unbind_defined. }
  exists w2. split; [done|].
  pose proof (unbind_frame _ _ _ Hb2) as (Hq & Hn & Hts & Hnt & Hcl & Hcs & _).
  unfold contents, with_cells. rewrite Hq, Hn, Hts, Hnt, Hcl, Hcs. f_equal.
  apply list_eq. intros c. rewrite !list_lookup_fmap.
  rewrite (unbind_contents _ _ _ c Hb2).
  pose proof (unbind_contents _ _ _ c Hb) as Hc1.
  destruct (cells w1 !! c) as [o1|]; [|done]. simpl. f_equal.
  destruct (cells w !! c) as [o|]; [|done]. simpl in Hc1.
  unfold fields, without in *. injection Hc1 as -> -> -> -> -> -> ->. f_equal.
  by apply list_filter_filter_l.
Qed.

End Teardown.

(** ** The claims *)

Section Claims.

Context {T : Type} `{EqDecision T}.

#[local] Existing Instance evolves_preorder.

Implicit Types (w : world T) (o this : BasicObservable T) (c : nat).

(** C1, as amended.  Once [seal()] has been called on a cell, whatever is
    done afterwards (any calls on any cells, any passing of time), the cell
    stays sealed with the value it had when it was sealed, which [get()]
    returns; and every [set], [mute] and [unmute] on it fails with the
    SealedMutationError and leaves the world, so the value, the state and the
    subscriber list of the cell, as it was.  The subscriber list is empty when
    [seal()] returns, and it does not have to stay so: [subscribe] makes no
    check, and on the sealed cell it still adds the function at the end of the
    list and calls it once with the value. *)
Theorem sealed_cell_rejects_mutation fuel c w v0 r w1 es w2 :
  get c w = Some v0 →
  seal c w = Some (r, w1) →
  run fuel es w1 = Some w2 →
  _subscribers <$> cells w1 !! c = Some []
  ∧ get c w2 = Some v0
  ∧ state c w2 = Some sealed
  ∧ (∀ fuel' v, ∃ r', set fuel' c v w2 = Some (r', w2) ∧ fails_with r' SealedMutationError)
  ∧ (∃ r', mute c w2 = Some (r', w2) ∧ fails_with r' SealedMutationError)
  ∧ (∃ r', unmute c w2 = Some (r', w2) ∧ fails_with r' SealedMutationError)
  ∧ (∀ fuel' n, ∃ A ov w3,
       _subscribers <$> cells w2 !! c = Some A
       ∧ subscribe fuel' c (Listener n) w2 = Some ((c, Listener n), w3)
       ∧ _subscribers <$> cells w3 !! c = Some (A ++ [Listener n])
       ∧ calls w3 = calls w2 ++ [(c, user_fn n, v0, ov)]
       ∧ state c w3 = Some sealed
       ∧ get c w3 = Some v0).
Proof.
  unfold get, state. intros Hg Hs Hr.
  destruct (cells w !! c) as [this|] eqn:Hc; simplify_eq/=.
  rewrite (seal_spec _ _ _ Hc) in Hs. simplify_eq.
  rewrite lookup_modify, Hc in *. simpl. split; [done|].
  apply run_evolves in Hr as (Hr & _ & _).
  destruct (Hr c (with_state sealed (assign_subscribers [] this))) as (o & Ho & _ & _ & Hst).
  { by rewrite lookup_modify, Hc. }
  destruct (Hst eq_refl) as [Hso Hvo]. rewrite Ho. simpl. rewrite Hso, Hvo.
  split; [done|]. split; [done|]. split; [|split; [|split]].
  - intros fuel' v. eexists. split; [by eapply set_sealed|by right].
  - eexists. split; [by eapply mute_sealed|by left].
  - eexists. split; [by eapply unmute_sealed|by left].
  - intros fuel' n. exists (_subscribers o), (penultimate (_history o)).
    unfold subscribe. rewrite Ho. simpl. rewrite invoke_listener. simpl.
    eexists. split; [done|]. split; [done|].
    cbn [cells calls with_calls]. rewrite lookup_modify, Ho. simpl.
    by rewrite Hso, Hvo.
Qed.

(** C5. [subscribe(fn)] appends [fn] to the subscriber list and calls it
    exactly once before it returns, with the current value and the
    second-to-last entry of the history, which is [undefined] when the
    history has one entry; nothing is left pending by the call.  The handle it
    returns can be called any number of times: a call never fails, and a
    second call leaves every field of every cell, and everything else, as the
    first call left it. *)
Theorem subscribe_calls_once fuel c n w this :
  cells w !! c = Some this →
  ∃ w', subscribe fuel c (Listener n) w = Some ((c, Listener n), w')
    ∧ _subscribers <$> cells w' !! c = Some (_subscribers this ++ [Listener n])
    ∧ calls w' = calls w ++ [(c, user_fn n, _value this, penultimate (_history this))]
    ∧ microtasks w' = microtasks w
    ∧ timers w' = timers w
    ∧ (length (_history this) = 1 → penultimate (_history this) = None)
    ∧ (∀ h x y, _history this = h ++ [x; y] → penultimate (_history this) = Some x)
    ∧ (∀ u u1 : world T, unsubscribe (c, Listener n) u = Some u1 →
         ∃ u2, unsubscribe (c, Listener n) u1 = Some u2 ∧ contents u2 = contents u1).
Proof.
  intros Hc. unfold subscribe. rewrite Hc. simpl. rewrite invoke_listener. simpl.
  eexists. split; [done|]. simpl. rewrite list_lookup_alter_eq, Hc. simpl.
  repeat split; try done.
  - intros Hl. unfold penultimate. rewrite decide_False by lia. done.
  - intros h x y ->. unfold penultimate. rewrite length_app. simpl.
    rewrite decide_True by lia.
    replace (length h + 2 - 2) with (length h + 0) by lia.
    by rewrite lookup_app_r, Nat.add_0_r, Nat.sub_diag by lia.
  - intros u u1. unfold unsubscribe. simpl.
    destruct (cells u !! c) as [o|] eqn:Ho; intros ?; simplify_eq/=.
    rewrite list_lookup_alter_eq, Ho. simpl. eexists. split; [done|].
    unfold contents, modify, with_cells. simpl. f_equal.
    rewrite list_alter_alter_eq.
    apply list_eq. intros i. rewrite !list_lookup_fmap.
    destruct (decide (c = i)) as [<-|Hne].
    + rewrite !list_lookup_alter_eq, Ho. simpl. unfold fields. simpl. do 2 f_equal.
      by apply list_filter_filter_l.
    + by rewrite !list_lookup_alter_ne.
Qed.

(** C10. [seal()] never throws, whatever the state of the cell: on a cell
    that is already sealed it returns, the state is (still) sealed and the
    subscriber list is empty, whereas [set], [mute] and [unmute] fail in that
    state. *)
Theorem seal_never_throws fuel c w this :
  cells w !! c = Some this →
  ∃ w', seal c w = Some (Returned, w')
    ∧ state c w' = Some sealed
    ∧ _subscribers <$> cells w' !! c = Some []
    ∧ (_state this = sealed →
         (∀ v, ∃ r, set fuel c v w = Some (r, w) ∧ fails_with r SealedMutationError)
         ∧ (∃ r, mute c w = Some (r, w) ∧ fails_with r SealedMutationError)
         ∧ (∃ r, unmute c w = Some (r, w) ∧ fails_with r SealedMutationError)).
Proof.
  intros Hc. eexists. split; [by eapply seal_spec|].
  unfold state. rewrite lookup_modify, Hc. simpl.
  repeat split; try done.
  - intros v. eexists. split; [by eapply set_sealed|by right].
  - eexists. split; [by eapply mute_sealed|by left].
  - eexists. split; [by eapply unmute_sealed|by left].
Qed.

(** C4. On an unsealed, unmuted cell, [set(v)] with [v === get()] is
    fulfilled, calls no subscriber, appends nothing to the history and leaves
    nothing pending: the world is the one before the call. *)
Theorem set_same_value fuel c w this :
  cells w !! c = Some this →
  _state this = unsealed →
  ∃ r w', set fuel c (_value this) w = Some (r, w')
    ∧ succeeds r
    ∧ calls w' = calls w
    ∧ _history <$> cells w' !! c = Some (_history this)
    ∧ w' = w.
Proof.
  intros Hc Hs. exists Fulfilled, w.
  repeat split; try (by right); try (by rewrite Hc).
  unfold set, set_with. rewrite Hc. simpl.
  rewrite check_not_sealed by (rewrite Hs; done).
  rewrite (modify_id c) by (intros o; rewrite Hc; intros [= <-]; apply with_value_id).
  unfold _notify. rewrite Hc. simpl.
  rewrite decide_False by (rewrite Hs; done).
  by rewrite decide_True.
Qed.

(** C6. A cell with [throttle = T] and no debounce.  A [set] that arrives
    while the throttle timer is set is fulfilled and only changes the value: no
    subscriber is called, no loop is suspended, no timer is started and
    nothing is pushed on the history, so nothing is left that could deliver the
    value later.  And for three calls with new values, each a task of its own,
    the second less than [T] ms after the first and the third when [T] ms or
    more have passed since the first, made on an unsealed, unmuted cell with no
    window open whose subscribers are listeners: the subscribers are notified
    of the first and of the third, and of nothing else. *)
Theorem throttle_drops_then_reopens fuel c w this t v1 v2 v3 g h :
  cells w !! c = Some this →
  _state this = unsealed →
  truthy (throttle (_options this)) = Some t →
  truthy (debounce (_options this)) = None →
  _throttleTimeout this = None →
  quiescent w →
  Forall is_listener (_subscribers this) →
  length (_subscribers this) ≤ fuel →
  v1 ≠ _value this → v2 ≠ v1 → v3 ≠ v2 →
  g < t → t ≤ g + h →
  (∀ fuel' (u : world T) o id v,
     cells u !! c = Some o → _state o ≠ sealed →
     _options o = _options this → _throttleTimeout o = Some id →
     ∃ u', set fuel' c v u = Some (Fulfilled, u')
       ∧ get c u' = Some v
       ∧ calls u' = calls u ∧ microtasks u' = microtasks u ∧ timers u' = timers u
       ∧ _history <$> cells u' !! c = Some (_history o))
  ∧ (∃ w2, run fuel [Set_ c v1; EndOfTask; Wait g; Set_ c v2; EndOfTask] w = Some w2
       ∧ calls w2 = calls w ++ notifications c (_subscribers this) v1 (_value this)
       ∧ get c w2 = Some v2
       ∧ ∃ w3, run fuel [Wait h; Set_ c v3; EndOfTask] w2 = Some w3
           ∧ calls w3 = calls w ++ notifications c (_subscribers this) v1 (_value this)
                          ++ notifications c (_subscribers this) v3 v2
           ∧ get c w3 = Some v3).
Proof.
  intros Hc Hs Ht Hd Hid [Htm Hq] HA Hn Hv1 Hv2 Hv3 Hg Hh. split.
  - intros fuel' u o id v Hu Hso Ho Hio. eexists. split.
    + eapply set_throttled; eauto. by rewrite Ho.
    + unfold get. rewrite lookup_modify, Hu. done.
  - assert (c < length (cells w)) as Hlen by (by eapply lookup_lt_Some).
    change [Set_ c v1; EndOfTask; Wait g; Set_ c v2; EndOfTask]
      with ([Set_ c v1; EndOfTask] ++ [Wait g; Set_ c v2; EndOfTask]).
    rewrite run_app, (set_opens_window _ _ _ _ this t) by done.
    rewrite Htm. simpl.
    rewrite advance_idle; simpl; [|done|repeat constructor; simpl; lia].
    rewrite (set_throttled fuel c v2 _
               (push_history v1 (with_throttleTimeout (Some (next_timer w)) (with_value v1 this)))
               t (next_timer w))
      by (simpl; first [by apply list_lookup_insert_eq|by rewrite Hs|done]).
    simpl. rewrite drain_nil by done. simpl.
    eexists. split; [done|]. simpl. split; [done|].
    unfold get, modify. simpl.
    rewrite (list_alter_insert_eq _ _ _ _ _ Hc), list_lookup_insert_eq by done.
    split; [done|].
    unfold with_cells, with_clock. simpl.
    set (o2 := with_value v2 (push_history v1
                 (with_throttleTimeout (Some (next_timer w)) (with_value v1 this)))).
    set (l1 := calls w ++ notifications c (_subscribers this) v1 (_value this)).
    rewrite (advance_fires fuel h _
               (mkTimer (next_timer w) (clock w + t) (throttle_expired c))
               (mkWorld (<[c:=with_throttleTimeout None o2]> (cells w)) []
                  (S (next_timer w)) (next_closure w) (clock w + t) [] l1));
      [|done|done|simpl; lia|simpl; lia| |done|done|done].
    2:{ cbn [callback due cells timers next_timer next_closure clock microtasks calls].
        rewrite (throttle_expires fuel c _ o2); simpl; [|by apply list_lookup_insert_eq|done].
        by rewrite list_insert_insert_eq. }
    simpl.
    match goal with |- context [set fuel c v3 ?u] =>
      pose proof (set_opens_window fuel c v3 u (with_throttleTimeout None o2) t) as Hw end.
    simpl in Hw. rewrite Hw by (first [by apply list_lookup_insert_eq|done]).
    clear Hw. eexists. split; [done|]. simpl.
    rewrite list_lookup_insert_eq by (by rewrite length_insert). simpl.
    unfold l1. by rewrite <-app_assoc.
Qed.

(** C2, as amended.  A cell with [debounce = D] and no throttle, unsealed and
    unmuted, with nothing pending, whose subscribers are listeners.  After
    two or more calls of [set], each with a value other than the current one
    and each less than [D] ms after the one before, no subscriber has been
    called; once [D] ms or more have passed every subscriber is called exactly
    once, with the last value set and the value the cell held just before the
    last call (the value of the call before it), and the last value alone is
    pushed on the history. *)
Theorem debounce_delivers_last_call fuel c w this d v1 mid gN vN e :
  cells w !! c = Some this →
  _state this = unsealed →
  truthy (throttle (_options this)) = None →
  truthy (debounce (_options this)) = Some d →
  quiescent w →
  Forall is_listener (_subscribers this) →
  length (_subscribers this) ≤ fuel →
  v1 ≠ _value this →
  changes v1 (snd <$> mid ++ [(gN, vN)]) →
  Forall (λ gv, gv.1 < d) (mid ++ [(gN, vN)]) →
  d ≤ e →
  ∃ w1 w2,
    run fuel (Set_ c v1 :: EndOfTask :: burst c (mid ++ [(gN, vN)])) w = Some w1
    ∧ calls w1 = calls w
    ∧ get c w1 = Some vN
    ∧ _history <$> cells w1 !! c = Some (_history this)
    ∧ run fuel [Wait e] w1 = Some w2
    ∧ calls w2 = calls w ++ notifications c (_subscribers this) vN
                              (default v1 (last (snd <$> mid)))
    ∧ get c w2 = Some vN
    ∧ _history <$> cells w2 !! c = Some (_history this ++ [vN]).
Proof.
  intros Hc Hs Ht Hd Hq HA Hn Hv1 Hch Hg He.
  assert (c < length (cells w)) as Hlen by (by eapply lookup_lt_Some).
  destruct (debouncing_burst fuel c w this d Hc Hs Ht Hd (mid ++ [(gN, vN)])
              (next_timer w) (clock w) v1 (_value this) Hg Hch) as (id & clk & Hb).
  rewrite held_snoc in Hb. simpl in Hb.
  do 2 eexists. split.
  { change (Set_ c v1 :: EndOfTask :: ?l) with ([Set_ c v1; EndOfTask] ++ l).
    rewrite run_app, (debouncing_first fuel c w this d) by done. simpl. exact Hb. }
  unfold get. simpl. rewrite list_lookup_insert_eq by done. simpl.
  repeat (split; [done|]).
  split; [by apply debouncing_fires|].
  simpl. rewrite list_lookup_insert_eq by done. done.
Qed.

(** C3, as amended.  The history of a cell starts as the list holding the
    initial value; no operation ever removes or changes an entry, it can only
    add entries at the end, so the history is never empty.  It is not a log of
    every value held: a [set] on a muted cell, or inside a throttle window,
    changes the value, pushes nothing and leaves nothing pending that would.
    One [set] that changes the value of an unsealed cell with no throttle
    window open pushes the new value when its notification completes, and the
    last entry then is the current value: when the task ends, on a cell with
    no debounce configured, no loop being suspended as the call is made; when
    the debounce timer runs, on a cell with a debounce and no throttle
    configured, nothing being pending as the call is made.  Nothing else is
    done until then, and the subscribers of the cell are plain functions. *)
Theorem history_is_append_only :
  (∀ v options (w : world T),
     _history <$> cells (create v options w).2 !! (create v options w).1 = Some [v])
  ∧ (∀ fuel es (w w' : world T) c o,
       run fuel es w = Some w' → cells w !! c = Some o →
       ∃ o', cells w' !! c = Some o' ∧ _history o `prefix_of` _history o')
  ∧ (∀ fuel es (w' : world T) c o,
       run fuel es empty_world = Some w' → cells w' !! c = Some o → _history o ≠ [])
  ∧ (∀ fuel c v (w : world T) this,
       cells w !! c = Some this → _state this = unsealed → v ≠ _value this →
       truthy (debounce (_options this)) = None →
       truthy (throttle (_options this)) = None ∨ _throttleTimeout this = None →
       microtasks w = [] →
       Forall is_listener (_subscribers this) → length (_subscribers this) ≤ fuel →
       ∃ w', run fuel [Set_ c v; EndOfTask] w = Some w'
         ∧ get c w' = Some v
         ∧ _history <$> cells w' !! c = Some (_history this ++ [v]))
  ∧ (∀ fuel c v (w : world T) this d e,
       cells w !! c = Some this → _state this = unsealed → v ≠ _value this →
       truthy (debounce (_options this)) = Some d →
       truthy (throttle (_options this)) = None →
       quiescent w → d ≤ e →
       Forall is_listener (_subscribers this) → length (_subscribers this) ≤ fuel →
       ∃ w', run fuel [Set_ c v; EndOfTask; Wait e] w = Some w'
         ∧ get c w' = Some v
         ∧ _history <$> cells w' !! c = Some (_history this ++ [v]))
  ∧ (∀ fuel c v (w : world T) this,
       cells w !! c = Some this →
       _state this = muted
       ∨ (_state this = unsealed ∧ is_Some (truthy (throttle (_options this)))
          ∧ is_Some (_throttleTimeout this)) →
       ∃ w', set fuel c v w = Some (Fulfilled, w')
         ∧ get c w' = Some v
         ∧ _history <$> cells w' !! c = Some (_history this)
         ∧ timers w' = timers w ∧ microtasks w' = microtasks w).
Proof.
  split; [|split; [|split; [|split; [|split]]]].
  - intros v options w. simpl. by rewrite lookup_app_r, Nat.sub_diag.
  - intros fuel es w w' c o Hr Hc. apply run_evolves in Hr as (Hr & _ & _).
    destruct (Hr _ _ Hc) as (o' & Ho' & Hp & _). eauto.
  - intros fuel es w' c o Hr Hc. apply run_evolves in Hr as (_ & Hr & _).
    by eapply Hr.
  - intros fuel c v w this Hc Hs Hv Hd Ht Hq HA Hn.
    assert (c < length (cells w)) as Hlen by (by eapply lookup_lt_Some).
    destruct (truthy (throttle (_options this))) as [t|] eqn:Htt.
    + destruct Ht as [?|Ht]; [done|].
      rewrite (set_opens_window _ _ _ _ this t) by done.
      eexists. split; [done|]. unfold get. simpl.
      by rewrite list_lookup_insert_eq.
    + rewrite (set_notifies _ _ _ _ this) by done.
      eexists. split; [done|]. unfold get. simpl.
      by rewrite list_lookup_insert_eq.
  - intros fuel c v w this d e Hc Hs Hv Hd Ht Hq He HA Hn.
    assert (c < length (cells w)) as Hlen by (by eapply lookup_lt_Some).
    change [Set_ c v; EndOfTask; Wait e] with ([Set_ c v; EndOfTask] ++ [Wait e]).
    rewrite run_app, (debouncing_first fuel c w this d) by done.
    cbn [mbind option_bind]. rewrite debouncing_fires by done.
    eexists. split; [done|]. unfold get. simpl.
    by rewrite list_lookup_insert_eq.
  - intros fuel c v w this Hc Hg. eexists. split.
    + destruct Hg as [Hm|(Hs & [t Ht] & [id Hid])].
      * by eapply set_muted.
      * eapply set_throttled; eauto. by rewrite Hs.
    + unfold get. by rewrite lookup_modify, Hc.
Qed.

(** C8, as amended.  [seal()] clears no timer: the timers pending before the
    call are pending after it.  When a debounce timer of the cell is the one
    pending, its callback runs when it is due: it finds the subscriber list
    empty, calls nobody, and pushes its value on the history of the sealed
    cell. *)
Theorem seal_leaves_timers_pending fuel c w this id t nv ov e :
  cells w !! c = Some this →
  timers w = [mkTimer id t (debounce_elapsed c nv ov)] →
  microtasks w = [] →
  clock w < t → t ≤ clock w + e →
  (∀ c' (u : world T) r u', seal c' u = Some (r, u') → timers u' = timers u)
  ∧ ∃ w1 w2, seal c w = Some (Returned, w1)
      ∧ timers w1 = [mkTimer id t (debounce_elapsed c nv ov)]
      ∧ run fuel [Wait e] w1 = Some w2
      ∧ timers w2 = []
      ∧ calls w2 = calls w
      ∧ state c w2 = Some sealed
      ∧ _history <$> cells w1 !! c = Some (_history this)
      ∧ _history <$> cells w2 !! c = Some (_history this ++ [nv]).
Proof.
  intros Hc Htm Hq Hlt Hle. split.
  { intros c' u r u'. unfold seal. destruct (cells u !! c'); intros; by simplify_eq/=. }
  assert (c < length (cells w)) as Hlen by (by eapply lookup_lt_Some).
  rewrite (seal_spec _ _ _ Hc). do 2 eexists. split; [done|].
  rewrite (modify_lookup _ _ _ _ Hc). simpl.
  set (o := with_state sealed (assign_subscribers [] this)).
  split; [done|]. split.
  { rewrite (advance_fires fuel e _ (mkTimer id t (debounce_elapsed c nv ov))
               (mkWorld (<[c:=push_history nv o]> (cells w)) [] (next_timer w)
                  (next_closure w) t [] (calls w)));
      [done|done|done|done|done| |done|done|done].
    cbn [callback due cells timers next_timer next_closure clock microtasks calls
         run_timer with_cells].
    rewrite (cycle fuel c nv ov _ o); simpl; try done; try lia.
    - by rewrite list_insert_insert_eq, app_nil_r.
    - by apply list_lookup_insert_eq. }
  unfold state. simpl. rewrite !list_lookup_insert_eq by done. done.
Qed.

(** C9, as amended.  The handle that [subscribe] returned for a function
    registered any number of times assigns the list without any occurrence of
    the function, the other subscribers kept in their order.  When no
    notification of the cell is under way at that moment (no loop of the cell
    is suspended at its [await]), the function is never called for this cell
    again, whatever is done afterwards, unless it is subscribed to it again. *)
Theorem unsubscribe_removes_every_registration fuel c n w this :
  cells w !! c = Some this →
  (∀ k, k ∈ microtasks w → k_this k ≠ c) →
  ∃ w1, unsubscribe (c, Listener n) w = Some w1
    ∧ _subscribers <$> cells w1 !! c
      = Some (filter (λ s, fn_of s ≠ user_fn n) (_subscribers this))
    ∧ (∀ o1, cells w1 !! c = Some o1 → Listener n ∉ _subscribers o1)
    ∧ (∀ es w2,
         Forall (allowed c (user_fn n)) es → run fuel es w1 = Some w2 →
         ∃ l, calls w2 = calls w1 ++ l
           ∧ Forall (λ e : call T, e.1.1 ≠ (c, user_fn n)) l).
Proof.
  intros Hc Hq. unfold unsubscribe. simpl. rewrite Hc. simpl.
  eexists. split; [done|]. rewrite lookup_modify, Hc. simpl. split; [done|]. split.
  { intros o1 [= <-]. simpl. intros [Hne _]%list_elem_of_filter. by apply Hne. }
  intros es w2 Hes Hr.
  eapply (run_silent c (user_fn n) (S (length (_replaced this)))) in Hr as [_ Hr];
    [exact Hr|done|].
  split; [|split; [|split; [done|by eapply lookup_lt_Some; rewrite lookup_modify, Hc]]].
  - intros o. rewrite lookup_modify, Hc. intros [= <-]. simpl.
    rewrite length_app. simpl. split; [lia|]. intros a Ha. unfold array_of. simpl.
    rewrite length_app. simpl. case_decide.
    + apply Forall_forall. by intros x [Hx _]%list_elem_of_filter.
    + rewrite lookup_ge_None_2; [by constructor|]. rewrite length_app. simpl. lia.
  - simpl. intros k Hk Heq. by destruct (Hq k Hk).
Qed.

Lemma Forall2_Forall_right {A B} (P : A → B → Prop) l k :
  Forall2 P l k → Forall (λ y, ∃ x, x ∈ l ∧ P x y) k.
Proof.
  induction 1 as [|x y l k Hxy _ IH]; constructor.
  - exists x. split; [by left|done].
  - eapply Forall_impl; [exact IH|]. simpl. intros y' (x' & Hx' & HP).
    exists x'. split; [by right|done].
Qed.

(** C7, as amended.  The cells are [BasicObservable]s.  For a target that is
    not sealed, whose own subscribers are plain functions and which is not one
    of its sources, [bind] returns one handle for every source, in their
    order, each for a callback of the binding registered on that source, and
    when it returns the target holds [compute] over the values that the
    sources have.  Thereafter, in every world in which such a callback is
    registered on a source whose other subscribers are plain functions or
    callbacks of the binding, a [set] that changes the value of the source
    while it is unsealed leaves the target with [compute] over the values that
    the sources have then: when the task ends, where the source has no
    debounce configured and no throttle window open and no loop was suspended;
    when the debounce timer runs, the delay after the call, where the source
    has a debounce and no throttle configured, nothing was pending and nothing
    else is done meanwhile, the target keeping its value until then.  A [set]
    on a source that is muted, or inside its throttle window, changes the
    value of the source and nothing else: nobody is called, nothing is left
    pending and the target keeps its value.  The teardown returns whatever has been done in between; when no notification
    of a source is under way as it is called, no source calls its callback of
    the binding again, whatever is done afterwards; and calling the teardown
    again, then or later, returns, the second call in a row changing no
    field. *)
Theorem bind_recomputes_until_unbound fuel t ds f w ot vals :
  cells w !! t = Some ot → _state ot ≠ sealed → Forall is_listener (_subscribers ot) →
  t ∉ ds → values_of ds w = Some vals → 0 < fuel →
  ∃ us w1, bind fuel t ds f w = Some (us, w1)
    ∧ get t w1 = Some (f vals)
    ∧ values_of ds w1 = Some vals
    ∧ Forall2 (λ d h, h.1 = d ∧ closure_of t ds f h.2) ds us
    ∧ (∀ d, d ∈ ds →
         ∃ od, cells w1 !! d = Some od ∧ Exists (closure_of t ds f) (_subscribers od))
    ∧ (∀ w2 d ot2 od v,
         d ∈ ds → is_Some (values_of ds w2) →
         cells w2 !! t = Some ot2 → _state ot2 ≠ sealed →
         Forall is_listener (_subscribers ot2) →
         cells w2 !! d = Some od → _state od = unsealed →
         throttle_open od → truthy (debounce (_options od)) = None →
         v ≠ _value od →
         Forall (feeds t ds f) (_subscribers od) →
         Exists (closure_of t ds f) (_subscribers od) →
         microtasks w2 = [] →
         length (_subscribers od) * (length (_subscribers ot2) + 2) ≤ fuel →
         ∃ w3 vals', run fuel [Set_ d v; EndOfTask] w2 = Some w3
           ∧ get d w3 = Some v
           ∧ values_of ds w3 = Some vals'
           ∧ get t w3 = Some (f vals'))
    ∧ (∀ w2 d ot2 od v delay,
         d ∈ ds → is_Some (values_of ds w2) →
         cells w2 !! t = Some ot2 → _state ot2 ≠ sealed →
         Forall is_listener (_subscribers ot2) →
         cells w2 !! d = Some od → _state od = unsealed →
         truthy (throttle (_options od)) = None →
         truthy (debounce (_options od)) = Some delay →
         v ≠ _value od →
         Forall (feeds t ds f) (_subscribers od) →
         Exists (closure_of t ds f) (_subscribers od) →
         quiescent w2 →
         length (_subscribers od) * (length (_subscribers ot2) + 2) ≤ fuel →
         ∃ w3 w4 vals', run fuel [Set_ d v; EndOfTask] w2 = Some w3
           ∧ get d w3 = Some v
           ∧ get t w3 = get t w2
           ∧ run fuel [Wait delay] w3 = Some w4
           ∧ get d w4 = Some v
           ∧ values_of ds w4 = Some vals'
           ∧ get t w4 = Some (f vals'))
    ∧ (∀ w2 d od v,
         d ∈ ds → cells w2 !! d = Some od →
         _state od = muted
         ∨ (_state od = unsealed ∧ is_Some (truthy (throttle (_options od)))
            ∧ is_Some (_throttleTimeout od)) →
         ∃ w3, set fuel d v w2 = Some (Fulfilled, w3)
           ∧ get d w3 = Some v
           ∧ get t w3 = get t w2
           ∧ calls w3 = calls w2
           ∧ timers w3 = timers w2 ∧ microtasks w3 = microtasks w2)
    ∧ (∀ es w2,
         run fuel es w1 = Some w2 →
         (∀ k, k ∈ microtasks w2 → k_this k ∉ ds) →
         ∃ w3, unbind us w2 = Some w3
           ∧ (∀ h es' w4,
                h ∈ us → run fuel es' w3 = Some w4 →
                (∃ l, calls w4 = calls w3 ++ l
                   ∧ Forall (λ e : call T, e.1.1 ≠ (h.1, fn_of h.2)) l)
                ∧ is_Some (unbind us w4))
           ∧ ∃ w4, unbind us w3 = Some w4 ∧ contents w4 = contents w3).
Proof.
  intros Hct Hst HA Hnt Hv Hf.
  destruct (bind_spec t ds f fuel w ot vals)
    as (us & w1 & Hb & Hg & Hvs & Hlen & Hn & Hus & Hcl); try done.
  exists us, w1. split; [done|]. split; [done|]. split; [done|]. split.
  { eapply Forall2_impl; [exact Hus|]. simpl. intros d h (Hh & j & Hj & _).
    split; [done|by exists j]. }
  split; [done|]. split.
  { intros w2 d ot2 od v ??????????????. by eapply source_change. }
  split.
  { intros w2 d ot2 od v delay ??????????????. by eapply source_change_debounced. }
  split.
  { intros w2 d od v Hd Hod Hgate. assert (d ≠ t) as Hdt by (by intros ->).
    eexists. split.
    - destruct Hgate as [Hm|(Hs & [th Hth] & [id Hid])].
      + by eapply set_muted.
      + eapply set_throttled; [done|by rewrite Hs|done..].
    - unfold get. rewrite lookup_modify, Hod, lookup_modify_ne by done. done. }
  intros es w2 Hr Hq.
  apply Forall2_Forall_right in Hus. rewrite Forall_forall in Hus.
  assert (∀ w', evolves w1 w' → Forall (λ h, h.1 < length (cells w')) us) as Hex.
  { intros w' (Hc & _ & _). apply Forall_forall. intros h Hh.
    destruct (Hus h Hh) as (d & Hd & Hhd & _). rewrite Hhd.
    destruct (Hcl d Hd) as (od & Hod & _). destruct (Hc _ _ Hod) as (od' & Hod' & _).
    by eapply lookup_lt_Some. }
  pose proof (run_evolves _ _ _ _ Hr) as Hev.
  destruct (unbind_total us w2 (Hex _ Hev)) as [w3 Hu].
  exists w3. split; [done|]. split; [|by eapply unbind_twice].
  intros h es' w4 Hh Hr'. destruct (Hus h Hh) as (d & Hd & Hhd & j & Hj & Hlt).
  split.
  - destruct (unbind_silences us w2 w3 h Hu Hh) as [a Ha].
    { intros k Hk Heq. apply (Hq k Hk). by rewrite Heq, Hhd. }
    { rewrite Hj. simpl. intros j' [= <-]. destruct Hev as (_ & _ & Hnc). lia. }
    eapply (run_silent h.1 (fn_of h.2) a); [|exact Ha|exact Hr'].
    rewrite Hj. simpl. apply Forall_forall. intros e _. apply allowed_closure.
  - apply unbind_total, Hex. etrans; [exact Hev|].
    etrans; [by eapply unbind_evolves|by eapply run_evolves].
Qed.

End Claims.

(** ** The theorems at concrete cells *)

Lemma watched_runs options :
  run 0 [Create 0%Z options; Subscribe 0 7] empty_world = Some (watched options).
Proof. by destruct options. Qed.

Lemma sealed_cell_rejects_mutation_witness :
  ∃ w1 w2,
    seal 0 (watched None) = Some (Returned, w1)
    ∧ run 2 [Set_ 0 5%Z; Subscribe 0 8; Wait 3] w1 = Some w2
    ∧ get 0 w2 = Some 0%Z
    ∧ state 0 w2 = Some sealed
    ∧ (∀ fuel' v, ∃ r', set fuel' 0 v w2 = Some (r', w2) ∧ fails_with r' SealedMutationError).
Proof.
  do 2 eexists. split; [vm_compute; reflexivity|]. split; [vm_compute; reflexivity|].
  match goal with |- get 0 ?w2 = _ ∧ _ =>
    destruct (sealed_cell_rejects_mutation 2 0 (watched None) 0%Z Returned
                (modify 0 (λ o, with_state sealed (assign_subscribers [] o)) (watched None))
                [Set_ 0 5%Z; Subscribe 0 8; Wait 3] w2)
      as (_ & Hg & Hs & Hset & _); [by vm_compute..|]
  end.
  exact (conj Hg (conj Hs Hset)).
Defined.

(** C1 as the specification states it fails: the subscriber list of a sealed
    cell is not empty once [subscribe] has been called on it; the [set] that
    follows is rejected and leaves the list with the function in it. *)
Lemma sealed_cell_takes_subscriber_counterexample :
  ∃ w1 w2,
    seal 0 (watched None) = Some (Returned, w1)
    ∧ _subscribers <$> cells w1 !! 0 = Some []
    ∧ subscribe 1 0 (Listener 8) w1 = Some ((0, Listener 8), w2)
    ∧ state 0 w2 = Some sealed
    ∧ set 1 0 5%Z w2 = Some (Rejected SealedMutationError, w2)
    ∧ _subscribers <$> cells w2 !! 0 = Some [Listener 8].
Proof.
  do 2 eexists. split; [vm_compute; reflexivity|]. split; [by vm_compute|].
  split; [vm_compute; reflexivity|]. by vm_compute.
Qed.

Lemma set_same_value_witness :
  ∃ r w', set 1 0 0%Z (watched None) = Some (r, w')
    ∧ succeeds r
    ∧ calls w' = calls (watched None)
    ∧ _history <$> cells w' !! 0 = Some [0%Z]
    ∧ w' = watched None.
Proof.
  apply (set_same_value 1 0 (watched None) (watched_cell None)); by vm_compute.
Defined.

Lemma seal_never_throws_witness :
  ∃ w', seal 0 (watched None) = Some (Returned, w')
    ∧ state 0 w' = Some sealed
    ∧ _subscribers <$> cells w' !! 0 = Some [].
Proof.
  destruct (seal_never_throws 1 0 (watched None) (watched_cell None))
    as (w' & Hs & Hst & Hsub & _); [by vm_compute|].
  exists w'. exact (conj Hs (conj Hst Hsub)).
Defined.

Lemma subscribe_calls_once_witness :
  ∃ w', subscribe 1 0 (Listener 8) (watched None) = Some ((0, Listener 8), w')
    ∧ _subscribers <$> cells w' !! 0 = Some [Listener 7; Listener 8]
    ∧ calls w' = [(0, user_fn 7, 0%Z, None); (0, user_fn 8, 0%Z, None)].
Proof.
  destruct (subscribe_calls_once 1 0 8 (watched None) (watched_cell None))
    as (w' & Hs & Hsub & Hcalls & _); [by vm_compute|].
  exists w'. exact (conj Hs (conj Hsub Hcalls)).
Defined.

Lemma throttle_drops_then_reopens_witness :
  ∃ w2 w3,
    run 1 [Set_ 0 1%Z; EndOfTask; Wait 4; Set_ 0 2%Z; EndOfTask] (watched (Some throttled10))
    = Some w2
    ∧ calls w2 = [(0, user_fn 7, 0%Z, None); (0, user_fn 7, 1%Z, Some 0%Z)]
    ∧ get 0 w2 = Some 2%Z
    ∧ run 1 [Wait 6; Set_ 0 3%Z; EndOfTask] w2 = Some w3
    ∧ calls w3 = [(0, user_fn 7, 0%Z, None); (0, user_fn 7, 1%Z, Some 0%Z);
                  (0, user_fn 7, 3%Z, Some 2%Z)]
    ∧ get 0 w3 = Some 3%Z.
Proof.
  destruct (throttle_drops_then_reopens 1 0 (watched (Some throttled10))
              (watched_cell (Some throttled10)) 10 1%Z 2%Z 3%Z 4 6)
    as (_ & w2 & H2 & Hc2 & Hg2 & w3 & H3 & Hc3 & Hg3);
    try (by vm_compute); try (simpl; lia); try (by repeat constructor).
  exists w2, w3. exact (conj H2 (conj Hc2 (conj Hg2 (conj H3 (conj Hc3 Hg3))))).
Defined.

Lemma debounce_delivers_last_call_witness :
  ∃ w1 w2,
    run 1 (Set_ 0 1%Z :: EndOfTask :: burst 0 ([(3, 2%Z)] ++ [(4, 3%Z)]))
      (watched (Some debounced10)) = Some w1
    ∧ calls w1 = calls (watched (Some debounced10))
    ∧ get 0 w1 = Some 3%Z
    ∧ _history <$> cells w1 !! 0 = Some [0%Z]
    ∧ run 1 [Wait 10] w1 = Some w2
    ∧ calls w2 = calls (watched (Some debounced10)) ++ [(0, user_fn 7, 3%Z, Some 2%Z)]
    ∧ get 0 w2 = Some 3%Z
    ∧ _history <$> cells w2 !! 0 = Some [0%Z; 3%Z].
Proof.
  apply (debounce_delivers_last_call 1 0 (watched (Some debounced10))
           (watched_cell (Some debounced10)) 10 1%Z [(3, 2%Z)] 4 3%Z 10);
    try (by vm_compute); try (simpl; lia); try (by repeat constructor).
Defined.

(** C2 as the specification states it fails: after [set(1)] and, 5 ms later,
    [set(2)] on a cell that held 0, the one notification carries [(2, 1)];
    the value before the first call, 0, is not its second argument. *)
Lemma debounce_old_value_counterexample :
  ∃ w',
    run 1 [Set_ 0 1%Z; EndOfTask; Wait 5; Set_ 0 2%Z; EndOfTask; Wait 10]
      (watched (Some debounced10)) = Some w'
    ∧ get 0 (watched (Some debounced10)) = Some 0%Z
    ∧ calls w' = calls (watched (Some debounced10)) ++ [(0, user_fn 7, 2%Z, Some 1%Z)]
    ∧ calls w' ≠ calls (watched (Some debounced10)) ++ [(0, user_fn 7, 2%Z, Some 0%Z)].
Proof. eexists. split; [vm_compute; reflexivity|]. by vm_compute. Qed.

(** C3 as the specification states it fails: after a [set] on a muted cell
    nothing is pending, the value is the new one and the last entry of the
    history is the old one. *)
Lemma muted_set_skips_history_counterexample :
  ∃ w',
    run 1 [Mute 0; Set_ 0 1%Z; EndOfTask; Wait 100] (watched None) = Some w'
    ∧ quiescent w'
    ∧ get 0 w' = Some 1%Z
    ∧ (_history <$> cells w' !! 0) ≫= last = Some 0%Z.
Proof. eexists. split; [vm_compute; reflexivity|]. by vm_compute. Qed.

Lemma seal_leaves_timers_pending_witness :
  ∃ w0,
    run 1 [Set_ 0 1%Z; EndOfTask] (watched (Some debounced10)) = Some w0
    ∧ ∃ w1 w2, seal 0 w0 = Some (Returned, w1)
    ∧ timers w1 = [mkTimer 0 10 (debounce_elapsed 0 1%Z 0%Z)]
    ∧ run 1 [Wait 10] w1 = Some w2
    ∧ timers w2 = []
    ∧ calls w2 = calls w0
    ∧ state 0 w2 = Some sealed
    ∧ _history <$> cells w1 !! 0 = Some [0%Z]
    ∧ _history <$> cells w2 !! 0 = Some [0%Z; 1%Z].
Proof.
  eexists. split; [vm_compute; reflexivity|].
  apply (seal_leaves_timers_pending 1 0 _
           (mkObservable unsealed [Listener 7] 1%Z debounced10 [0%Z] (Some 0) None [])
           0 10 1%Z 0%Z 10);
    try (by vm_compute); vm_compute; lia.
Defined.

(** C8 as the specification states it fails: [seal()] called while a
    debounce timer is pending leaves it pending, and 10 ms later the history of
    the sealed cell has one entry more. *)
Lemma seal_keeps_timer_counterexample :
  ∃ w1 w2,
    run 1 [Set_ 0 1%Z; EndOfTask; Seal 0] (watched (Some debounced10)) = Some w1
    ∧ run 1 [Wait 10] w1 = Some w2
    ∧ timers w1 = [mkTimer 0 10 (debounce_elapsed 0 1%Z 0%Z)]
    ∧ state 0 w1 = Some sealed
    ∧ _history <$> cells w1 !! 0 = Some [0%Z]
    ∧ _history <$> cells w2 !! 0 = Some [0%Z; 1%Z].
Proof.
  do 2 eexists. split; [vm_compute; reflexivity|]. split; [vm_compute; reflexivity|].
  by vm_compute.
Qed.

Lemma unsubscribe_removes_every_registration_witness :
  ∃ w,
    run 3 [Subscribe 0 7; Subscribe 0 8; Set_ 0 1%Z; EndOfTask] (watched None) = Some w
    ∧ _subscribers <$> cells w !! 0 = Some [Listener 7; Listener 7; Listener 8]
    ∧ ∃ w1, unsubscribe (0, Listener 7) w = Some w1
        ∧ _subscribers <$> cells w1 !! 0 = Some [Listener 8]
        ∧ ∃ w2, run 3 [Set_ 0 2%Z; EndOfTask; Set_ 0 3%Z; EndOfTask] w1 = Some w2
            ∧ ∃ l, calls w2 = calls w1 ++ l
                ∧ Forall (λ e : call Z, e.1.1 ≠ (0, user_fn 7)) l.
Proof.
  eexists. split; [vm_compute; reflexivity|]. split; [by vm_compute|].
  match goal with |- ∃ w1, unsubscribe _ ?w = _ ∧ _ =>
    destruct (unsubscribe_removes_every_registration 3 0 7 w
                (mkObservable unsealed [Listener 7; Listener 7; Listener 8] 1%Z no_options
                   [0%Z; 1%Z] None None []))
      as (w1 & Hu & Hs & _ & Hr);
      [by vm_compute|by intros k Hk%elem_of_nil|]
  end.
  exists w1. split; [exact Hu|]. split; [exact Hs|].
  vm_compute in Hu. injection Hu as <-.
  eexists. split; [vm_compute; reflexivity|].
  apply (Hr [Set_ 0 2%Z; EndOfTask; Set_ 0 3%Z; EndOfTask]);
    [by repeat constructor|by vm_compute].
Defined.

(** C9 as the specification states it fails: the function [f7] is registered
    twice; [set(1)] calls it for the first registration and is suspended at
    its [await]; the handle is called and the list is empty; when the loop
    resumes it calls [f7] for the second registration. *)
Lemma unsubscribe_in_flight_counterexample :
  ∃ w w1 w2,
    run 2 [Subscribe 0 7; Set_ 0 1%Z] (watched None) = Some w
    ∧ run 2 [Unsubscribe (0, Listener 7)] w = Some w1
    ∧ run 2 [EndOfTask] w1 = Some w2
    ∧ _subscribers <$> cells w !! 0 = Some [Listener 7; Listener 7]
    ∧ _subscribers <$> cells w1 !! 0 = Some []
    ∧ calls w2 = calls w1 ++ [(0, user_fn 7, 1%Z, Some 0%Z)].
Proof.
  do 3 eexists. split; [vm_compute; reflexivity|].
  split; [vm_compute; reflexivity|]. split; [vm_compute; reflexivity|]. by vm_compute.
Qed.

Lemma derivation_runs :
  run 1 [Create 1%Z None; Create 2%Z None; Create 0%Z None; Subscribe 0 7; Subscribe 2 9]
    empty_world = Some derivation.
Proof. by vm_compute. Qed.

Lemma bind_recomputes_until_unbound_witness :
  ∃ us w1, bind 6 2 [0; 1] sum_of derivation = Some (us, w1)
    ∧ get 2 w1 = Some 3%Z
    ∧ (∃ w2, run 6 [EndOfTask] w1 = Some w2
       ∧ ∃ w3, run 6 [Set_ 0 10%Z; EndOfTask] w2 = Some w3
         ∧ get 2 w3 = Some 12%Z
         ∧ ∃ w4, unbind us w3 = Some w4
           ∧ ∃ w5, run 6 [Set_ 0 20%Z; EndOfTask; Set_ 1 30%Z; EndOfTask] w4 = Some w5
             ∧ get 2 w5 = Some 12%Z
             ∧ Forall (λ h, ∃ l, calls w5 = calls w4 ++ l
                           ∧ Forall (λ e : call Z, e.1.1 ≠ (h.1, fn_of h.2)) l) us)
    ∧ (∃ w3 w4, run 6 [Set_ 0 10%Z; EndOfTask] debounced_source = Some w3
       ∧ get 2 w3 = Some 3%Z
       ∧ run 6 [Wait 10] w3 = Some w4
       ∧ get 2 w4 = Some 12%Z).
Proof.
  destruct (bind_recomputes_until_unbound 6 2 [0; 1] sum_of derivation derived_cell
              [1%Z; 2%Z])
    as (us & w1 & Hb & Hg & _ & _ & _ & HB & HD & _ & HC);
    [done|done|by repeat constructor| |done|lia|].
  { rewrite !not_elem_of_cons. repeat split; try done. apply not_elem_of_nil. }
  exists us, w1. split; [exact Hb|]. split; [exact Hg|].
  vm_compute in Hb. injection Hb as <- <-. split.
  - eexists. split; [vm_compute; reflexivity|].
    match goal with |- ∃ w3, run 6 _ ?w2 = _ ∧ _ =>
      destruct (HB w2 0
                  (mkObservable unsealed [Listener 9] 3%Z no_options [0%Z; 3%Z] None None [])
                  (mkObservable unsealed [Listener 7; Recompute 0 2 [0; 1] sum_of] 1%Z
                     no_options [1%Z] None None [])
                  10%Z)
        as (w3 & vals & Hr3 & _ & _ & _);
        [by left|by eexists; vm_compute|by vm_compute|done|by repeat constructor
        |by vm_compute|done|by left|done|done
        |constructor; [by left|constructor; [right; by exists 0|constructor]]
        |apply Exists_cons; right; apply Exists_cons; left; by exists 0
        |done|simpl; lia|]
    end.
    exists w3. split; [exact Hr3|]. vm_compute in Hr3. injection Hr3 as <-.
    split; [by vm_compute|].
    match goal with |- ∃ w4, unbind _ ?w3 = _ ∧ _ =>
      destruct (HC [EndOfTask; Set_ 0 10%Z; EndOfTask] w3) as (w4 & Hu & Hs & _);
        [by vm_compute|by intros k Hk%elem_of_nil|]
    end.
    exists w4. split; [exact Hu|]. vm_compute in Hu. injection Hu as <-.
    eexists. split; [vm_compute; reflexivity|]. split; [by vm_compute|].
    apply Forall_forall. intros h Hh.
    apply (Hs h [Set_ 0 20%Z; EndOfTask; Set_ 1 30%Z; EndOfTask]); [exact Hh|by vm_compute].
  - destruct (HD debounced_source 0
                (mkObservable unsealed [Listener 9] 3%Z no_options [0%Z; 3%Z] None None [])
                (mkObservable unsealed [Recompute 0 2 [0; 1] sum_of] 1%Z debounced10 [1%Z]
                   None None [])
                10%Z 10)
      as (w3 & w4 & vals & Hr3 & _ & Hg3 & Hr4 & _ & _ & _);
      [by left|by eexists; vm_compute|by vm_compute|done|by repeat constructor
      |by vm_compute|done|done|done|done
      |constructor; [right; by exists 0|constructor]
      |apply Exists_cons; left; by exists 0
      |done|simpl; lia|].
    exists w3, w4. split; [exact Hr3|]. vm_compute in Hr3. injection Hr3 as <-.
    split; [by vm_compute|]. split; [exact Hr4|].
    vm_compute in Hr4. injection Hr4 as <-. by vm_compute.
Defined.

(** C7 as the specification states it fails.  The source [a] has a throttle
    of 10 ms and the target is bound to it: [set(5)] recomputes the target and
    opens the window, [set(7)] within the window changes the value of [a] and
    notifies nobody, and the target keeps [compute([5])] with nothing left
    pending.  Likewise a source that is muted when it changes: the target
    keeps [compute([1])] while the source holds 5. *)
Lemma bind_misses_gated_change_counterexample :
  ∃ w w',
    run 4 [Create 1%Z (Some throttled10); Create 0%Z None; Bind 1 [0] sum_of; EndOfTask;
           Set_ 0 5%Z; EndOfTask; Set_ 0 7%Z; EndOfTask; Wait 100] empty_world = Some w
    ∧ get 0 w = Some 7%Z
    ∧ get 1 w = Some 5%Z
    ∧ sum_of [7%Z] = 7%Z
    ∧ quiescent w
    ∧ run 4 [Create 1%Z None; Create 0%Z None; Bind 1 [0] sum_of; EndOfTask;
             Mute 0; Set_ 0 5%Z; EndOfTask; Unmute 0; Wait 100] empty_world = Some w'
    ∧ get 0 w' = Some 5%Z
    ∧ get 1 w' = Some 1%Z
    ∧ sum_of [5%Z] = 5%Z
    ∧ quiescent w'.
Proof.
  do 2 eexists. split; [vm_compute; reflexivity|].
  do 4 (split; [by vm_compute|]).
  split; [vm_compute; reflexivity|]. by vm_compute.
Qed.

(** * Further properties of the cell

    What follows is read off the code beyond the claims above: the order and
    the interleaving of notifications, what [mute] leaves pending, the timers
    and their handles, a sealed cell or target. *)

(** ** The value, the updater and the muted state *)

Section Further.

Context {T : Type} `{EqDecision T}.

Implicit Types (w : world T) (o this : BasicObservable T) (c : nat).

(** X1. [set] assigns the value before any gate of [_notify]: when it returns
    from a cell that is not sealed, [get()] gives the new value, whether the
    cell is muted, inside a throttle window or debounced; the state and the
    subscribers of the cell are as before and no other cell has changed.  The
    subscribers are plain functions. *)
Theorem set_then_get fuel c v w this :
  cells w !! c = Some this → _state this ≠ sealed →
  Forall is_listener (_subscribers this) →
  ∃ w', set fuel c v w = Some (Fulfilled, w')
    ∧ get c w' = Some v
    ∧ state c w' = Some (_state this)
    ∧ _subscribers <$> cells w' !! c = Some (_subscribers this)
    ∧ (∀ c', c' ≠ c → cells w' !! c' = cells w !! c').
Proof.
  intros Hc Hs HA.
  destruct (target_set c fuel v w this Hc Hs HA)
    as (o' & extra & w' & Hset & Hcells & Hv & Hst & Hsub & _).
  assert (c < length (cells w)) by (by eapply lookup_lt_Some).
  exists w'. split; [exact Hset|]. unfold get, state. rewrite Hcells.
  rewrite list_lookup_insert_eq by done. simpl. rewrite Hv, Hst, Hsub.
  repeat split; try done. intros c' Hne. by rewrite list_lookup_insert_ne.
Qed.

(** X2. [update(updater)] where the value the updater returns is strictly
    equal ([===]) to the current one changes nothing and returns: no
    subscriber is called, nothing is pushed and nothing is left pending,
    whatever the state of the cell; on a sealed cell the promise of [set] is
    rejected and dropped.  The premise is about the value returned, not about
    the updater: [NaN], which is strictly equal to no value, is not a value of
    [T], and for a cell that holds it no updater meets the premise. *)
Theorem update_to_same_value fuel c updater w this :
  cells w !! c = Some this → updater (_value this) = _value this →
  update fuel c updater w = Some (Returned, w).
Proof.
  intros Hc Hu. unfold update, get. rewrite Hc. simpl. rewrite Hu.
  unfold set, set_with. rewrite Hc. simpl.
  destruct (decide (_state this = sealed)) as [Hs|Hs].
  - by rewrite check_sealed.
  - rewrite check_not_sealed by done.
    rewrite (modify_id c) by (intros o; rewrite Hc; intros [= <-]; apply with_value_id).
    unfold _notify. rewrite Hc. simpl.
    case_decide; [done|]. by rewrite decide_True.
Qed.

Lemma with_state_id o : with_state (_state o) o = o.
Proof. by destruct o. Qed.

(** X3. [mute()] and [unmute()] write the state only.  On an unsealed cell a
    second [mute()] changes nothing, one [unmute()] after it gives back the
    world as it was before the first, and [unmute()] on a cell that is not
    muted changes nothing. *)
Theorem mute_unmute_round_trip c w this :
  cells w !! c = Some this → _state this = unsealed →
  ∃ w1, mute c w = Some (Returned, w1)
    ∧ state c w1 = Some muted
    ∧ fields <$> cells w1 !! c = Some (fields (with_state muted this))
    ∧ mute c w1 = Some (Returned, w1)
    ∧ unmute c w1 = Some (Returned, w)
    ∧ unmute c w = Some (Returned, w).
Proof.
  intros Hc Hs. unfold mute, unmute, state. rewrite Hc. simpl.
  rewrite check_not_sealed by (by rewrite Hs).
  eexists. split; [done|]. rewrite lookup_modify, Hc. simpl.
  split; [done|]. split; [done|].
  rewrite !modify_modify. split; [|split].
  - done.
  - do 2 f_equal. apply modify_id. intros o. rewrite Hc. intros [= <-]. simpl.
    rewrite <-Hs. by destruct this.
  - do 2 f_equal. apply modify_id. intros o. rewrite Hc. intros [= <-].
    rewrite <-Hs. apply with_state_id.
Qed.

(** X4. A value set while the cell is muted is never delivered.  After
    [mute(); set(v1); unmute()] nobody has been called and nothing but the
    value has changed, however long one waits.  The next [set(v2)] notifies
    with [v1] as the old value, a value no subscriber was given as a new one,
    and the history goes from the value before the mute to [v2]; when
    [v2 === v1] nothing is notified at all. *)
Theorem muted_change_is_never_delivered fuel c v1 v2 ms w this :
  cells w !! c = Some this → _state this = unsealed →
  truthy (throttle (_options this)) = None →
  truthy (debounce (_options this)) = None →
  quiescent w →
  Forall is_listener (_subscribers this) →
  length (_subscribers this) ≤ fuel →
  ∃ w1 w2,
    run fuel [Mute c; Set_ c v1; EndOfTask; Unmute c; Wait ms] w = Some w1
    ∧ w1 = with_clock (clock w + ms) (with_cells (<[c:=with_value v1 this]> (cells w)) w)
    ∧ run fuel [Set_ c v2; EndOfTask] w1 = Some w2
    ∧ get c w2 = Some v2
    ∧ calls w2
      = calls w ++ (if decide (v2 = v1) then []
                    else notifications c (_subscribers this) v2 v1)
    ∧ _history <$> cells w2 !! c
      = Some (_history this ++ if decide (v2 = v1) then [] else [v2]).
Proof.
  intros Hc Hs Ht Hd [Htm Hq] HA Hn.
  assert (c < length (cells w)) as Hlt by (by eapply lookup_lt_Some).
  set (w1 := with_clock (clock w + ms) (with_cells (<[c:=with_value v1 this]> (cells w)) w)).
  assert (run fuel [Mute c; Set_ c v1; EndOfTask; Unmute c; Wait ms] w = Some w1) as Hr1.
  { simpl. unfold mute. rewrite Hc. simpl. rewrite check_not_sealed by (by rewrite Hs).
    simpl. rewrite (set_muted _ _ _ _ (with_state muted this))
      by (by rewrite ?lookup_modify, ?Hc). simpl.
    rewrite drain_nil by done. simpl.
    unfold unmute. rewrite !lookup_modify, Hc. simpl.
    rewrite advance_idle by (simpl; by rewrite ?Htm). simpl.
    rewrite !modify_modify. rewrite (modify_lookup _ _ _ _ Hc). simpl.
    unfold w1. do 3 f_equal. rewrite <-Hs. by destruct this. }
  assert (cells w1 !! c = Some (with_value v1 this)) as Hc1
    by (simpl; by rewrite list_lookup_insert_eq).
  exists w1. destruct (decide (v2 = v1)) as [->|Hne].
  - exists w1. split; [done|]. split; [done|].
    assert (set fuel c v1 w1 = Some (Fulfilled, w1)) as Hset.
    { unfold set, set_with. rewrite Hc1. simpl.
      rewrite check_not_sealed by (simpl; by rewrite Hs).
      rewrite (modify_id c) by (intros o; rewrite Hc1; by intros [= <-]).
      unfold _notify. rewrite Hc1. simpl. rewrite decide_False by (by rewrite Hs).
      by rewrite decide_True. }
    split; [simpl; rewrite Hset; simpl; by rewrite drain_nil|].
    unfold get. rewrite Hc1. simpl. by rewrite !app_nil_r.
  - eexists. split; [done|]. split; [done|].
    split; [by apply (set_notifies fuel c v2 w1 (with_value v1 this))|].
    unfold get. simpl. rewrite list_insert_insert_eq, list_lookup_insert_eq by done. done.
Qed.

(** The only pending timer is a debounce timer of [c]: when it is due the
    listeners are called with the arguments it holds, whatever the state of
    the cell. *)
Lemma lone_debounce_fires fuel c w o id at_ v ov e :
  cells w !! c = Some o →
  microtasks w = [] →
  timers w = [mkTimer id at_ (debounce_elapsed c v ov)] →
  clock w < at_ → at_ ≤ clock w + e →
  Forall is_listener (_subscribers o) →
  length (_subscribers o) ≤ fuel →
  run fuel [Wait e] w
  = Some (mkWorld (<[c:=push_history v o]> (cells w)) [] (next_timer w) (next_closure w)
            (clock w + e) [] (calls w ++ notifications c (_subscribers o) v ov)).
Proof.
  intros Hc Hq Htm Hlt Hle HA Hn. simpl.
  rewrite (advance_fires fuel e _ (mkTimer id at_ (debounce_elapsed c v ov))
             (mkWorld (<[c:=push_history v o]> (cells w)) [] (next_timer w) (next_closure w)
                at_ [] (calls w ++ notifications c (_subscribers o) v ov)));
    [done|done|done|done|done| |done|done|done].
  cbn [callback due cells timers next_timer next_closure clock microtasks calls run_timer].
  by rewrite (cycle fuel c v ov _ o).
Qed.

(** X5. [mute()] does not stop a debounced notification that is pending: the
    callback of the timer does not look at the state, and the subscribers are
    called when the timer fires, the cell being muted. *)
Theorem mute_leaves_debounce_timer fuel c v w this d e :
  cells w !! c = Some this → _state this = unsealed →
  truthy (throttle (_options this)) = None →
  truthy (debounce (_options this)) = Some d →
  quiescent w →
  v ≠ _value this →
  Forall is_listener (_subscribers this) →
  length (_subscribers this) ≤ fuel →
  d ≤ e →
  ∃ w1 w2,
    run fuel [Set_ c v; EndOfTask; Mute c] w = Some w1
    ∧ state c w1 = Some muted
    ∧ calls w1 = calls w
    ∧ run fuel [Wait e] w1 = Some w2
    ∧ state c w2 = Some muted
    ∧ calls w2 = calls w ++ notifications c (_subscribers this) v (_value this)
    ∧ _history <$> cells w2 !! c = Some (_history this ++ [v]).
Proof.
  intros Hc Hs Ht Hd Hq Hv HA Hn He.
  assert (c < length (cells w)) as Hlt by (by eapply lookup_lt_Some).
  pose proof (truthy_Some _ _ Hd) as Hpos.
  pose proof (debouncing_first fuel c w this d Hc Hs Ht Hd v Hq Hv) as H1.
  set (o := with_debounceTimeout (Some (next_timer w)) (with_value v this)).
  set (w1 := modify c (with_state muted) (debouncing c w this d (next_timer w) (clock w) v (_value this))).
  assert (cells w1 !! c = Some (with_state muted o)) as Hc1.
  { unfold w1. rewrite lookup_modify. simpl. by rewrite list_lookup_insert_eq. }
  assert (run fuel [Set_ c v; EndOfTask; Mute c] w = Some w1) as Hr1.
  { change [Set_ c v; EndOfTask; Mute c] with ([Set_ c v; EndOfTask] ++ [Mute c]).
    rewrite run_app, H1. simpl. unfold mute. simpl.
    rewrite list_lookup_insert_eq by done. simpl.
    by rewrite check_not_sealed by (simpl; by rewrite Hs). }
  exists w1. eexists. split; [done|]. unfold state. rewrite Hc1. split; [done|].
  split; [done|]. split.
  { apply (lone_debounce_fires fuel c w1 (with_state muted o) (next_timer w) (clock w + d)
             v (_value this) e); try done; simpl; lia. }
  simpl. rewrite list_lookup_insert_eq by (by rewrite length_alter, length_insert).
  done.
Qed.

End Further.

(** ** Several calls in one task *)

Section Tasks.

Context {T : Type} `{EqDecision T}.

Implicit Types (w : world T) (o this : BasicObservable T) (c : nat).

(** The pairs [(newValue, oldValue)] of successive calls [set(v)] for the
    values [vs], made when the value is [ov]. *)
Fixpoint handovers (ov : T) (vs : list T) : list (T * T) :=
  match vs with
  | [] => []
  | v :: vs => (v, ov) :: handovers v vs
  end.

(** The loops of [c] over its [g]-th array that stand at index [i], one for
    every pair. *)
Definition loops (c g i : nat) (ps : list (T * T)) : list (continuation T) :=
  (λ p, mkContinuation c g i p.1 p.2) <$> ps.

(** The calls of the subscriber [s] of [c], one for every pair. *)
Definition deliveries (c : nat) (ps : list (T * T)) (s : Subscriber T) : list (call T) :=
  (λ p, (c, fn_of s, p.1, Some p.2)) <$> ps.

Lemma handovers_fst ov vs : (handovers ov vs).*1 = vs.
Proof. revert ov. induction vs as [|v vs IH]; intros ov; simpl; [done|]. by rewrite IH. Qed.

(** [set] on a cell that notifies at once: the first subscriber is called
    and the loop is suspended. *)
Lemma set_starts_loop fuel c v w o n A :
  cells w !! c = Some o → _state o = unsealed →
  truthy (throttle (_options o)) = None →
  truthy (debounce (_options o)) = None →
  v ≠ _value o →
  _subscribers o = Listener n :: A →
  set fuel c v w
  = Some (Fulfilled,
          mkWorld (<[c:=with_value v o]> (cells w)) (timers w) (next_timer w)
            (next_closure w) (clock w)
            (microtasks w ++ [mkContinuation c (length (_replaced o)) 1 v (_value o)])
            (calls w ++ [(c, user_fn n, v, Some (_value o))])).
Proof.
  intros Hc Hs Ht Hd Hv HA. unfold set, set_with. rewrite Hc. simpl.
  rewrite check_not_sealed by (by rewrite Hs).
  unfold _notify. rewrite lookup_modify, Hc. simpl.
  rewrite decide_False by (by rewrite Hs). rewrite decide_False by done.
  unfold throttle_gate. simpl. rewrite Ht, Hd.
  unfold for_of, iterate. rewrite lookup_modify, Hc. simpl.
  rewrite list_lookup_alter_eq, Hc. simpl.
  unfold array_of. simpl. rewrite decide_True by done. rewrite HA. simpl.
  rewrite invoke_listener. simpl. by rewrite (modify_lookup _ _ _ _ Hc).
Qed.

(** With no subscriber the value is pushed at once. *)
Lemma set_without_subscribers fuel c v w o :
  cells w !! c = Some o → _state o = unsealed →
  truthy (throttle (_options o)) = None →
  truthy (debounce (_options o)) = None →
  v ≠ _value o →
  _subscribers o = [] →
  set fuel c v w
  = Some (Fulfilled, with_cells (<[c:=push_history v (with_value v o)]> (cells w)) w).
Proof.
  intros Hc Hs Ht Hd Hv HA. unfold set, set_with. rewrite Hc. simpl.
  rewrite check_not_sealed by (by rewrite Hs).
  unfold _notify. rewrite lookup_modify, Hc. simpl.
  rewrite decide_False by (by rewrite Hs). rewrite decide_False by done.
  unfold throttle_gate. simpl. rewrite Ht, Hd.
  unfold for_of, iterate. rewrite lookup_modify, Hc. simpl.
  rewrite list_lookup_alter_eq, Hc. simpl.
  unfold array_of. simpl. rewrite decide_True by done. rewrite HA. simpl.
  rewrite modify_modify. by rewrite (modify_lookup _ _ _ _ Hc).
Qed.

(** The calls [set(v)] for the values [vs], one after the other in one task. *)
Definition sets (c : nat) (vs : list T) : list (event T) := Set_ c <$> vs.

Lemma default_last_cons (d v : T) vs : default d (last (v :: vs)) = default v (last vs).
Proof.
  destruct vs as [|x vs]; [done|]. rewrite last_cons_cons.
  destruct (last (x :: vs)) eqn:E; [done|]. by apply last_None in E.
Qed.

Lemma sets_start_loops fuel c vs w o n A :
  cells w !! c = Some o → _state o = unsealed →
  truthy (throttle (_options o)) = None →
  truthy (debounce (_options o)) = None →
  changes (_value o) vs →
  _subscribers o = Listener n :: A →
  run fuel (sets c vs) w
  = Some (mkWorld (<[c:=with_value (default (_value o) (last vs)) o]> (cells w))
            (timers w) (next_timer w) (next_closure w) (clock w)
            (microtasks w ++ loops c (length (_replaced o)) 1 (handovers (_value o) vs))
            (calls w ++ deliveries c (handovers (_value o) vs) (Listener n))).
Proof.
  revert w o. induction vs as [|v vs IH]; intros w o Hc Hs Ht Hd Hvs HA.
  - simpl. rewrite with_value_id, list_insert_id, !app_nil_r by done. by destruct w.
  - destruct Hvs as [Hv Hvs]. simpl.
    rewrite (set_starts_loop fuel c v w o n A) by done. simpl.
    assert (c < length (cells w)) as Hlt by (by eapply lookup_lt_Some).
    fold (sets c vs).
    rewrite (IH _ (with_value v o)); simpl; try done;
      [|by apply list_lookup_insert_eq].
    rewrite list_insert_insert_eq, <-!app_assoc, default_last_cons. done.
Qed.

Lemma sets_push fuel c vs w o :
  cells w !! c = Some o → _state o = unsealed →
  truthy (throttle (_options o)) = None →
  truthy (debounce (_options o)) = None →
  changes (_value o) vs →
  _subscribers o = [] →
  run fuel (sets c vs) w
  = Some (with_cells
            (<[c:=with_history (_history o ++ vs)
                    (with_value (default (_value o) (last vs)) o)]> (cells w)) w).
Proof.
  revert w o. induction vs as [|v vs IH]; intros w o Hc Hs Ht Hd Hvs HA.
  - simpl. rewrite app_nil_r. f_equal.
    rewrite list_insert_id; [by destruct w|]. rewrite Hc. f_equal. by destruct o.
  - destruct Hvs as [Hv Hvs]. simpl.
    rewrite (set_without_subscribers fuel c v w o) by done. simpl.
    assert (c < length (cells w)) as Hlt by (by eapply lookup_lt_Some).
    fold (sets c vs).
    rewrite (IH _ (push_history v (with_value v o))); simpl; try done;
      [|by apply list_lookup_insert_eq].
    unfold with_cells. simpl.
    rewrite list_insert_insert_eq, <-app_assoc, default_last_cons. done.
Qed.

(** One round of the microtask queue: every loop that stands at the index
    [i] calls the [i]-th subscriber and is queued again behind the others. *)
Lemma round fuel c g i n ps :
  ∀ m rest w o,
    cells w !! c = Some o →
    array_of o g !! i = Some (Listener n) →
    microtasks w = loops c g i ps ++ rest →
    drain_turns (length ps + m) fuel w
    = drain_turns m fuel
        (mkWorld (cells w) (timers w) (next_timer w) (next_closure w) (clock w)
           (rest ++ loops c g (S i) ps)
           (calls w ++ deliveries c ps (Listener n))).
Proof.
  induction ps as [|p ps IH]; intros m rest w o Hc Hi Hq.
  - simpl in *. rewrite !app_nil_r, <-Hq. by destruct w.
  - simpl in *. rewrite Hq. unfold iterate. simpl. rewrite Hc. simpl. rewrite Hi.
    rewrite invoke_listener. simpl.
    rewrite (IH m (rest ++ [mkContinuation c g (S i) p.1 p.2]) _ o); simpl;
      [|done|done|by rewrite <-app_assoc].
    by rewrite <-!app_assoc.
Qed.

(** The last round: every loop has reached the end of the array and pushes
    its value. *)
Lemma last_round fuel c g i ps :
  ∀ m rest w o,
    cells w !! c = Some o →
    array_of o g !! i = None →
    microtasks w = loops c g i ps ++ rest →
    drain_turns (length ps + m) fuel w
    = drain_turns m fuel
        (mkWorld (<[c:=with_history (_history o ++ ps.*1) o]> (cells w))
           (timers w) (next_timer w) (next_closure w) (clock w) rest (calls w)).
Proof.
  induction ps as [|p ps IH]; intros m rest w o Hc Hi Hq.
  - simpl in *. rewrite app_nil_r, <-Hq. f_equal.
    rewrite list_insert_id; [by destruct w|]. rewrite Hc. f_equal. by destruct o.
  - simpl in *. rewrite Hq. unfold iterate. simpl. rewrite Hc. simpl. rewrite Hi.
    assert (c < length (cells w)) as Hlt by (by eapply lookup_lt_Some).
    cbn [mbind option_bind].
    rewrite (IH m rest _ (with_history (_history o ++ [p.1]) o)); simpl;
      [|by rewrite list_lookup_alter_eq, Hc|done|done].
    rewrite (list_alter_insert _ _ _ _ Hc), list_insert_insert_eq.
    by rewrite <-app_assoc.
Qed.

(** The loops of successive calls, all at the index [i] of an array of
    listeners, run to their end: the subscribers that remain are called one
    after the other, each for every pair, and the values are pushed. *)
Lemma rounds fuel c g A ps k :
  ∀ i m w o,
    length A - i = k →
    cells w !! c = Some o →
    (∀ o', _subscribers o' = _subscribers o → _replaced o' = _replaced o →
           array_of o' g = A) →
    Forall is_listener A →
    microtasks w = loops c g i ps →
    drain_turns (S k * length ps + m) fuel w
    = drain_turns m fuel
        (mkWorld (<[c:=with_history (_history o ++ ps.*1) o]> (cells w))
           (timers w) (next_timer w) (next_closure w) (clock w) []
           (calls w ++ (drop i A ≫= deliveries c ps))).
Proof.
  induction k as [|k IH]; intros i m w o Hk Hc Harr HA Hq.
  - rewrite drop_ge by lia. simpl. rewrite !Nat.add_0_r, app_nil_r.
    apply (last_round fuel c g i ps m [] w o); [done| |by rewrite app_nil_r].
    rewrite (Harr o) by done. apply lookup_ge_None. lia.
  - assert (is_Some (A !! i)) as [s Hs] by (apply lookup_lt_is_Some; lia).
    assert (is_listener s) as Hl by (by eapply Forall_lookup_1).
    destruct s as [n|]; [|done].
    replace (S (S k) * length ps + m) with (length ps + (S k * length ps + m)) by lia.
    rewrite (round fuel c g i n ps _ [] w o); [|done|by rewrite (Harr o)|by rewrite app_nil_r].
    rewrite (IH (S i) m _ o); simpl; [|lia|done|done|done|done].
    rewrite (drop_S _ _ _ Hs). simpl. by rewrite <-app_assoc.
Qed.

Lemma rounds_done fuel c g A ps i n w o :
  S (length A - i) * length ps ≤ n →
  cells w !! c = Some o →
  (∀ o', _subscribers o' = _subscribers o → _replaced o' = _replaced o →
         array_of o' g = A) →
  Forall is_listener A →
  microtasks w = loops c g i ps →
  drain_turns n fuel w
  = Some (mkWorld (<[c:=with_history (_history o ++ ps.*1) o]> (cells w))
            (timers w) (next_timer w) (next_closure w) (clock w) []
            (calls w ++ (drop i A ≫= deliveries c ps))).
Proof.
  intros Hn Hc Harr HA Hq.
  replace n with (S (length A - i) * length ps + (n - S (length A - i) * length ps)) by lia.
  rewrite (rounds fuel c g A ps (length A - i) i _ w o) by done.
  by rewrite drain_turns_nil.
Qed.

Lemma handovers_length ov vs : length (handovers ov vs) = length vs.
Proof. by rewrite <-(handovers_fst ov vs) at 2; rewrite length_fmap. Qed.

(** X6. Several calls of [set] in one task, on a cell with no throttle and no
    debounce whose subscribers are plain functions.  Every subscriber
    receives every value, in the order of the calls, but the deliveries go
    subscriber by subscriber: the first subscriber has been given the last
    value before the second is given the first.  The history receives the
    values in the order of the calls. *)
Theorem sets_in_one_task_interleave fuel c vs w this :
  cells w !! c = Some this → _state this = unsealed →
  truthy (throttle (_options this)) = None →
  truthy (debounce (_options this)) = None →
  microtasks w = [] →
  changes (_value this) vs →
  Forall is_listener (_subscribers this) →
  length (_subscribers this) * length vs ≤ fuel →
  ∃ w', run fuel (sets c vs ++ [EndOfTask]) w = Some w'
    ∧ calls w'
      = calls w ++ (_subscribers this ≫= deliveries c (handovers (_value this) vs))
    ∧ get c w' = Some (default (_value this) (last vs))
    ∧ _history <$> cells w' !! c = Some (_history this ++ vs)
    ∧ microtasks w' = [].
Proof.
  intros Hc Hs Ht Hd Hq Hvs HA Hn.
  assert (c < length (cells w)) as Hlt by (by eapply lookup_lt_Some).
  rewrite run_app. destruct (_subscribers this) as [|s A] eqn:HS.
  - rewrite (sets_push fuel c vs w this) by done. simpl.
    rewrite drain_nil by done. eexists. split; [done|]. simpl.
    unfold get. simpl. rewrite list_lookup_insert_eq by done. simpl.
    by rewrite app_nil_r.
  - apply Forall_cons in HA as [Hl HA']. destruct s as [n|]; [|done].
    rewrite (sets_start_loops fuel c vs w this n A) by done. simpl.
    unfold drain. rewrite Hq. simpl in Hn.
    set (ps := handovers (_value this) vs).
    set (o := with_value (default (_value this) (last vs)) this).
    rewrite (rounds_done fuel c (length (_replaced this)) (Listener n :: A) ps 1 fuel _ o);
      [|unfold ps; rewrite handovers_length; simpl; lia
       |simpl; by apply list_lookup_insert_eq| |by constructor|done].
    + eexists. split; [done|]. simpl.
      unfold get. rewrite list_insert_insert_eq, list_lookup_insert_eq by done. simpl.
      rewrite drop_0, <-app_assoc. unfold ps. rewrite handovers_fst.
      by rewrite list_lookup_insert_eq by done.
    + intros o' Hs' Hr'. unfold array_of. rewrite Hs', Hr'. simpl.
      by rewrite decide_True.
Qed.

(** X7. A function subscribed while a notification is under way is called
    twice for that value: by [subscribe], with the penultimate entry of the
    history as the old value, and by the loop under way, which reads the
    array that [subscribe] has pushed it on. *)
Theorem subscriber_added_in_flight fuel c v n w this s A :
  cells w !! c = Some this → _state this = unsealed →
  truthy (throttle (_options this)) = None →
  truthy (debounce (_options this)) = None →
  microtasks w = [] →
  v ≠ _value this →
  _subscribers this = s :: A →
  Forall is_listener (s :: A) →
  length A + 2 ≤ fuel →
  ∃ w', run fuel [Set_ c v; Subscribe c n; EndOfTask] w = Some w'
    ∧ calls w'
      = calls w ++ [(c, fn_of s, v, Some (_value this));
                    (c, user_fn n, v, penultimate (_history this))]
          ++ notifications c (A ++ [Listener n]) v (_value this)
    ∧ _subscribers <$> cells w' !! c = Some (s :: A ++ [Listener n])
    ∧ _history <$> cells w' !! c = Some (_history this ++ [v]).
Proof.
  intros Hc Hs Ht Hd Hq Hv HS HA Hn.
  assert (c < length (cells w)) as Hlt by (by eapply lookup_lt_Some).
  apply Forall_cons in HA as [Hl HA']. destruct s as [m|]; [|done].
  simpl. rewrite (set_starts_loop fuel c v w this m A) by done. simpl.
  unfold subscribe. simpl. rewrite list_lookup_insert_eq by done. simpl.
  rewrite invoke_listener. simpl.
  unfold drain. rewrite Hq. simpl.
  set (o := push_subscriber (Listener n) (with_value v this)).
  set (k := mkContinuation c (length (_replaced this)) 1 v (_value this)).
  assert (array_of o (k_array k) = Listener m :: A ++ [Listener n]) as Harr.
  { unfold array_of. simpl. rewrite decide_True by done. by rewrite HS. }
  match goal with |- context [drain_turns fuel fuel ?u] =>
    pose proof (drain_loop fuel fuel u k o) as Hdl end.
  rewrite Harr in Hdl. rewrite Hdl; clear Hdl;
    [|done|simpl; by rewrite list_lookup_alter_eq, list_lookup_insert_eq
     |constructor; [done|apply Forall_app; split; [done|by repeat constructor]]
     |simpl; rewrite length_app; simpl; lia].
  eexists. split; [done|]. simpl.
  rewrite (list_alter_insert_eq _ _ _ _ _ Hc), list_insert_insert_eq.
  rewrite list_lookup_insert_eq by done. simpl. rewrite HS.
  rewrite drop_0, <-!app_assoc. done.
Qed.

End Tasks.

(** ** A sealed cell is silent *)

Section Inert.

Context {T : Type} `{EqDecision T}.

Implicit Types (w : world T) (o this : BasicObservable T) (k : continuation T).

Variable c : nat.

(** The cell [c] is sealed, no debounce timer of [c] is pending and no loop of
    [c] is suspended. *)
Definition inert w : Prop :=
  (∃ o, cells w !! c = Some o ∧ _state o = sealed)
  ∧ (∀ t v ov, t ∈ timers w → callback t ≠ debounce_elapsed c v ov)
  ∧ (∀ k, k ∈ microtasks w → k_this k ≠ c).

(** No call made from [w] to [w'] is a call of a subscriber of [c]. *)
Definition hush w w' : Prop :=
  ∃ l, calls w' = calls w ++ l ∧ Forall (λ e : call T, e.1.1.1 ≠ c) l.

(** Every event but a subscription to [c], by [subscribe] or by [bind]. *)
Definition avoids (e : event T) : Prop :=
  match e with
  | Subscribe c' _ => c' ≠ c
  | Bind _ ds _ => c ∉ ds
  | _ => True
  end.

Definition mum (inv : nat → Subscriber T → T → option T → world T → option (world T)) : Prop :=
  ∀ c' s nv ov w w', c' ≠ c → inert w → inv c' s nv ov w = Some w' → inert w' ∧ hush w w'.

Lemma hush_refl w : hush w w.
Proof. exists []. by rewrite app_nil_r. Qed.

Lemma hush_trans w1 w2 w3 : hush w1 w2 → hush w2 w3 → hush w1 w3.
Proof.
  intros (l1 & H1 & F1) (l2 & H2 & F2). exists (l1 ++ l2).
  rewrite H2, H1, app_assoc. split; [done|by apply Forall_app].
Qed.

Lemma hush_calls w w' : calls w' = calls w → hush w w'.
Proof. intros Hw. exists []. by rewrite app_nil_r. Qed.

Lemma inert_fields w w' :
  cells w' = cells w → timers w' = timers w → microtasks w' = microtasks w →
  inert w → inert w'.
Proof. unfold inert. by intros -> -> ->. Qed.

Lemma inert_modify c' g w :
  (∀ o, _state o = sealed → _state (g o) = sealed) → inert w → inert (modify c' g w).
Proof.
  intros Hg ((o & Ho & Hs) & Ht & Hq). split; [|done].
  destruct (decide (c' = c)) as [->|Hne].
  - exists (g o). rewrite lookup_modify, Ho. split; [done|by apply Hg].
  - exists o. by rewrite lookup_modify_ne.
Qed.

Lemma inert_modify_ne c' g w : c' ≠ c → inert w → inert (modify c' g w).
Proof.
  intros Hne ((o & Ho & Hs) & Ht & Hq). split; [|done].
  exists o. by rewrite lookup_modify_ne.
Qed.

Lemma inert_timers ts w :
  (∀ t, t ∈ ts → t ∈ timers w) → inert w → inert (with_timers ts w).
Proof. intros Hts (Ho & Ht & Hq). split; [done|]. split; [|done]. simpl. eauto. Qed.

Lemma inert_clearTimeout id w : inert w → inert (clearTimeout id w).
Proof. apply inert_timers. by intros t [_ ?]%list_elem_of_filter. Qed.

Lemma inert_setTimeout cb d w :
  (∀ v ov, cb ≠ debounce_elapsed c v ov) → inert w → inert (setTimeout cb d w).2.
Proof.
  intros Hcb (Ho & Ht & Hq). split; [done|]. split; [|done]. simpl.
  intros t v ov [Hin|Hin%list_elem_of_singleton]%elem_of_app; [eauto|]. subst. simpl. auto.
Qed.

Lemma inert_sealed w o : inert w → cells w !! c = Some o → _state o = sealed.
Proof. intros ((o' & Ho' & Hs) & _) Ho. congruence. Qed.

Section InertInvoke.

Variable inv : nat → Subscriber T → T → option T → world T → option (world T).
Hypothesis inv_mum : mum inv.

Lemma iterate_inert k w w' :
  k_this k ≠ c → inert w → iterate inv k w = Some w' → inert w' ∧ hush w w'.
Proof.
  unfold iterate. intros Hk Hw Hi.
  destruct (cells w !! k_this k) as [this|] eqn:Hc; simplify_eq/=.
  destruct (array_of this (k_array k) !! k_index k) as [s|] eqn:Hs; simplify_eq/=.
  - destruct (inv _ _ _ _ w) as [w1|] eqn:Hi1; simplify_eq/=.
    destruct (inv_mum _ _ _ _ _ _ Hk Hw Hi1) as [(Ho & Ht & Hq) Hh].
    split; [|eapply hush_trans; [done|by apply hush_calls]].
    split; [done|]. split; [done|]. simpl.
    intros k' [Hin|Hin%list_elem_of_singleton]%elem_of_app; [auto|by subst].
  - split; [by apply inert_modify_ne|by apply hush_calls].
Qed.

Lemma for_of_inert c' nv ov w w' :
  c' ≠ c → inert w → for_of inv c' nv ov w = Some w' → inert w' ∧ hush w w'.
Proof.
  unfold for_of. intros Hne Hw Hf.
  destruct (cells w !! c') as [this|] eqn:Hc; simplify_eq/=.
  eapply iterate_inert; [|done|done]. done.
Qed.

Lemma throttle_gate_inert c' this w w' :
  inert w → throttle_gate c' this w = Some w' → inert w' ∧ hush w w'.
Proof.
  unfold throttle_gate. intros Hw Hg.
  destruct (truthy _); [|simplify_eq; split; [done|apply hush_refl]].
  destruct (_throttleTimeout this); simplify_eq/=.
  split; [|by apply hush_calls].
  apply inert_modify; [done|]. by apply (inert_setTimeout (throttle_expired c')).
Qed.

Lemma _notify_inert c' nv ov w w' :
  c' ≠ c → inert w → _notify inv c' nv ov w = Some w' → inert w' ∧ hush w w'.
Proof.
  unfold _notify. intros Hne Hw Hn.
  destruct (cells w !! c') as [this|]; simplify_eq/=.
  repeat case_decide; simplify_eq; try (split; [done|apply hush_refl]).
  destruct (throttle_gate c' this w) as [w1|] eqn:Hg;
    [|simplify_eq; split; [done|apply hush_refl]].
  destruct (throttle_gate_inert _ _ _ _ Hw Hg) as [Hw1 Hq1].
  destruct (truthy (debounce _)).
  - assert (∀ u, inert u →
              inert (modify c' (with_debounceTimeout (Some (next_timer u)))
                       (setTimeout (debounce_elapsed c' nv ov) n u).2)) as Hstart.
    { intros u Hu. apply inert_modify_ne; [done|]. apply inert_setTimeout; [|done].
      intros v ov' [=]. done. }
    destruct (_debounceTimeout this); simplify_eq/=;
      (split; [|eapply hush_trans; [done|by apply hush_calls]]).
    + by apply (Hstart (clearTimeout _ w1)), inert_clearTimeout.
    + by apply (Hstart w1).
  - destruct (for_of_inert _ _ _ _ _ Hne Hw1 Hn) as [Hw2 Hq2].
    split; [done|by eapply hush_trans].
Qed.

Lemma set_with_inert c' v w r w' :
  inert w → set_with inv c' v w = Some (r, w') → inert w' ∧ hush w w'.
Proof.
  unfold set_with. intros Hw Hs.
  destruct (cells w !! c') as [this|] eqn:Hc; simplify_eq/=.
  destruct (_checkForSealedMutationError this) eqn:He; simplify_eq/=;
    [split; [done|apply hush_refl]|].
  destruct (_notify _ _ _ _ _) as [w2|] eqn:Hn; simplify_eq/=.
  assert (c' ≠ c) as Hne.
  { intros ->. rewrite check_sealed in He; [done|]. by eapply inert_sealed. }
  eapply _notify_inert in Hn as [Hw2 Hq2]; [|done|by apply inert_modify_ne].
  split; [done|]. eapply hush_trans; [|done]. by apply hush_calls.
Qed.

Lemma run_timer_inert cb w w' :
  (∀ v ov, cb ≠ debounce_elapsed c v ov) →
  inert w → run_timer inv cb w = Some w' → inert w' ∧ hush w w'.
Proof.
  destruct cb as [c'|c' nv ov]; simpl; intros Hcb Hw Hr.
  - destruct (cells w !! c') as [this|]; simplify_eq/=.
    split; [|destruct (_throttleTimeout this); by apply hush_calls].
    apply inert_modify; [done|].
    destruct (_throttleTimeout this); [by apply inert_clearTimeout|done].
  - eapply for_of_inert; [|done|done]. intros ->. by eapply Hcb.
Qed.

End InertInvoke.

Lemma invoke_mum fuel : mum (invoke fuel).
Proof.
  induction fuel as [|fuel IH]; intros c' s nv ov w w' Hs Hw; destruct s as [n|k t ds f];
    simpl; intros Hi; simplify_eq.
  - split; [by eapply inert_fields|].
    exists [(c', user_fn n, nv, ov)]. split; [done|]. by repeat constructor.
  - split; [by eapply inert_fields|].
    exists [(c', user_fn n, nv, ov)]. split; [done|]. by repeat constructor.
  - destruct (values_of ds _) as [args|]; simplify_eq/=.
    destruct (set_with _ _ _ _) as [[r w2]|] eqn:Hset; simplify_eq/=.
    eapply set_with_inert in Hset as [Hw2 Hq2]; [|done|by eapply inert_fields].
    split; [done|]. eapply hush_trans; [|done].
    exists [(c', bind_fn k, nv, ov)]. split; [done|]. by repeat constructor.
Qed.

Lemma set_inert fuel c' v w r w' :
  inert w → set fuel c' v w = Some (r, w') → inert w' ∧ hush w w'.
Proof. apply set_with_inert, invoke_mum. Qed.

Lemma drain_turns_inert n fuel w w' :
  inert w → drain_turns n fuel w = Some w' → inert w' ∧ hush w w'.
Proof.
  revert w. induction n as [|n IH]; intros w Hw; simpl;
    destruct (microtasks w) as [|k queue] eqn:Hq; intros Hd; simplify_eq;
    try (split; [done|apply hush_refl]).
  destruct (iterate _ _ _) as [w1|] eqn:Hi; simplify_eq/=.
  assert (k_this k ≠ c ∧ inert (with_microtasks queue w)) as [Hk Hw0].
  { destruct Hw as (Ho & Ht & Hm). rewrite Hq in Hm. split; [apply Hm; by left|].
    split; [done|]. split; [done|]. simpl. intros k' Hin. apply Hm. by right. }
  eapply iterate_inert in Hi as [Hw1 Hq1]; [|apply invoke_mum|done|done].
  destruct (IH _ Hw1 Hd) as [Hw2 Hq2]. split; [done|].
  eapply hush_trans; [|done]. eapply hush_trans; [|done]. by apply hush_calls.
Qed.

Lemma drain_inert fuel w w' :
  inert w → drain fuel w = Some w' → inert w' ∧ hush w w'.
Proof. apply drain_turns_inert. Qed.

Lemma pending_elem id w t : pending id w = Some t → t ∈ timers w.
Proof.
  unfold pending. intros Hp. apply head_Some in Hp as [l Hl].
  assert (t ∈ filter (λ t, timer_id t = id) (timers w)) as Hin by (rewrite Hl; by left).
  by apply list_elem_of_filter in Hin as [_ ?].
Qed.

Lemma fire_inert fuel ids w w' :
  inert w → fire fuel ids w = Some w' → inert w' ∧ hush w w'.
Proof.
  revert w. induction ids as [|id ids IH]; intros w Hw; simpl; intros Hf; simplify_eq;
    [split; [done|apply hush_refl]|].
  destruct (pending id w) as [t|] eqn:Hp; [|by apply IH].
  destruct (run_timer _ _ _) as [w1|] eqn:Hr; simplify_eq/=.
  destruct (drain fuel w1) as [w2|] eqn:Hd; simplify_eq/=.
  eapply run_timer_inert in Hr as [Hw1 Hq1];
    [|apply invoke_mum| |by apply inert_clearTimeout].
  - destruct (drain_inert _ _ _ Hw1 Hd) as [Hw2 Hq2].
    destruct (IH _ Hw2 Hf) as [Hw3 Hq3]. split; [done|].
    eapply hush_trans; [|done]. eapply hush_trans; [|done].
    eapply hush_trans; [|done]. by apply hush_calls.
  - intros v ov. destruct Hw as (_ & Ht & _). apply Ht. by eapply pending_elem.
Qed.

Lemma tick_inert fuel w w' :
  inert w → tick fuel w = Some w' → inert w' ∧ hush w w'.
Proof.
  unfold tick. intros Hw Ht.
  destruct (drain fuel w) as [w0|] eqn:Hd; simplify_eq/=.
  destruct (drain_inert _ _ _ Hw Hd) as [Hw0 Hq0].
  eapply fire_inert in Ht as [Hw1 Hq1]; [|by eapply inert_fields; [..|exact Hw0]].
  split; [done|]. eapply hush_trans; [done|].
  eapply hush_trans; [|done]. by apply hush_calls.
Qed.

Lemma advance_inert fuel ms w w' :
  inert w → advance fuel ms w = Some w' → inert w' ∧ hush w w'.
Proof.
  revert w. induction ms as [|ms IH]; intros w Hw; simpl; intros Ha; simplify_eq;
    [split; [done|apply hush_refl]|].
  destruct (tick fuel w) as [w1|] eqn:Ht; simplify_eq/=.
  destruct (tick_inert _ _ _ Hw Ht) as [Hw1 Hq1].
  destruct (IH _ Hw1 Ha) as [Hw2 Hq2]. split; [done|by eapply hush_trans].
Qed.

Lemma subscribe_inert fuel c' s w h w' :
  c' ≠ c → inert w →
  subscribe fuel c' s w = Some (h, w') → inert w' ∧ hush w w'.
Proof.
  unfold subscribe. intros Hne Hw Hsub.
  destruct (cells w !! c') as [this|]; simplify_eq/=.
  destruct (invoke _ _ _ _ _ _) as [w2|] eqn:Hi; simplify_eq/=.
  eapply invoke_mum in Hi as [Hw2 Hq2]; [|done|by apply inert_modify_ne].
  split; [done|]. eapply hush_trans; [|done]. by apply hush_calls.
Qed.

Lemma unsubscribe_inert h w w' :
  inert w → unsubscribe h w = Some w' → inert w' ∧ hush w w'.
Proof.
  unfold unsubscribe. intros Hw Hu.
  destruct (cells w !! h.1) as [this|] eqn:Hc; simplify_eq/=.
  split; [by apply inert_modify|by apply hush_calls].
Qed.

Lemma bind_loop_inert fuel t ds f rest w us w' :
  c ∉ rest → inert w →
  bind_loop fuel t ds f rest w = Some (us, w') → inert w' ∧ hush w w'.
Proof.
  revert w us. induction rest as [|d rest IH]; intros w us Hr Hw; simpl; intros Hb;
    simplify_eq; [split; [done|apply hush_refl]|].
  apply not_elem_of_cons in Hr as [Hd Hr].
  destruct (subscribe _ _ _ _) as [[h w1]|] eqn:Hs; simplify_eq/=.
  destruct (bind_loop _ _ _ _ _ _) as [[us' w2]|] eqn:Hl; simplify_eq/=.
  eapply subscribe_inert in Hs as [Hw1 Hq1]; [|done|by eapply inert_fields; [..|exact Hw]].
  destruct (IH _ _ Hr Hw1 Hl) as [Hw2 Hq2]. split; [done|].
  eapply hush_trans; [|done]. eapply hush_trans; [|done]. by apply hush_calls.
Qed.

Lemma bind_inert fuel t ds f w us w' :
  c ∉ ds → inert w → bind fuel t ds f w = Some (us, w') → inert w' ∧ hush w w'.
Proof.
  unfold bind. intros Hds Hw Hb.
  destruct (bind_loop _ _ _ _ _ _) as [[us' w1]|] eqn:Hl; simplify_eq/=.
  destruct (values_of ds w1) as [args|]; simplify_eq/=.
  destruct (set _ _ _ _) as [[r w2]|] eqn:Hs; simplify_eq/=.
  destruct (bind_loop_inert _ _ _ _ _ _ _ _ Hds Hw Hl) as [Hw1 Hq1].
  destruct (set_inert _ _ _ _ _ _ Hw1 Hs) as [Hw2 Hq2].
  split; [done|by eapply hush_trans].
Qed.

Lemma unbind_inert us w w' :
  inert w → unbind us w = Some w' → inert w' ∧ hush w w'.
Proof.
  revert w. induction us as [|u us IH]; intros w Hw; simpl; intros Hu; simplify_eq;
    [split; [done|apply hush_refl]|].
  destruct (unsubscribe u w) as [w1|] eqn:Hw1; simplify_eq/=.
  destruct (unsubscribe_inert _ _ _ Hw Hw1) as [Hs1 Hq1].
  destruct (IH _ Hs1 Hu) as [Hs2 Hq2]. split; [done|by eapply hush_trans].
Qed.

Lemma seal_inert c' w r w' :
  inert w → seal c' w = Some (r, w') → inert w' ∧ hush w w'.
Proof.
  unfold seal. intros Hw Hs. destruct (cells w !! c') as [this|]; simplify_eq/=.
  split; [by apply inert_modify|by apply hush_calls].
Qed.

Lemma mute_inert c' w r w' :
  inert w → mute c' w = Some (r, w') → inert w' ∧ hush w w'.
Proof.
  unfold mute. intros Hw Hs. destruct (cells w !! c') as [this|] eqn:Hc; simplify_eq/=.
  destruct (_checkForSealedMutationError this) eqn:He; simplify_eq;
    (split; [|by apply hush_calls]); [done|].
  apply inert_modify_ne; [|done]. intros ->.
  rewrite check_sealed in He; [done|]. by eapply inert_sealed.
Qed.

Lemma unmute_inert c' w r w' :
  inert w → unmute c' w = Some (r, w') → inert w' ∧ hush w w'.
Proof.
  unfold unmute. intros Hw Hs. destruct (cells w !! c') as [this|] eqn:Hc; simplify_eq/=.
  destruct (_checkForSealedMutationError this) eqn:He; simplify_eq;
    (split; [|by apply hush_calls]); [done|].
  apply inert_modify_ne; [|done]. intros ->.
  rewrite check_sealed in He; [done|]. by eapply inert_sealed.
Qed.

Lemma create_inert v options w : inert w → inert (create v options w).2.
Proof.
  intros ((o & Ho & Hs) & Ht & Hq). split; [|done]. exists o. simpl.
  rewrite lookup_app_l; [done|]. by eapply lookup_lt_Some.
Qed.

Lemma step_inert fuel e w w' :
  avoids e → inert w → step fuel e w = Some w' → inert w' ∧ hush w w'.
Proof.
  destruct e; simpl; intros He Hw Hs.
  - simplify_eq. split; [by apply create_inert|by apply hush_calls].
  - destruct (subscribe _ _ _ _) as [[??]|] eqn:Hsub; simplify_eq/=.
    by eapply subscribe_inert.
  - by eapply unsubscribe_inert.
  - destruct (set _ _ _ _) as [[??]|] eqn:?; simplify_eq/=. by eapply set_inert.
  - unfold update in Hs. destruct (get _ w); simplify_eq/=.
    destruct (set _ _ _ _) as [[??]|] eqn:?; simplify_eq/=. by eapply set_inert.
  - destruct (bind _ _ _ _ _) as [[??]|] eqn:?; simplify_eq/=. by eapply bind_inert.
  - by eapply unbind_inert.
  - destruct (seal _ _) as [[??]|] eqn:?; simplify_eq/=. by eapply seal_inert.
  - destruct (mute _ _) as [[??]|] eqn:?; simplify_eq/=. by eapply mute_inert.
  - destruct (unmute _ _) as [[??]|] eqn:?; simplify_eq/=. by eapply unmute_inert.
  - by eapply drain_inert.
  - by eapply advance_inert.
Qed.

Lemma run_inert fuel es w w' :
  Forall avoids es → inert w → run fuel es w = Some w' → inert w' ∧ hush w w'.
Proof.
  revert w. induction es as [|e es IH]; intros w He Hw; simpl; intros Hr; simplify_eq;
    [split; [done|apply hush_refl]|].
  apply Forall_cons in He as [He Hes].
  destruct (step fuel e w) as [w1|] eqn:Hs; simplify_eq/=.
  destruct (step_inert _ _ _ _ He Hw Hs) as [Hw1 Hq1].
  destruct (IH _ Hes Hw1 Hr) as [Hw2 Hq2]. split; [done|by eapply hush_trans].
Qed.

(** X8. After [seal()], when no debounce timer of the cell is pending and
    none of its loops is suspended, no subscriber of the cell is called again,
    whatever is done afterwards short of a new subscription to the cell (by
    [subscribe], or by [bind] with the cell among the sources); and the cell
    stays sealed. *)
Theorem sealed_cell_notifies_nobody fuel w0 r w es w' :
  (∀ t v ov, t ∈ timers w0 → callback t ≠ debounce_elapsed c v ov) →
  (∀ k, k ∈ microtasks w0 → k_this k ≠ c) →
  seal c w0 = Some (r, w) →
  Forall avoids es →
  run fuel es w = Some w' →
  state c w' = Some sealed
  ∧ ∃ l, calls w' = calls w ++ l ∧ Forall (λ e : call T, e.1.1.1 ≠ c) l.
Proof.
  intros Ht Hq Hs Hes Hr. unfold seal in Hs.
  destruct (cells w0 !! c) as [this|] eqn:Hc; simplify_eq/=.
  match type of Hr with run _ _ ?u = _ =>
    destruct (run_inert fuel es u w' Hes) as [((o & Ho & Hst) & _) Hh]; [|done|] end.
  - split; [|done]. eexists. by rewrite lookup_modify, Hc.
  - split; [|done]. unfold state. by rewrite Ho, <-Hst.
Qed.

End Inert.

(** ** Timers and their handles *)

Section Tidy.

Context {T : Type} `{EqDecision T}.

Implicit Types (w : world T) (o this : BasicObservable T) (k : continuation T)
  (t : timer T) (cb : timer_callback T).

(** The cell whose [_notify] started the timer. *)
Definition owner cb : nat :=
  match cb with
  | throttle_expired c => c
  | debounce_elapsed c _ _ => c
  end.

Definition is_throttle cb : bool :=
  match cb with
  | throttle_expired _ => true
  | debounce_elapsed _ _ _ => false
  end.

(** The field in which the cell keeps the handle of such a timer. *)
Definition handle_for cb o : option nat :=
  if is_throttle cb then _throttleTimeout o else _debounceTimeout o.

(** The pending timers and the handles kept in the cells agree. *)
Definition tidy w : Prop :=
  (∀ t, t ∈ timers w → timer_id t < next_timer w)
  ∧ NoDup (timer_id <$> timers w)
  ∧ (∀ t, t ∈ timers w →
       ∃ o, cells w !! owner (callback t) = Some o
            ∧ handle_for (callback t) o = Some (timer_id t))
  ∧ (∀ c o id, cells w !! c = Some o → _throttleTimeout o = Some id →
       ∃ t, t ∈ timers w ∧ timer_id t = id ∧ callback t = throttle_expired c)
  ∧ (∀ c o id, cells w !! c = Some o → _debounceTimeout o = Some id →
       id < next_timer w
       ∧ ∀ t, t ∈ timers w → timer_id t = id →
              owner (callback t) = c ∧ is_throttle (callback t) = false).

Definition keeps_handles (g : BasicObservable T → BasicObservable T) : Prop :=
  ∀ o, _debounceTimeout (g o) = _debounceTimeout o
       ∧ _throttleTimeout (g o) = _throttleTimeout o.

Definition neat (inv : nat → Subscriber T → T → option T → world T → option (world T)) : Prop :=
  ∀ c s nv ov w w', tidy w → inv c s nv ov w = Some w' → tidy w'.

Lemma NoDup_fmap_eq {A B} (f : A → B) (l : list A) x y :
  NoDup (f <$> l) → x ∈ l → y ∈ l → f x = f y → x = y.
Proof.
  induction l as [|a l IH]; simpl; intros Hnd Hx Hy Hf; [by apply elem_of_nil in Hx|].
  apply NoDup_cons in Hnd as [Ha Hnd].
  apply elem_of_cons in Hx as [->|Hx]; apply elem_of_cons in Hy as [->|Hy]; try done.
  - destruct Ha. rewrite Hf. by apply list_elem_of_fmap_2.
  - destruct Ha. rewrite <-Hf. by apply list_elem_of_fmap_2.
  - by apply IH.
Qed.

Lemma NoDup_fmap_filter {A B} (f : A → B) (P : A → Prop) `{∀ x, Decision (P x)} (l : list A) :
  NoDup (f <$> l) → NoDup (f <$> filter P l).
Proof.
  induction l as [|a l IH]; simpl; intros Hnd; [done|].
  apply NoDup_cons in Hnd as [Ha Hnd]. rewrite filter_cons.
  case_decide; [|by apply IH]. simpl. apply NoDup_cons. split; [|by apply IH].
  intros (x & Hx & [_ Hin]%list_elem_of_filter)%list_elem_of_fmap. apply Ha.
  rewrite Hx. by apply list_elem_of_fmap_2.
Qed.

Lemma handle_for_keeps g cb o : keeps_handles g → handle_for cb (g o) = handle_for cb o.
Proof. intros Hg. unfold handle_for. destruct (Hg o) as [-> ->]. done. Qed.

Lemma tidy_fields w w' :
  cells w' = cells w → timers w' = timers w → next_timer w' = next_timer w →
  tidy w → tidy w'.
Proof. unfold tidy. by intros -> -> ->. Qed.

Lemma tidy_modify c g w : keeps_handles g → tidy w → tidy (modify c g w).
Proof.
  intros Hg (H1 & H2 & H3 & H4 & H5). split; [done|]. split; [done|].
  assert (∀ c' o', cells (modify c g w) !! c' = Some o' →
            ∃ o, cells w !! c' = Some o
                 ∧ _debounceTimeout o' = _debounceTimeout o
                 ∧ _throttleTimeout o' = _throttleTimeout o) as Hback.
  { intros c' o' Ho'. destruct (decide (c = c')) as [<-|Hne].
    - rewrite lookup_modify in Ho'. destruct (cells w !! c) as [o|]; simplify_eq/=.
      exists o. by destruct (Hg o).
    - rewrite lookup_modify_ne in Ho' by done. by exists o'. }
  split; [|split].
  - intros t Ht. destruct (H3 t Ht) as (o & Ho & Hh). simpl.
    destruct (decide (c = owner (callback t))) as [->|Hne].
    + exists (g o). rewrite list_lookup_alter_eq, Ho. split; [done|].
      by rewrite handle_for_keeps.
    + exists o. by rewrite list_lookup_alter_ne.
  - intros c' o' id Ho' Hid. destruct (Hback _ _ Ho') as (o & Ho & _ & Ht).
    rewrite Ht in Hid. by eapply H4.
  - intros c' o' id Ho' Hid. destruct (Hback _ _ Ho') as (o & Ho & Hd & _).
    rewrite Hd in Hid. by eapply H5.
Qed.

(** Clearing a handle that is not the one of a throttle timer. *)
Lemma tidy_clear id w :
  (∀ t, t ∈ timers w → timer_id t = id → is_throttle (callback t) = false) →
  tidy w → tidy (clearTimeout id w).
Proof.
  intros Hid (H1 & H2 & H3 & H4 & H5).
  split; [|split; [|split; [|split]]]; simpl.
  - intros t [_ Ht]%list_elem_of_filter. auto.
  - by apply NoDup_fmap_filter.
  - intros t [_ Ht]%list_elem_of_filter. auto.
  - intros c o id' Ho Hh. destruct (H4 _ _ _ Ho Hh) as (t & Ht & Hi & Hcb).
    exists t. split; [|done]. apply list_elem_of_filter. split; [|done].
    intros Heq. specialize (Hid t Ht Heq). by rewrite Hcb in Hid.
  - intros c o id' Ho Hh. destruct (H5 _ _ _ Ho Hh) as [Hlt Hown]. split; [done|].
    intros t [_ Ht]%list_elem_of_filter. auto.
Qed.

(** After the handle of the debounce timer of [c] is cleared, no debounce
    timer of [c] is pending. *)
Lemma cleared_debounce c o w :
  tidy w → cells w !! c = Some o →
  ∀ t, t ∈ timers (match _debounceTimeout o with
                   | Some id => clearTimeout id w
                   | None => w
                   end) →
       owner (callback t) = c → is_throttle (callback t) = true.
Proof.
  intros (H1 & H2 & H3 & H4 & H5) Ho t Ht Hown.
  destruct (is_throttle (callback t)) eqn:Hk; [done|].
  assert (t ∈ timers w ∧ (∀ id, _debounceTimeout o = Some id → timer_id t ≠ id))
    as [Hin Hne].
  { destruct (_debounceTimeout o) as [id|].
    - simpl in Ht. apply list_elem_of_filter in Ht as [Hne Hin]. split; [done|].
      by intros ? [= <-].
    - by split. }
  destruct (H3 t Hin) as (o' & Ho' & Hh). rewrite Hown, Ho in Ho'. injection Ho' as <-.
  unfold handle_for in Hh. rewrite Hk in Hh. by destruct (Hne _ Hh).
Qed.

Lemma tidy_cancel c o w :
  tidy w → cells w !! c = Some o →
  tidy (match _debounceTimeout o with
        | Some id => clearTimeout id w
        | None => w
        end).
Proof.
  intros Hw Ho. destruct (_debounceTimeout o) as [id|] eqn:Hd; [|done].
  apply tidy_clear; [|done]. intros t Ht Hid.
  destruct Hw as (_ & _ & _ & _ & H5). destruct (H5 _ _ _ Ho Hd) as [_ Hown].
  by destruct (Hown t Ht Hid).
Qed.

(** A new timer of [c] of a kind of which [c] has none pending. *)
Lemma tidy_start cb d w o :
  tidy w → cells w !! owner cb = Some o →
  (∀ t, t ∈ timers w → owner (callback t) = owner cb →
        is_throttle (callback t) ≠ is_throttle cb) →
  tidy (modify (owner cb)
          (if is_throttle cb then with_throttleTimeout (Some (next_timer w))
           else with_debounceTimeout (Some (next_timer w)))
          (setTimeout cb d w).2).
Proof.
  intros (H1 & H2 & H3 & H4 & H5) Ho Hnone.
  set (g := if is_throttle cb then with_throttleTimeout (Some (next_timer w))
            else with_debounceTimeout (Some (next_timer w))).
  assert (∀ c' o', alter g (owner cb) (cells w) !! c' = Some o' →
            (c' = owner cb ∧ o' = g o) ∨ (c' ≠ owner cb ∧ cells w !! c' = Some o'))
    as Hback.
  { intros c' o' Ho'. destruct (decide (owner cb = c')) as [<-|Hne].
    - rewrite list_lookup_alter_eq, Ho in Ho'. left. by simplify_eq/=.
    - rewrite list_lookup_alter_ne in Ho' by done. right. by split. }
  split; [|split; [|split; [|split]]]; simpl.
  - intros t [Ht|Ht%list_elem_of_singleton]%elem_of_app; [specialize (H1 t Ht); lia|].
    subst. simpl. lia.
  - rewrite fmap_app. simpl. apply NoDup_app. split; [done|]. split; [|apply NoDup_singleton].
    intros id (t & -> & Ht)%list_elem_of_fmap Hid%list_elem_of_singleton.
    specialize (H1 t Ht). lia.
  - intros t [Ht|Ht%list_elem_of_singleton]%elem_of_app.
    + destruct (H3 t Ht) as (o' & Ho' & Hh).
      destruct (decide (owner (callback t) = owner cb)) as [Heq|Hne].
      * rewrite Heq, Ho in Ho'. injection Ho' as <-.
        exists (g o). rewrite Heq, list_lookup_alter_eq, Ho. split; [done|].
        specialize (Hnone t Ht Heq). unfold handle_for, g in *.
        destruct (is_throttle (callback t)), (is_throttle cb); done.
      * exists o'. by rewrite list_lookup_alter_ne.
    + subst. simpl. exists (g o). rewrite list_lookup_alter_eq, Ho. split; [done|].
      unfold handle_for, g. by destruct (is_throttle cb).
  - intros c' o' id Ho' Hh. destruct (Hback _ _ Ho') as [[-> ->]|[Hne Hc']].
    + unfold g in Hh. destruct (is_throttle cb) eqn:Hk; simpl in Hh.
      * injection Hh as <-. exists (mkTimer (next_timer w) (clock w + d) cb).
        split; [apply elem_of_app; right; by left|]. split; [done|]. simpl.
        destruct cb; simplify_eq/=. done.
      * destruct (H4 _ _ _ Ho Hh) as (t & Ht & Hi & Hcb). exists t.
        split; [apply elem_of_app; by left|done].
    + destruct (H4 _ _ _ Hc' Hh) as (t & Ht & Hi & Hcb). exists t.
      split; [apply elem_of_app; by left|done].
  - intros c' o' id Ho' Hh.
    assert (id = next_timer w ∧ c' = owner cb ∧ is_throttle cb = false
            ∨ ∃ o0, cells w !! c' = Some o0 ∧ _debounceTimeout o0 = Some id) as [Hnew|Hold].
    { destruct (Hback _ _ Ho') as [[-> ->]|[Hne Hc']]; [|right; by exists o'].
      unfold g in Hh. destruct (is_throttle cb) eqn:Hk; simpl in Hh.
      - right. by exists o.
      - left. by simplify_eq. }
    + destruct Hnew as (-> & -> & Hk). split; [lia|].
      intros t [Ht|Ht%list_elem_of_singleton]%elem_of_app Hid.
      * specialize (H1 t Ht). lia.
      * by subst.
    + destruct Hold as (o0 & Ho0 & Hd0). destruct (H5 _ _ _ Ho0 Hd0) as [Hlt Hown].
      split; [lia|]. intros t [Ht|Ht%list_elem_of_singleton]%elem_of_app Hid; [auto|].
      subst. simpl in *. lia.
Qed.

Lemma throttle_gate_tidy c this w w' :
  cells w !! c = Some this → tidy w → throttle_gate c this w = Some w' →
  tidy w' ∧ ∃ this', cells w' !! c = Some this'
                     ∧ _debounceTimeout this' = _debounceTimeout this.
Proof.
  unfold throttle_gate. intros Hc Hw Hg.
  destruct (truthy _) as [th|]; [|simplify_eq; split; [done|by exists this]].
  destruct (_throttleTimeout this) eqn:Hh; simplify_eq/=. split.
  - apply (tidy_start (throttle_expired c) th w this); [done|done|].
    intros t Ht Hown Hk. simpl in *. destruct Hw as (_ & _ & H3 & _).
    destruct (H3 t Ht) as (o & Ho & Hf). rewrite Hown, Hc in Ho. injection Ho as <-.
    unfold handle_for in Hf. rewrite Hk in Hf. congruence.
  - exists (with_throttleTimeout (Some (next_timer w)) this).
    by rewrite list_lookup_alter_eq, Hc.
Qed.

Section TidyInvoke.

Variable inv : nat → Subscriber T → T → option T → world T → option (world T).
Hypothesis inv_neat : neat inv.

Lemma iterate_tidy k w w' : tidy w → iterate inv k w = Some w' → tidy w'.
Proof.
  unfold iterate. intros Hw Hi.
  destruct (cells w !! k_this k) as [this|] eqn:Hc; simplify_eq/=.
  destruct (array_of this (k_array k) !! k_index k) as [s|] eqn:Hs; simplify_eq/=.
  - destruct (inv _ _ _ _ w) as [w1|] eqn:Hi1; simplify_eq/=.
    eapply tidy_fields; [..|by eapply inv_neat]; done.
  - by apply tidy_modify.
Qed.

Lemma for_of_tidy c nv ov w w' : tidy w → for_of inv c nv ov w = Some w' → tidy w'.
Proof.
  unfold for_of. intros Hw Hf.
  destruct (cells w !! c) as [this|] eqn:Hc; simplify_eq/=.
  by eapply iterate_tidy.
Qed.

Lemma _notify_tidy c nv ov w w' : tidy w → _notify inv c nv ov w = Some w' → tidy w'.
Proof.
  unfold _notify. intros Hw Hn.
  destruct (cells w !! c) as [this|] eqn:Hc; simplify_eq/=.
  repeat case_decide; simplify_eq; try done.
  destruct (throttle_gate c this w) as [w1|] eqn:Hg; [|by simplify_eq].
  destruct (throttle_gate_tidy _ _ _ _ Hc Hw Hg) as [Hw1 (this1 & Hc1 & Hd1)].
  destruct (truthy (debounce _)) as [d|]; [|by eapply for_of_tidy].
  rewrite <-Hd1 in Hn.
  pose proof (tidy_cancel c this1 w1 Hw1 Hc1) as Hw2.
  pose proof (cleared_debounce c this1 w1 Hw1 Hc1) as Hnone.
  set (w2 := match _debounceTimeout this1 with
             | Some id => clearTimeout id w1
             | None => w1
             end) in *.
  assert (cells w2 !! c = Some this1) as Hc2 by (unfold w2; by destruct (_debounceTimeout this1)).
  simpl in Hn. simplify_eq.
  apply (tidy_start (debounce_elapsed c nv ov) d w2 this1); [done|done|].
  intros t Ht Hown. rewrite (Hnone t Ht Hown). done.
Qed.

Lemma set_with_tidy c v w r w' : tidy w → set_with inv c v w = Some (r, w') → tidy w'.
Proof.
  unfold set_with. intros Hw Hs.
  destruct (cells w !! c) as [this|] eqn:Hc; simplify_eq/=.
  destruct (_checkForSealedMutationError this); simplify_eq/=; [done|].
  destruct (_notify _ _ _ _ _) as [w2|] eqn:Hn; simplify_eq/=.
  eapply _notify_tidy; [|done]. by apply tidy_modify.
Qed.

End TidyInvoke.

Lemma invoke_neat fuel : neat (invoke fuel).
Proof.
  induction fuel as [|fuel IH]; intros c s nv ov w w' Hw;
    destruct s as [n|k target ds f]; simpl; intros Hi; simplify_eq.
  - by eapply tidy_fields.
  - by eapply tidy_fields.
  - destruct (values_of ds _) as [args|]; simplify_eq/=.
    destruct (set_with _ _ _ _) as [[r w2]|] eqn:Hset; simplify_eq/=.
    eapply set_with_tidy; [done| |done]. by eapply tidy_fields.
Qed.

Lemma set_tidy fuel c v w r w' : tidy w → set fuel c v w = Some (r, w') → tidy w'.
Proof. apply set_with_tidy, invoke_neat. Qed.

Lemma drain_turns_tidy n fuel w w' : tidy w → drain_turns n fuel w = Some w' → tidy w'.
Proof.
  revert w. induction n as [|n IH]; intros w Hw; simpl;
    destruct (microtasks w) as [|k queue] eqn:Hq; intros Hd; simplify_eq; try done.
  destruct (iterate _ _ _) as [w1|] eqn:Hi; simplify_eq/=.
  eapply IH; [|done]. eapply iterate_tidy; [apply invoke_neat| |done].
  by eapply tidy_fields.
Qed.

Lemma drain_tidy fuel w w' : tidy w → drain fuel w = Some w' → tidy w'.
Proof. apply drain_turns_tidy. Qed.

(** A timer that fires: the run time has removed it from the pending ones
    when its callback runs. *)
Lemma fired_tidy fuel t w w' :
  tidy w → t ∈ timers w →
  run_timer (invoke fuel) (callback t) (clearTimeout (timer_id t) w) = Some w' →
  tidy w'.
Proof.
  intros Hw Ht Hr. pose proof Hw as (H1 & H2 & H3 & H4 & H5).
  assert (∀ t', t' ∈ timers w → timer_id t' = timer_id t → t' = t) as Hsame.
  { intros t' Ht' Hid. by eapply (NoDup_fmap_eq timer_id). }
  destruct (callback t) as [c|c nv ov] eqn:Hcb; simpl in Hr.
  - destruct (H3 t Ht) as (o & Ho & Hh). rewrite Hcb in Ho, Hh. simpl in Ho, Hh.
    unfold handle_for in Hh. simpl in Hh.
    rewrite Ho in Hr. simpl in Hr. rewrite Hh in Hr. simplify_eq.
    split; [|split; [|split; [|split]]]; simpl.
    + intros t' [_ [_ Ht']%list_elem_of_filter]%list_elem_of_filter. auto.
    + by do 2 apply NoDup_fmap_filter.
    + intros t' [_ [Hne Ht']%list_elem_of_filter]%list_elem_of_filter.
      destruct (H3 t' Ht') as (o' & Ho' & Hh').
      destruct (decide (c = owner (callback t'))) as [Heq|Hneq].
      * rewrite <-Heq, Ho in Ho'. injection Ho' as <-.
        exists (with_throttleTimeout None o). rewrite <-Heq, list_lookup_alter_eq, Ho.
        split; [done|]. unfold handle_for in *.
        destruct (is_throttle (callback t')); [|done]. congruence.
      * exists o'. by rewrite list_lookup_alter_ne.
    + intros c' o' id Ho' Hh'.
      destruct (decide (c = c')) as [<-|Hneq].
      { rewrite list_lookup_alter_eq, Ho in Ho'. by simplify_eq/=. }
      rewrite list_lookup_alter_ne in Ho' by done.
      destruct (H4 _ _ _ Ho' Hh') as (t' & Ht' & Hi & Hcb'). exists t'.
      split; [|done].
      apply list_elem_of_filter; split; [|apply list_elem_of_filter; split; [|done]];
        intros Heq; rewrite (Hsame t' Ht' Heq) in Hcb'; congruence.
    + intros c' o' id Ho' Hh'.
      assert (∃ o0, cells w !! c' = Some o0 ∧ _debounceTimeout o0 = Some id)
        as (o0 & Ho0 & Hd0).
      { destruct (decide (c = c')) as [<-|Hneq].
        - rewrite list_lookup_alter_eq, Ho in Ho'. simplify_eq/=. by exists o.
        - rewrite list_lookup_alter_ne in Ho' by done. by exists o'. }
      destruct (H5 _ _ _ Ho0 Hd0) as [Hlt Hown]. split; [done|].
      intros t' [_ [_ Ht']%list_elem_of_filter]%list_elem_of_filter. auto.
  - eapply for_of_tidy; [apply invoke_neat| |done].
    apply tidy_clear; [|done]. intros t' Ht' Hid.
    rewrite (Hsame t' Ht' Hid), Hcb. done.
Qed.

Lemma fire_tidy fuel ids w w' : tidy w → fire fuel ids w = Some w' → tidy w'.
Proof.
  revert w. induction ids as [|id ids IH]; intros w Hw; simpl; intros Hf; simplify_eq;
    [done|].
  destruct (pending id w) as [t|] eqn:Hp; [|by apply (IH w)].
  destruct (run_timer _ _ _) as [w1|] eqn:Hr; simplify_eq/=.
  destruct (drain fuel w1) as [w2|] eqn:Hd; simplify_eq/=.
  eapply IH; [|done]. eapply drain_tidy; [|done].
  assert (t ∈ timers w ∧ timer_id t = id) as [Ht <-].
  { unfold pending in Hp. apply head_Some in Hp as [l Hl].
    assert (t ∈ filter (λ t, timer_id t = id) (timers w)) as Hin by (rewrite Hl; by left).
    by apply list_elem_of_filter in Hin as [? ?]. }
  by eapply fired_tidy.
Qed.

Lemma tick_tidy fuel w w' : tidy w → tick fuel w = Some w' → tidy w'.
Proof.
  unfold tick. intros Hw Ht.
  destruct (drain fuel w) as [w0|] eqn:Hd; simplify_eq/=.
  eapply fire_tidy; [|done]. eapply tidy_fields; [..|by eapply drain_tidy]; done.
Qed.

Lemma advance_tidy fuel ms w w' : tidy w → advance fuel ms w = Some w' → tidy w'.
Proof.
  revert w. induction ms as [|ms IH]; intros w Hw; simpl; intros Ha; simplify_eq; [done|].
  destruct (tick fuel w) as [w1|] eqn:Ht; simplify_eq/=.
  eapply IH; [|done]. by eapply tick_tidy.
Qed.

Lemma subscribe_tidy fuel c s w h w' :
  tidy w → subscribe fuel c s w = Some (h, w') → tidy w'.
Proof.
  unfold subscribe. intros Hw Hsub.
  destruct (cells w !! c) as [this|]; simplify_eq/=.
  destruct (invoke _ _ _ _ _ _) as [w2|] eqn:Hi; simplify_eq/=.
  eapply invoke_neat; [|done]. by apply tidy_modify.
Qed.

Lemma unsubscribe_tidy h w w' : tidy w → unsubscribe h w = Some w' → tidy w'.
Proof.
  unfold unsubscribe. intros Hw Hu.
  destruct (cells w !! h.1) as [this|] eqn:Hc; simplify_eq/=. by apply tidy_modify.
Qed.

Lemma bind_loop_tidy fuel target ds f rest w us w' :
  tidy w → bind_loop fuel target ds f rest w = Some (us, w') → tidy w'.
Proof.
  revert w us. induction rest as [|d rest IH]; intros w us Hw; simpl; intros Hb;
    simplify_eq; [done|].
  destruct (subscribe _ _ _ _) as [[h w1]|] eqn:Hs; simplify_eq/=.
  destruct (bind_loop _ _ _ _ _ _) as [[us' w2]|] eqn:Hl; simplify_eq/=.
  eapply IH; [|done]. eapply subscribe_tidy; [|done]. by eapply tidy_fields; [..|exact Hw].
Qed.

Lemma bind_tidy fuel target ds f w us w' :
  tidy w → bind fuel target ds f w = Some (us, w') → tidy w'.
Proof.
  unfold bind. intros Hw Hb.
  destruct (bind_loop _ _ _ _ _ _) as [[us' w1]|] eqn:Hl; simplify_eq/=.
  destruct (values_of ds w1) as [args|]; simplify_eq/=.
  destruct (set _ _ _ _) as [[r w2]|] eqn:Hs; simplify_eq/=.
  eapply set_tidy; [|done]. by eapply bind_loop_tidy.
Qed.

Lemma unbind_tidy us w w' : tidy w → unbind us w = Some w' → tidy w'.
Proof.
  revert w. induction us as [|u us IH]; intros w Hw; simpl; intros Hu; simplify_eq; [done|].
  destruct (unsubscribe u w) as [w1|] eqn:Hw1; simplify_eq/=.
  eapply IH; [|done]. by eapply unsubscribe_tidy.
Qed.

Lemma create_tidy v options w : tidy w → tidy (create v options w).2.
Proof.
  intros (H1 & H2 & H3 & H4 & H5). split; [done|]. split; [done|]. simpl.
  assert (∀ c o, (cells w ++ [mkObservable unsealed [] v (default no_options options)
                                [v] None None []]) !! c = Some o →
            (_throttleTimeout o = None ∧ _debounceTimeout o = None)
            ∨ cells w !! c = Some o) as Hback.
  { intros c o Ho. apply lookup_app_Some in Ho as [Ho|[_ Ho]]; [by right|].
    left. apply list_lookup_singleton_Some in Ho as [_ <-]. done. }
  split; [|split].
  - intros t Ht. destruct (H3 t Ht) as (o & Ho & Hh). exists o. split; [|done].
    by apply lookup_app_l_Some.
  - intros c o id Ho Hh. destruct (Hback _ _ Ho) as [[Hn _]|Ho']; [congruence|].
    by eapply H4.
  - intros c o id Ho Hh. destruct (Hback _ _ Ho) as [[_ Hn]|Ho']; [congruence|].
    by eapply H5.
Qed.

Lemma step_tidy fuel e w w' : tidy w → step fuel e w = Some w' → tidy w'.
Proof.
  destruct e; simpl; intros Hw Hs.
  - simplify_eq. by apply create_tidy.
  - destruct (subscribe _ _ _ _) as [[??]|] eqn:Hsub; simplify_eq/=.
    by eapply subscribe_tidy.
  - by eapply unsubscribe_tidy.
  - destruct (set _ _ _ _) as [[??]|] eqn:?; simplify_eq/=. by eapply set_tidy.
  - unfold update in Hs. destruct (get _ w); simplify_eq/=.
    destruct (set _ _ _ _) as [[??]|] eqn:?; simplify_eq/=. by eapply set_tidy.
  - destruct (bind _ _ _ _ _) as [[??]|] eqn:?; simplify_eq/=. by eapply bind_tidy.
  - by eapply unbind_tidy.
  - unfold seal in Hs. destruct (cells w !! c); simplify_eq/=. by apply tidy_modify.
  - unfold mute in Hs. destruct (cells w !! c); simplify_eq/=.
    destruct (_checkForSealedMutationError _); simplify_eq/=; [done|by apply tidy_modify].
  - unfold unmute in Hs. destruct (cells w !! c); simplify_eq/=.
    destruct (_checkForSealedMutationError _); simplify_eq/=; [done|by apply tidy_modify].
  - by eapply drain_tidy.
  - by eapply advance_tidy.
Qed.

Lemma run_tidy fuel es w w' : tidy w → run fuel es w = Some w' → tidy w'.
Proof.
  revert w. induction es as [|e es IH]; intros w Hw; simpl; intros Hr; simplify_eq; [done|].
  destruct (step fuel e w) as [w1|] eqn:Hs; simplify_eq/=.
  eapply IH; [|done]. by eapply step_tidy.
Qed.

Lemma tidy_empty : tidy (empty_world : world T).
Proof.
  split; [by intros t Ht%elem_of_nil|]. split; [constructor|].
  split; [by intros t Ht%elem_of_nil|]. split; by intros c o id Ho.
Qed.

(** The pending throttle timers and the pending debounce timers of [c]. *)
Definition throttle_timers (c : nat) w : list (timer T) :=
  filter (λ t, owner (callback t) = c ∧ is_throttle (callback t) = true) (timers w).

Definition debounce_timers (c : nat) w : list (timer T) :=
  filter (λ t, owner (callback t) = c ∧ is_throttle (callback t) = false) (timers w).

Lemma length_same_key {A B} (f : A → B) (l : list A) b :
  NoDup (f <$> l) → (∀ x, x ∈ l → f x = b) → length l ≤ 1.
Proof.
  destruct l as [|x [|y l]]; simpl; intros Hnd Hall; [lia..|].
  apply NoDup_cons in Hnd as [Hx _]. destruct Hx.
  rewrite (Hall x), <-(Hall y); [by left|right; by left|by left].
Qed.

(** X9. In every world reached from the empty one, whatever has been done:
    a cell has a throttle timer pending exactly when [_throttleTimeout] is
    set, and then only one; it has at most one debounce timer pending, and the
    handle of that timer is the one kept in [_debounceTimeout]. *)
Theorem timers_agree_with_handles fuel es w :
  run fuel es empty_world = Some w →
  ∀ c o, cells w !! c = Some o →
    length (throttle_timers c w) = (if _throttleTimeout o is Some _ then 1 else 0)
    ∧ length (debounce_timers c w) ≤ 1
    ∧ (∀ t, t ∈ debounce_timers c w → _debounceTimeout o = Some (timer_id t)).
Proof.
  intros Hr c o Ho.
  pose proof (run_tidy _ _ _ _ tidy_empty Hr) as (H1 & H2 & H3 & H4 & H5).
  assert (∀ (b : bool) t, t ∈ timers w → owner (callback t) = c →
            is_throttle (callback t) = b →
            (if b then _throttleTimeout o else _debounceTimeout o) = Some (timer_id t))
    as Hh.
  { intros b t Ht Hown Hk. destruct (H3 t Ht) as (o' & Ho' & Hf).
    rewrite Hown, Ho in Ho'. injection Ho' as <-. unfold handle_for in Hf.
    by rewrite Hk in Hf. }
  split; [|split].
  - destruct (_throttleTimeout o) as [id|] eqn:Hid.
    + assert (length (throttle_timers c w) ≤ 1).
      { apply (length_same_key timer_id _ id); [by apply NoDup_fmap_filter|].
        intros t [[Hown Hk] Ht]%list_elem_of_filter.
        specialize (Hh true t Ht Hown Hk). simpl in Hh. congruence. }
      destruct (H4 _ _ _ Ho Hid) as (t & Ht & _ & Hcb).
      assert (t ∈ throttle_timers c w) as Hin.
      { apply list_elem_of_filter. by rewrite Hcb. }
      destruct (throttle_timers c w); [by apply elem_of_nil in Hin|]. simpl in *. lia.
    + destruct (throttle_timers c w) as [|t l] eqn:Hl; [done|].
      assert (t ∈ throttle_timers c w) as [[Hown Hk] Ht]%list_elem_of_filter
        by (rewrite Hl; by left).
      specialize (Hh true t Ht Hown Hk). simpl in Hh. congruence.
  - destruct (debounce_timers c w) as [|t0 l] eqn:Hl; [simpl; lia|]. rewrite <-Hl.
    assert (t0 ∈ debounce_timers c w) as [[Hown0 Hk0] Ht0]%list_elem_of_filter
      by (rewrite Hl; by left).
    apply (length_same_key timer_id _ (timer_id t0)); [by apply NoDup_fmap_filter|].
    intros t [[Hown Hk] Ht]%list_elem_of_filter.
    pose proof (Hh false t Ht Hown Hk) as E1. pose proof (Hh false t0 Ht0 Hown0 Hk0) as E2.
    simpl in *. congruence.
  - intros t [[Hown Hk] Ht]%list_elem_of_filter. by apply (Hh false).
Qed.

End Tidy.

(** ** Throttle together with debounce *)

Section Gates.

Context {T : Type} `{EqDecision T}.

Implicit Types (w : world T) (o this : BasicObservable T) (c : nat).

(** Of two pending timers the second is due and the first is not. *)
Lemma tick_fires_second fuel w t0 t w2 :
  microtasks w = [] →
  timers w = [t0; t] →
  timer_id t0 ≠ timer_id t →
  S (clock w) < due t0 → due t ≤ S (clock w) →
  run_timer (invoke fuel) (callback t)
    (mkWorld (cells w) [t0] (next_timer w) (next_closure w) (S (clock w)) [] (calls w))
    ≫= drain fuel = Some w2 →
  tick fuel w = Some w2.
Proof.
  intros Hq Ht Hne H0 Hd Hr. unfold tick. rewrite drain_nil by done. simpl.
  rewrite Ht. rewrite filter_cons, decide_False by (simpl; lia).
  rewrite filter_cons, decide_True by (simpl; lia).
  rewrite filter_nil. simpl. unfold pending. simpl. rewrite Ht.
  rewrite filter_cons, decide_False by done.
  rewrite filter_cons, decide_True by done. simpl.
  unfold clearTimeout. simpl. rewrite Ht.
  rewrite filter_cons, decide_True by done.
  rewrite filter_cons, decide_False by (simpl; auto). rewrite filter_nil.
  unfold with_timers. simpl. rewrite Hq.
  destruct (run_timer _ _ _) as [w1|]; [|done]. simpl in *.
  rewrite Hr. done.
Qed.

Lemma advance_fires_second fuel ms w t0 t w2 :
  microtasks w = [] →
  timers w = [t0; t] →
  timer_id t0 ≠ timer_id t →
  clock w < due t → due t ≤ clock w + ms → clock w + ms < due t0 →
  run_timer (invoke fuel) (callback t)
    (mkWorld (cells w) [t0] (next_timer w) (next_closure w) (due t) [] (calls w))
    ≫= drain fuel = Some w2 →
  timers w2 = [t0] → microtasks w2 = [] → clock w2 = due t →
  advance fuel ms w = Some (with_clock (clock w + ms) w2).
Proof.
  intros Hq Ht Hne Hlt Hle H0 Hr Ht2 Hq2 Hc2.
  replace ms with ((due t - clock w - 1) + (1 + (clock w + ms - due t))) at 1 by lia.
  rewrite advance_add.
  rewrite advance_idle; [|done|rewrite Ht; repeat constructor; lia]. simpl.
  erewrite tick_fires_second; simpl; eauto; [| | |].
  - simpl. rewrite advance_idle; [|done|rewrite Ht2; repeat constructor; lia].
    unfold with_clock. do 2 f_equal. lia.
  - lia.
  - lia.
  - replace (S (clock w + (due t - clock w - 1))) with (due t) by lia. done.
Qed.

(** Throttle and debounce configured, no window open: the window opens and
    the debounce timer is started. *)
Lemma set_opens_and_debounces fuel c v w this th d :
  cells w !! c = Some this → _state this = unsealed →
  v ≠ _value this →
  truthy (throttle (_options this)) = Some th →
  _throttleTimeout this = None →
  truthy (debounce (_options this)) = Some d →
  set fuel c v w
  = Some (Fulfilled,
          mkWorld
            (<[c:=with_debounceTimeout (Some (S (next_timer w)))
                    (with_throttleTimeout (Some (next_timer w)) (with_value v this))]>
               (cells w))
            (cancel (_debounceTimeout this)
               (timers w ++ [mkTimer (next_timer w) (clock w + th) (throttle_expired c)])
               ++ [mkTimer (S (next_timer w)) (clock w + d)
                     (debounce_elapsed c v (_value this))])
            (S (S (next_timer w))) (next_closure w) (clock w) (microtasks w) (calls w)).
Proof.
  intros Hc Hs Hv Ht Hid Hd. unfold set, set_with. rewrite Hc. simpl.
  rewrite check_not_sealed by (rewrite Hs; done).
  unfold _notify. rewrite lookup_modify, Hc. simpl.
  rewrite decide_False by (rewrite Hs; done). rewrite decide_False by done.
  unfold throttle_gate. simpl. rewrite Ht, Hid, Hd. simpl.
  unfold modify. simpl.
  destruct (_debounceTimeout this) as [id|]; simpl;
    by rewrite (list_alter_insert _ _ _ _ Hc), !(list_alter_insert_eq _ _ _ _ _ Hc).
Qed.

(** X10. Throttle and debounce both configured.  A second [set] inside the
    throttle window returns at line 47, before the debounce timer is
    restarted: the timers pending are those of the first call.  When the
    debounce delay has passed (and the window is still open) the subscribers
    have received the first value, with the value before it, while [get()]
    gives the second. *)
Theorem throttle_with_debounce_delivers_first fuel c v1 v2 w this th d e :
  cells w !! c = Some this → _state this = unsealed →
  truthy (throttle (_options this)) = Some th →
  _throttleTimeout this = None →
  truthy (debounce (_options this)) = Some d →
  (∀ id, _debounceTimeout this = Some id → id < next_timer w) →
  quiescent w →
  v1 ≠ _value this →
  Forall is_listener (_subscribers this) →
  length (_subscribers this) ≤ fuel →
  d ≤ e → e < th →
  ∃ w1 w2,
    run fuel [Set_ c v1; EndOfTask; Set_ c v2; EndOfTask] w = Some w1
    ∧ timers w1 = [mkTimer (next_timer w) (clock w + th) (throttle_expired c);
                   mkTimer (S (next_timer w)) (clock w + d)
                     (debounce_elapsed c v1 (_value this))]
    ∧ run fuel [Wait e] w1 = Some w2
    ∧ get c w2 = Some v2
    ∧ calls w2 = calls w ++ notifications c (_subscribers this) v1 (_value this)
    ∧ _history <$> cells w2 !! c = Some (_history this ++ [v1]).
Proof.
  intros Hc Hs Ht Hid Hd Hstale [Htm Hq] Hv HA Hn Hde Het.
  assert (c < length (cells w)) as Hlt by (by eapply lookup_lt_Some).
  pose proof (truthy_Some _ _ Hd) as Hpos.
  set (o1 := with_debounceTimeout (Some (S (next_timer w)))
               (with_throttleTimeout (Some (next_timer w)) (with_value v1 this))).
  set (t0 := mkTimer (next_timer w) (clock w + th) (throttle_expired c)).
  set (t1 := mkTimer (S (next_timer w)) (clock w + d) (debounce_elapsed c v1 (_value this))).
  set (w1 := mkWorld (<[c:=with_value v2 o1]> (cells w)) [t0; t1] (S (S (next_timer w)))
               (next_closure w) (clock w) [] (calls w)).
  assert (run fuel [Set_ c v1; EndOfTask; Set_ c v2; EndOfTask] w = Some w1) as Hr1.
  { simpl. rewrite (set_opens_and_debounces fuel c v1 w this th d) by done. simpl.
    rewrite Htm, Hq. simpl. fold t0 t1 o1.
    assert (cancel (_debounceTimeout this) [t0] = [t0]) as ->.
    { destruct (_debounceTimeout this) as [id|] eqn:Hdt; [|done]. simpl.
      rewrite filter_cons, decide_True; [done|]. simpl. specialize (Hstale _ eq_refl). lia. }
    rewrite drain_nil by done. simpl.
    rewrite (set_throttled fuel c v2 _ o1 th (next_timer w));
      [|simpl; by apply list_lookup_insert_eq|simpl; by rewrite Hs|done|done].
    simpl. rewrite drain_nil by done. simpl.
    unfold w1, modify. simpl. by rewrite (list_alter_insert_eq _ _ _ _ _ Hc). }
  exists w1. eexists. split; [done|]. split; [done|].
  assert (cells w1 !! c = Some (with_value v2 o1)) as Hc1
    by (simpl; by apply list_lookup_insert_eq).
  split.
  { simpl.
    rewrite (advance_fires_second fuel e w1 t0 t1
               (mkWorld (<[c:=push_history v1 (with_value v2 o1)]> (cells w1)) [t0]
                  (next_timer w1) (next_closure w1) (due t1) []
                  (calls w1 ++ notifications c (_subscribers this) v1 (_value this))));
      [done|done|done|simpl; lia|simpl; lia|simpl; lia|simpl; lia| |done|done|done].
    cbn [callback due cells timers next_timer next_closure clock microtasks calls run_timer t1].
    by rewrite (cycle fuel c v1 (_value this) _ (with_value v2 o1)). }
  simpl. unfold get. simpl. rewrite list_insert_insert_eq, list_lookup_insert_eq by done.
  done.
Qed.

End Gates.

(** ** The subscribers of a debounced notification *)

Section Late.

Context {T : Type} `{EqDecision T}.

Implicit Types (w : world T) (o this : BasicObservable T) (c : nat).

(** X11. The callback of the debounce timer reads [_subscribers] when it
    fires: a function unsubscribed while the timer is pending is not called,
    and a function subscribed meanwhile is, with the arguments of the
    debounced [set]. *)
Theorem debounce_reads_subscribers_when_it_fires fuel c v w this d e s m :
  cells w !! c = Some this → _state this = unsealed →
  truthy (throttle (_options this)) = None →
  truthy (debounce (_options this)) = Some d →
  quiescent w →
  v ≠ _value this →
  Forall is_listener (_subscribers this) →
  length (_subscribers this) + 1 ≤ fuel →
  d ≤ e →
  ∃ w',
    run fuel [Set_ c v; EndOfTask; Unsubscribe (c, s); Subscribe c m; EndOfTask; Wait e] w
    = Some w'
    ∧ calls w'
      = calls w ++ [(c, user_fn m, v, penultimate (_history this))]
          ++ notifications c
               (filter (λ x, fn_of x ≠ fn_of s) (_subscribers this) ++ [Listener m])
               v (_value this)
    ∧ _history <$> cells w' !! c = Some (_history this ++ [v]).
Proof.
  intros Hc Hs Ht Hd Hq Hv HA Hn He.
  assert (c < length (cells w)) as Hlt by (by eapply lookup_lt_Some).
  pose proof (truthy_Some _ _ Hd) as Hpos.
  pose proof (debouncing_first fuel c w this d Hc Hs Ht Hd v Hq Hv) as H1.
  set (o1 := with_debounceTimeout (Some (next_timer w)) (with_value v this)).
  set (A := filter (λ x, fn_of x ≠ fn_of s) (_subscribers this)).
  set (o2 := push_subscriber (Listener m) (assign_subscribers A o1)).
  change [Set_ c v; EndOfTask; Unsubscribe (c, s); Subscribe c m; EndOfTask; Wait e]
    with ([Set_ c v; EndOfTask] ++ [Unsubscribe (c, s); Subscribe c m; EndOfTask] ++ [Wait e]).
  rewrite run_app, H1. cbn [mbind option_bind]. rewrite run_app.
  assert (run fuel [Unsubscribe (c, s); Subscribe c m; EndOfTask]
            (debouncing c w this d (next_timer w) (clock w) v (_value this))
          = Some (mkWorld (<[c:=o2]> (cells w))
                    [mkTimer (next_timer w) (clock w + d) (debounce_elapsed c v (_value this))]
                    (S (next_timer w)) (next_closure w) (clock w) []
                    (calls w ++ [(c, user_fn m, v, penultimate (_history this))]))) as ->.
  { simpl. unfold unsubscribe. simpl. rewrite list_lookup_insert_eq by done. simpl.
    unfold subscribe. simpl. rewrite list_lookup_alter_eq, list_lookup_insert_eq by done.
    simpl. rewrite invoke_listener. simpl. rewrite drain_nil by done. simpl.
    unfold with_calls, modify, debouncing. simpl.
    by rewrite !(list_alter_insert_eq _ _ _ _ _ Hc). }
  cbn [mbind option_bind].
  assert (Forall is_listener (A ++ [Listener m])) as HA2.
  { apply Forall_app. split; [|by repeat constructor]. apply Forall_forall.
    intros x [_ Hx]%list_elem_of_filter. by eapply Forall_forall in HA. }
  assert (length A ≤ length (_subscribers this)) as HlenA by apply length_filter.
  match goal with |- context [run fuel [Wait e] ?u] =>
    rewrite (lone_debounce_fires fuel c u o2 (next_timer w) (clock w + d) v (_value this) e)
  end; simpl; try done; try lia.
  - eexists. split; [done|]. simpl.
    rewrite list_insert_insert_eq, list_lookup_insert_eq by done.
    simpl. by rewrite <-app_assoc.
  - by apply list_lookup_insert_eq.
  - rewrite length_app. simpl. lia.
Qed.

End Late.

(** ** A sealed target *)

Section SealedTarget.

Context {T : Type} `{EqDecision T}.

Implicit Types (w : world T) (o this : BasicObservable T) (c : nat).

Variables (t : nat) (ds : list nat) (f : list T → T).

(** The target is sealed with the value [v0] and the sources have the values
    [vals]. *)
Definition frozen (v0 : T) (vals : list T) w : Prop :=
  (∃ ot, cells w !! t = Some ot ∧ _state ot = sealed ∧ _value ot = v0)
  ∧ values_of ds w = Some vals.

Lemma frozen_push v0 vals d s w :
  frozen v0 vals w → frozen v0 vals (modify d (push_subscriber s) w).
Proof.
  intros [(ot & Ho & Hs & Hv) Hvals]. split.
  - destruct (decide (d = t)) as [->|Hne].
    + exists (push_subscriber s ot). by rewrite lookup_modify, Ho.
    + exists ot. by rewrite lookup_modify_ne.
  - rewrite <-Hvals. apply values_of_cells, Forall_forall. intros d' _.
    destruct (decide (d = d')) as [<-|Hne].
    + rewrite lookup_modify. by destruct (cells w !! d).
    + by rewrite lookup_modify_ne.
Qed.

(** The callback of the binding, called for a source, reads the sources and
    has its [set] rejected by the sealed target. *)
Lemma invoke_closure_frozen fuel j d nv ov v0 vals w :
  frozen v0 vals w → 0 < fuel →
  invoke fuel d (Recompute j t ds f) nv ov w
  = Some (with_calls (calls w ++ [(d, bind_fn j, nv, ov)]) w).
Proof.
  intros [(ot & Ho & Hs & Hv) Hvals] Hf. destruct fuel as [|fuel]; [lia|]. simpl.
  change (values_of ds (with_calls (calls w ++ [(d, bind_fn j, nv, ov)]) w))
    with (values_of ds w).
  rewrite Hvals. simpl. unfold set_with. simpl. rewrite Ho. simpl.
  by rewrite check_sealed.
Qed.

Lemma bind_loop_frozen fuel v0 vals rest w :
  frozen v0 vals w → 0 < fuel →
  Forall (λ d, is_Some (cells w !! d)) rest →
  ∃ us w1, bind_loop fuel t ds f rest w = Some (us, w1)
    ∧ frozen v0 vals w1
    ∧ timers w1 = timers w ∧ microtasks w1 = microtasks w
    ∧ Forall2 (λ d h, h.1 = d ∧ closure_of t ds f h.2) rest us
    ∧ (∀ c o, cells w !! c = Some o →
         ∃ o1, cells w1 !! c = Some o1
           ∧ (Exists (closure_of t ds f) (_subscribers o) ∨ c ∈ rest →
              Exists (closure_of t ds f) (_subscribers o1))).
Proof.
  intros Hw Hf. revert w Hw. induction rest as [|d rest IH]; intros w Hw Hex.
  - exists [], w. simpl. split; [done|]. split; [done|]. split; [done|]. split; [done|].
    split; [constructor|]. intros c o Hc. exists o. split; [done|].
    intros [?|Hin]; [done|]. by apply elem_of_nil in Hin.
  - apply Forall_cons in Hex as [[od Hd] Hex]. simpl.
    set (w0 := mkWorld (cells w) (timers w) (next_timer w) (S (next_closure w))
                 (clock w) (microtasks w) (calls w)).
    pose (s := Recompute (next_closure w) t ds f).
    assert (frozen v0 vals w0) as Hw0 by done.
    unfold subscribe. change (cells w0) with (cells w). rewrite Hd. simpl.
    rewrite (invoke_closure_frozen fuel _ d _ _ v0 vals);
      [|by apply frozen_push|done].
    simpl. fold s.
    match goal with |- context [bind_loop fuel t ds f rest ?u] =>
      destruct (IH u) as (us & w2 & Hloop & Hw2 & Htm & Hq & Hus & Hkeep) end.
    { eapply (frozen_push v0 vals d s) in Hw0. exact Hw0. }
    { eapply Forall_impl; [exact Hex|]. simpl. intros d' Hd'.
      apply lookup_lt_is_Some. rewrite length_alter. by apply lookup_lt_is_Some. }
    rewrite Hloop. simpl. eexists _, w2. split; [done|]. split; [done|].
    split; [done|]. split; [done|]. split.
    + constructor; [|done]. split; [done|]. by eexists.
    + intros c o Hc. destruct (decide (c = d)) as [->|Hcd].
      * rewrite Hd in Hc. injection Hc as <-.
        destruct (Hkeep d (push_subscriber s od)) as (o1 & Ho1 & Hcl).
        { simpl. by rewrite list_lookup_alter_eq, Hd. }
        exists o1. split; [done|]. intros _. apply Hcl. left. simpl.
        apply Exists_app. right. constructor. by eexists.
      * destruct (Hkeep c o) as (o1 & Ho1 & Hcl).
        { simpl. by rewrite list_lookup_alter_ne. }
        exists o1. split; [done|]. intros [Hcl'|Hin]; apply Hcl; [by left|right].
        by apply elem_of_cons in Hin as [?|?].
Qed.

(** X12. [bind] on a sealed target does not fail.  Every source gets its
    callback, the [set] of the target is rejected each time it is tried, no
    timer is started and no loop suspended, and the target keeps its value and
    stays sealed whatever is done afterwards. *)
Theorem bind_to_sealed_target fuel w ot vals :
  cells w !! t = Some ot → _state ot = sealed →
  values_of ds w = Some vals → 0 < fuel →
  ∃ us w1, bind fuel t ds f w = Some (us, w1)
    ∧ get t w1 = Some (_value ot)
    ∧ state t w1 = Some sealed
    ∧ timers w1 = timers w ∧ microtasks w1 = microtasks w
    ∧ Forall2 (λ d h, h.1 = d ∧ closure_of t ds f h.2) ds us
    ∧ (∀ d, d ∈ ds →
         ∃ od, cells w1 !! d = Some od ∧ Exists (closure_of t ds f) (_subscribers od))
    ∧ (∀ es w2, run fuel es w1 = Some w2 →
         get t w2 = Some (_value ot) ∧ state t w2 = Some sealed).
Proof.
  intros Hct Hst Hv Hf.
  destruct (bind_loop_frozen fuel (_value ot) vals ds w)
    as (us & w1 & Hloop & [(ot1 & Ho1 & Hs1 & Hv1) Hvals1] & Htm & Hq & Hus & Hkeep).
  { split; [by exists ot|done]. }
  { done. }
  { by eapply values_of_lookup. }
  unfold bind. rewrite Hloop. simpl. rewrite Hvals1. simpl.
  rewrite (set_sealed fuel t _ w1 ot1) by done. simpl.
  exists us, w1. split; [done|]. unfold get, state. rewrite Ho1. simpl.
  rewrite Hv1, Hs1. split; [done|]. split; [done|]. split; [done|]. split; [done|].
  split; [done|]. split.
  - intros d Hd.
    assert (is_Some (cells w !! d)) as [od Hod].
    { pose proof (values_of_lookup ds w vals Hv) as Hall.
      rewrite Forall_forall in Hall. by apply Hall. }
    destruct (Hkeep d od Hod) as (o1 & Hc1 & Hcl). exists o1. split; [done|].
    apply Hcl. by right.
  - intros es w2 Hr. destruct (run_evolves _ _ _ _ Hr) as (Hc & _).
    destruct (Hc _ _ Ho1) as (o2 & Ho2 & _ & _ & Hseal).
    destruct (Hseal Hs1) as [Hs2 Hv2]. rewrite Ho2. simpl. by rewrite Hs2, Hv2, Hv1.
Qed.

End SealedTarget.

(** ** The further properties at concrete cells *)

(** The cell of [watched] with a second listener [f8]. *)
Definition watched_by_two : world Z :=
  mkWorld [mkObservable unsealed [Listener 7; Listener 8] 0%Z no_options [0%Z] None None []]
    [] 0 0 0 [] [].

Definition throttled20_debounced10 : ObservableOptions := mkOptions (Some 10) (Some 20).

(** The premises of a theorem at a concrete world. *)
Ltac settle := first [done | lia | by repeat constructor | by vm_compute | simpl; lia].

Lemma set_then_get_witness :
  ∃ w', set 1 0 5%Z (watched (Some debounced10)) = Some (Fulfilled, w')
    ∧ get 0 w' = Some 5%Z
    ∧ state 0 w' = Some unsealed
    ∧ _subscribers <$> cells w' !! 0 = Some [Listener 7]
    ∧ (∀ c', c' ≠ 0 → cells w' !! c' = cells (watched (Some debounced10)) !! c').
Proof.
  assert (H := set_then_get 1 0 5%Z (watched (Some debounced10))
                 (watched_cell (Some debounced10))).
  vm_compute in H |- *. apply H; settle.
Defined.

Lemma update_to_same_value_witness :
  update 1 0 Z.abs (watched None) = Some (Returned, watched None).
Proof.
  apply (update_to_same_value 1 0 Z.abs (watched None) (watched_cell None)); settle.
Defined.

Lemma mute_unmute_round_trip_witness :
  ∃ w1, mute 0 (watched None) = Some (Returned, w1)
    ∧ state 0 w1 = Some muted
    ∧ fields <$> cells w1 !! 0 = Some (fields (with_state muted (watched_cell None)))
    ∧ mute 0 w1 = Some (Returned, w1)
    ∧ unmute 0 w1 = Some (Returned, watched None)
    ∧ unmute 0 (watched None) = Some (Returned, watched None).
Proof.
  assert (H := mute_unmute_round_trip 0 (watched None) (watched_cell None)).
  vm_compute in H |- *. apply H; settle.
Defined.

Lemma muted_change_is_never_delivered_witness :
  ∃ w1 w2,
    run 1 [Mute 0; Set_ 0 5%Z; EndOfTask; Unmute 0; Wait 3] (watched None) = Some w1
    ∧ w1 = with_clock 3 (with_cells [with_value 5%Z (watched_cell None)] (watched None))
    ∧ run 1 [Set_ 0 7%Z; EndOfTask] w1 = Some w2
    ∧ get 0 w2 = Some 7%Z
    ∧ calls w2 = calls (watched None) ++ [(0, user_fn 7, 7%Z, Some 5%Z)]
    ∧ _history <$> cells w2 !! 0 = Some [0%Z; 7%Z].
Proof.
  assert (H := muted_change_is_never_delivered 1 0 5%Z 7%Z 3 (watched None)
                 (watched_cell None)).
  vm_compute in H |- *. apply H; settle.
Defined.

Lemma mute_leaves_debounce_timer_witness :
  ∃ w1 w2,
    run 1 [Set_ 0 1%Z; EndOfTask; Mute 0] (watched (Some debounced10)) = Some w1
    ∧ state 0 w1 = Some muted
    ∧ calls w1 = calls (watched (Some debounced10))
    ∧ run 1 [Wait 10] w1 = Some w2
    ∧ state 0 w2 = Some muted
    ∧ calls w2 = calls (watched (Some debounced10)) ++ [(0, user_fn 7, 1%Z, Some 0%Z)]
    ∧ _history <$> cells w2 !! 0 = Some [0%Z; 1%Z].
Proof.
  apply (mute_leaves_debounce_timer 1 0 1%Z (watched (Some debounced10))
           (watched_cell (Some debounced10)) 10 10); settle.
Defined.

Lemma sets_in_one_task_interleave_witness :
  ∃ w', run 4 [Set_ 0 1%Z; Set_ 0 2%Z; EndOfTask] watched_by_two = Some w'
    ∧ calls w'
      = [(0, user_fn 7, 1%Z, Some 0%Z); (0, user_fn 7, 2%Z, Some 1%Z);
         (0, user_fn 8, 1%Z, Some 0%Z); (0, user_fn 8, 2%Z, Some 1%Z)]
    ∧ get 0 w' = Some 2%Z
    ∧ _history <$> cells w' !! 0 = Some [0%Z; 1%Z; 2%Z]
    ∧ microtasks w' = [].
Proof.
  assert (H := sets_in_one_task_interleave 4 0 [1%Z; 2%Z] watched_by_two
                 (mkObservable unsealed [Listener 7; Listener 8] 0%Z no_options [0%Z] None
                    None [])).
  vm_compute in H |- *. apply H; settle.
Defined.

Lemma subscriber_added_in_flight_witness :
  ∃ w', run 2 [Set_ 0 1%Z; Subscribe 0 8; EndOfTask] (watched None) = Some w'
    ∧ calls w'
      = calls (watched None)
          ++ [(0, user_fn 7, 1%Z, Some 0%Z); (0, user_fn 8, 1%Z, None)]
          ++ [(0, user_fn 8, 1%Z, Some 0%Z)]
    ∧ _subscribers <$> cells w' !! 0 = Some [Listener 7; Listener 8]
    ∧ _history <$> cells w' !! 0 = Some [0%Z; 1%Z].
Proof.
  assert (H := subscriber_added_in_flight 2 0 1%Z 8 (watched None) (watched_cell None)
                 (Listener 7) []).
  vm_compute in H |- *. apply H; settle.
Defined.

Lemma sealed_cell_notifies_nobody_witness :
  ∃ w w',
    seal 0 (watched None) = Some (Returned, w)
    ∧ run 2 [Set_ 0 5%Z; Create 1%Z None; Subscribe 1 9; Set_ 1 3%Z; EndOfTask; Wait 5] w
      = Some w'
    ∧ state 0 w' = Some sealed
    ∧ ∃ l, calls w' = calls w ++ l ∧ Forall (λ e : call Z, e.1.1.1 ≠ 0) l.
Proof.
  do 2 eexists. split; [vm_compute; reflexivity|]. split; [vm_compute; reflexivity|].
  eapply (sealed_cell_notifies_nobody 0 2 (watched None) Returned _
            [Set_ 0 5%Z; Create 1%Z None; Subscribe 1 9; Set_ 1 3%Z; EndOfTask; Wait 5]);
    [by intros t v ov Ht%elem_of_nil|by intros k Hk%elem_of_nil|vm_compute; reflexivity
    |by repeat constructor|by vm_compute].
Defined.

Lemma timers_agree_with_handles_witness :
  ∃ w,
    run 1 [Create 0%Z (Some throttled20_debounced10); Subscribe 0 7; Set_ 0 1%Z; EndOfTask;
           Wait 3; Set_ 0 2%Z; EndOfTask] empty_world = Some w
    ∧ ∀ c o, cells w !! c = Some o →
        length (throttle_timers c w) = (if _throttleTimeout o is Some _ then 1 else 0)
        ∧ length (debounce_timers c w) ≤ 1
        ∧ (∀ t, t ∈ debounce_timers c w → _debounceTimeout o = Some (timer_id t)).
Proof.
  eexists. split; [vm_compute; reflexivity|].
  apply (timers_agree_with_handles 1
           [Create 0%Z (Some throttled20_debounced10); Subscribe 0 7; Set_ 0 1%Z; EndOfTask;
            Wait 3; Set_ 0 2%Z; EndOfTask]).
  by vm_compute.
Defined.

Lemma throttle_with_debounce_delivers_first_witness :
  ∃ w1 w2,
    run 1 [Set_ 0 1%Z; EndOfTask; Set_ 0 2%Z; EndOfTask]
      (watched (Some throttled20_debounced10)) = Some w1
    ∧ timers w1 = [mkTimer 0 20 (throttle_expired 0);
                   mkTimer 1 10 (debounce_elapsed 0 1%Z 0%Z)]
    ∧ run 1 [Wait 15] w1 = Some w2
    ∧ get 0 w2 = Some 2%Z
    ∧ calls w2 = calls (watched (Some throttled20_debounced10))
                   ++ [(0, user_fn 7, 1%Z, Some 0%Z)]
    ∧ _history <$> cells w2 !! 0 = Some [0%Z; 1%Z].
Proof.
  apply (throttle_with_debounce_delivers_first 1 0 1%Z 2%Z
           (watched (Some throttled20_debounced10))
           (watched_cell (Some throttled20_debounced10)) 20 10 15); settle.
Defined.

Lemma debounce_reads_subscribers_when_it_fires_witness :
  ∃ w',
    run 2 [Set_ 0 1%Z; EndOfTask; Unsubscribe (0, Listener 7); Subscribe 0 8; EndOfTask;
           Wait 10] (watched (Some debounced10)) = Some w'
    ∧ calls w'
      = calls (watched (Some debounced10)) ++ [(0, user_fn 8, 1%Z, None)]
          ++ [(0, user_fn 8, 1%Z, Some 0%Z)]
    ∧ _history <$> cells w' !! 0 = Some [0%Z; 1%Z].
Proof.
  assert (H := debounce_reads_subscribers_when_it_fires 2 0 1%Z
                 (watched (Some debounced10)) (watched_cell (Some debounced10)) 10 10
                 (Listener 7) 8).
  vm_compute in H |- *. apply H; settle.
Defined.

Lemma bind_to_sealed_target_witness :
  ∃ w,
    run 1 [Seal 2] derivation = Some w
    ∧ ∃ us w1, bind 1 2 [0; 1] sum_of w = Some (us, w1)
      ∧ get 2 w1 = Some 0%Z
      ∧ state 2 w1 = Some sealed
      ∧ timers w1 = timers w ∧ microtasks w1 = microtasks w
      ∧ Forall2 (λ d h, h.1 = d ∧ closure_of 2 [0; 1] sum_of h.2) [0; 1] us
      ∧ (∀ d, d ∈ [0; 1] →
           ∃ od, cells w1 !! d = Some od
                 ∧ Exists (closure_of 2 [0; 1] sum_of) (_subscribers od))
      ∧ (∀ es w2, run 1 es w1 = Some w2 →
           get 2 w2 = Some 0%Z ∧ state 2 w2 = Some sealed).
Proof.
  eexists. split; [vm_compute; reflexivity|].
  apply (bind_to_sealed_target 2 [0; 1] sum_of 1 _
           (mkObservable sealed [] 0%Z no_options [0%Z] None None [[Listener 9]])
           [1%Z; 2%Z]);
    [by vm_compute|done|by vm_compute|lia].
Defined.

(** * Input elements

    [InputElementObservable] of observable.ts and [cheeze] of index.ts: a cell
    whose value is the text of an input element of the page. *)

(** ** The page *)

(** [eventName] of ['change input'.split(' ')] *)
Inductive dom_event := change | input.

#[global] Instance dom_event_eq_dec : EqDecision dom_event.
Proof. solve_decision. Defined.

(** An [InputElementObservable]: the cell of the [BasicObservable<string>] it
    extends and its field [inputElement]. *)
Record InputElementObservable := mkInput {
  cell : nat;
  inputElement : nat;
}.

#[global] Instance InputElementObservable_eq_dec : EqDecision InputElementObservable.
Proof. solve_decision. Defined.

Section Page.

(** The strings. *)
Context {S : Type} `{EqDecision S}.

(** What [cheeze] is given and what a cell holds: a string, an input or
    textarea element of the page, or [undefined]. *)
Inductive value :=
  | Text (s : S)
  | Element (e : nat)
  | Undefined.

#[global] Instance value_eq_dec : EqDecision value.
Proof. solve_decision. Defined.

(** An input or textarea element: its [value]; the listeners added with
    [addEventListener], oldest first; and its value sanitization, the text
    that the element keeps of a text it is given (a text input strips the
    line breaks, a number input keeps nothing of a text that is no number).
    The listener that the constructor of [InputElementObservable] adds is the
    closure [() => { this.value = inputElement.value }], given by the object
    it has captured. *)
Record element := mkElement {
  el_value : S;
  el_listeners : list (dom_event * InputElementObservable);
  el_sanitize : S → S;
}.

(** [element.value = v], and an edit of the user that leaves [v]: the element
    takes the text as it keeps it. *)
Definition assign_text (v : S) (el : element) : element :=
  mkElement (el_sanitize el v) (el_listeners el) (el_sanitize el).

(** The cells, the elements, and whether [window] is defined. *)
Record page := mkPage {
  observables : world value;
  elements : list element;
  isBrowser : bool;
}.

Definition on_cells (w : world value) (p : page) : page :=
  mkPage w (elements p) (isBrowser p).

(** [isDOMInputElement(value)]; when it holds, the value is the element
    returned. *)
Definition isDOMInputElement (p : page) (v : value) : option nat :=
  if isBrowser p then
    match v with
    | Element e => Some e
    | Text _ | Undefined => None
    end
  else None.

(** The setter [value] of [InputElementObservable]:
    [this.inputElement.value = value; super.set(value);]
    The element takes the text as it keeps it, [set] is given the text as it
    is.  The promise that [set] returns is dropped. *)
Definition set_value (fuel : nat) (x : InputElementObservable) (v : S) (p : page) : option page :=
  el ← elements p !! inputElement x;
  let els := <[inputElement x:=assign_text v el]> (elements p) in
  r ← set fuel (cell x) (Text v) (observables p);
  Some (mkPage r.2 els (isBrowser p)).

(** The constructor of [InputElementObservable]. *)
Definition new_InputElementObservable (e : nat) (options : option ObservableOptions)
    (p : page) : option (InputElementObservable * page) :=
  el ← elements p !! e;
  let '(c, w) := create (Text (el_value el)) options (observables p) in
  let this := mkInput c e in
  Some (this,
        mkPage w
          (<[e:=mkElement (el_value el) (el_listeners el ++ [(change, this); (input, this)])
                  (el_sanitize el)]>
             (elements p))
          (isBrowser p)).

(** What [cheeze] returns. *)
Inductive observable :=
  | Basic (c : nat)
  | Input (x : InputElementObservable).

(** [cheeze(input, options)] of index.ts. *)
Definition cheeze_on (input : value) (options : option ObservableOptions) (p : page)
    : option (observable * page) :=
  match isDOMInputElement p input with
  | Some e =>
      r ← new_InputElementObservable e None p;
      Some (Input r.1, r.2)
  | None =>
      let '(c, w) := cheeze input options (observables p) in
      Some (Basic c, on_cells w p)
  end.

(** The listeners run one after the other; each reads [inputElement.value] and
    assigns it to [this.value].  The events are the browser's own, so the
    promise jobs run each time a listener has returned. *)
Fixpoint call_listeners (fuel : nat) (xs : list InputElementObservable) (p : page)
    : option page :=
  match xs with
  | [] => Some p
  | x :: xs =>
      el ← elements p !! inputElement x;
      p' ← set_value fuel x (el_value el) p;
      w ← drain fuel (observables p');
      call_listeners fuel xs (on_cells w p')
  end.

(** An event [name] is dispatched on the element [e]. *)
Definition dispatch (fuel : nat) (e : nat) (name : dom_event) (p : page) : option page :=
  el ← elements p !! e;
  call_listeners fuel (snd <$> filter (λ l, l.1 = name) (el_listeners el)) p.

(** The input observables made so far: those with a listener on an
    element. *)
Definition inputs (p : page) : list InputElementObservable :=
  (mjoin (el_listeners <$> elements p)).*2.

(** [dependency.value], where [v] is the field [_value] of the dependency
    [d].  [InputElementObservable] declares the setter [value] alone, and the
    accessor it declares hides the getter of [BasicObservable]: read on an
    input observable, the property is [undefined], whatever the cell holds. *)
Definition reads (p : page) (d : nat) (v : value) : value :=
  if decide (d ∈ cell <$> inputs p) then Undefined else v.

(** What the code does with the cells of the page: in [bind], [compute] is
    given what [dependency.value] reads of each dependency. *)
Definition on_page (p : page) (ev : event value) : event value :=
  match ev with
  | Bind target dependencies compute =>
      Bind target dependencies
        (λ args, compute (zip_with (reads p) dependencies args))
  | _ => ev
  end.

(** What [compute] is given where the fields [_value] of the dependencies
    are [vals]: [undefined] for an input observable, the value for another
    cell. *)
Definition read_as (p : page) (dependencies : list nat) (vals args : list value) : Prop :=
  length args = length dependencies
  ∧ (∀ i x, dependencies !! i = Some (cell x) → x ∈ inputs p → args !! i = Some Undefined)
  ∧ (∀ i d, dependencies !! i = Some d → d ∉ cell <$> inputs p → args !! i = vals !! i).

(** What happens on the page, one step at a time: a call of [cheeze], an
    assignment [x.value = v], the user editing the text of an element (the
    element takes the text as it keeps it and ['input'] is dispatched), the
    user leaving it (['change'] is dispatched), and what the code does with
    the cells. *)
Inductive action :=
  | Cheeze (input : value) (options : option ObservableOptions)
  | Assign (x : InputElementObservable) (v : S)
  | Typed (e : nat) (s : S)
  | Committed (e : nat)
  | OnCells (ev : event value).

Definition act (fuel : nat) (a : action) (p : page) : option page :=
  match a with
  | Cheeze i o => snd <$> cheeze_on i o p
  | Assign x v => set_value fuel x v p
  | Typed e s =>
      el ← elements p !! e;
      dispatch fuel e input
        (mkPage (observables p) (<[e:=assign_text s el]> (elements p)) (isBrowser p))
  | Committed e => dispatch fuel e change p
  | OnCells ev => w ← step fuel (on_page p ev) (observables p); Some (on_cells w p)
  end.

Fixpoint perform (fuel : nat) (acts : list action) (p : page) : option page :=
  match acts with
  | [] => Some p
  | a :: acts => p' ← act fuel a p; perform fuel acts p'
  end.

End Page.

Arguments value S : clear implicits.
Arguments element S : clear implicits.
Arguments page S : clear implicits.
Arguments action S : clear implicits.


(** ** What [cheeze] makes, and what an assignment and an edit do *)

Section PageFacts.

Context {S : Type} `{EqDecision S}.

Implicit Types (p : page S) (el : element S) (x : InputElementObservable)
  (this : BasicObservable (value S)).

(** X13. [cheeze] given an input element of the page.  In a browser it makes an
    [InputElementObservable] on a new cell that holds the text of the element,
    unsealed and without subscribers; the options are dropped (the cell has
    none, and the result is the one of a call without options); the element
    gets the listeners of ['change'] and ['input'] after those it had; the
    other elements and the older cells are as before.  Where [window] is not
    defined the element itself becomes the value of a plain cell, with the
    options, and no listener is added. *)
Theorem cheeze_on_element options e el p :
  elements p !! e = Some el →
  let c := length (cells (observables p)) in
  let v := Text (el_value el) in
  if isBrowser p then
    ∃ p', cheeze_on (Element e) options p = Some (Input (mkInput c e), p')
      ∧ cheeze_on (Element e) None p = Some (Input (mkInput c e), p')
      ∧ cells (observables p') !! c
        = Some (mkObservable unsealed [] v no_options [v] None None [])
      ∧ elements p' !! e
        = Some (mkElement (el_value el)
                  (el_listeners el ++ [(change, mkInput c e); (input, mkInput c e)])
                  (el_sanitize el))
      ∧ (∀ e', e' ≠ e → elements p' !! e' = elements p !! e')
      ∧ (∀ c', c' < c → cells (observables p') !! c' = cells (observables p) !! c')
  else
    ∃ p', cheeze_on (Element e) options p = Some (Basic c, p')
      ∧ cells (observables p') !! c
        = Some (mkObservable unsealed [] (Element e) (default no_options options)
                  [Element e] None None [])
      ∧ elements p' = elements p.
Proof.
  intros He c v. unfold cheeze_on, isDOMInputElement.
  assert (e < length (elements p)) as Hlt by (by eapply lookup_lt_Some).
  destruct (isBrowser p) eqn:Hb.
  - unfold new_InputElementObservable. rewrite He. simpl.
    eexists. split; [done|]. split; [done|]. simpl.
    rewrite lookup_app_r, Nat.sub_diag by done. split; [done|].
    rewrite list_lookup_insert_eq by done. split; [done|]. split.
    + intros e' Hne. by rewrite list_lookup_insert_ne.
    + intros c' Hc'. by rewrite lookup_app_l.
  - simpl. eexists. split; [done|]. simpl.
    rewrite lookup_app_r, Nat.sub_diag by done. done.
Qed.

(** X15. The setter [value] writes the element before it calls [set], and
    the two are not given the same text: the element has the text as it keeps
    it (its sanitization of the text assigned) and keeps its listeners, while
    the cell, unless it is sealed, has the text as it was assigned; they agree
    when the element keeps the text as it is.  On a sealed cell [set] is
    rejected after the write, so the element has changed and the cells are as
    before.  The subscribers of the cell are plain functions. *)
Theorem assign_writes_the_element_first fuel x v p el this :
  elements p !! inputElement x = Some el →
  cells (observables p) !! cell x = Some this →
  Forall is_listener (_subscribers this) →
  ∃ p', set_value fuel x v p = Some p'
    ∧ elements p'
      = <[inputElement x:=mkElement (el_sanitize el v) (el_listeners el) (el_sanitize el)]>
          (elements p)
    ∧ (if decide (_state this = sealed)
       then observables p' = observables p
       else get (cell x) (observables p') = Some (Text v)).
Proof.
  intros He Hc HA. unfold set_value. rewrite He. simpl.
  destruct (decide (_state this = sealed)) as [Hs|Hs].
  - rewrite (set_sealed fuel _ _ _ this) by done. simpl. by eexists.
  - destruct (target_set (cell x) fuel (Text v) (observables p) this Hc Hs HA)
      as (o' & extra & w' & Hset & Hcells & Hv & _).
    unfold set. rewrite Hset. simpl. eexists. split; [done|]. split; [done|].
    unfold get. simpl. rewrite Hcells, list_lookup_insert_eq by (by eapply lookup_lt_Some).
    simpl. by rewrite Hv.
Qed.

Lemma set_then_drain {T} `{EqDecision T} fuel c (v : T) (w w2 : world T) :
  run fuel [Set_ c v; EndOfTask] w = Some w2 →
  ∃ r w1, set fuel c v w = Some (r, w1) ∧ drain fuel w1 = Some w2.
Proof.
  simpl. destruct (set fuel c v w) as [[r w1]|]; [|done]. simpl.
  destruct (drain fuel w1) as [w2'|] eqn:Hd; [|done]. simpl. intros [= <-]. eauto.
Qed.

(** X14. The user types [s] in the element of an input observable and then
    leaves it.  The listener of ['input'] sets the cell to [s] and the
    subscribers are called once, with the text the cell had as the old value;
    the listener of ['change'] then sets the same text, and nobody is called a
    second time.  [s] is a text that the element keeps as it is; the cell is
    unsealed, neither throttled nor debounced, its subscribers are plain
    functions, and [s] is not the text it had. *)
Theorem typed_text_is_notified_once fuel x s p el this :
  elements p !! inputElement x = Some el →
  el_sanitize el s = s →
  el_listeners el = [(change, x); (input, x)] →
  cells (observables p) !! cell x = Some this →
  _state this = unsealed →
  truthy (throttle (_options this)) = None →
  truthy (debounce (_options this)) = None →
  microtasks (observables p) = [] →
  Text s ≠ _value this →
  Forall is_listener (_subscribers this) →
  length (_subscribers this) ≤ fuel →
  ∃ p',
    perform fuel [Typed (inputElement x) s; Committed (inputElement x)] p = Some p'
    ∧ el_value <$> elements p' !! inputElement x = Some s
    ∧ get (cell x) (observables p') = Some (Text s)
    ∧ calls (observables p')
      = calls (observables p)
          ++ notifications (cell x) (_subscribers this) (Text s) (_value this)
    ∧ _history <$> cells (observables p') !! cell x = Some (_history this ++ [Text s]).
Proof.
  intros He Hkeep Hls Hc Hs Ht Hd Hq Hv HA Hn.
  assert (inputElement x < length (elements p)) as Hlt by (by eapply lookup_lt_Some).
  assert (cell x < length (cells (observables p))) as Hltc by (by eapply lookup_lt_Some).
  pose proof (set_notifies fuel (cell x) (Text s) (observables p) this
                Hc Hs Hv Ht Hd Hq HA Hn) as Hrun.
  apply set_then_drain in Hrun as (r & w1 & Hset & Hdrain).
  set (w2 := mkWorld (<[cell x:=push_history (Text s) (with_value (Text s) this)]>
                        (cells (observables p)))
               (timers (observables p)) (next_timer (observables p))
               (next_closure (observables p)) (clock (observables p)) []
               (calls (observables p)
                  ++ notifications (cell x) (_subscribers this) (Text s) (_value this))) in *.
  assert (cells w2 !! cell x = Some (push_history (Text s) (with_value (Text s) this)))
    as Hc2 by (simpl; by apply list_lookup_insert_eq).
  assert (set fuel (cell x) (Text s) w2 = Some (Fulfilled, w2)) as Hset2.
  { unfold set, set_with. rewrite Hc2. simpl.
    rewrite check_not_sealed by (simpl; by rewrite Hs).
    rewrite (modify_id (cell x)) by (intros o; rewrite Hc2; by intros [= <-]).
    unfold _notify. rewrite Hc2. simpl. rewrite decide_False by (by rewrite Hs).
    by rewrite decide_True. }
  set (el1 := mkElement s (el_listeners el) (el_sanitize el)).
  assert (assign_text s el = el1) as Hel by (unfold assign_text; by rewrite Hkeep).
  assert (assign_text s el1 = el1) as Hel1 by (unfold assign_text; simpl; by rewrite Hkeep).
  set (els := <[inputElement x:=el1]> (elements p)).
  assert (els !! inputElement x = Some el1) as He1 by (by apply list_lookup_insert_eq).
  assert (<[inputElement x:=el1]> els = els) as Hels
    by (unfold els; by rewrite list_insert_insert_eq).
  exists (mkPage w2 els (isBrowser p)). split.
  - simpl. rewrite He. simpl. unfold dispatch. simpl. rewrite Hel. fold els.
    rewrite He1. simpl.
    rewrite Hls. simpl. rewrite He1. simpl. unfold set_value at 1. simpl.
    rewrite He1. simpl. rewrite Hset. simpl. rewrite Hdrain. simpl.
    rewrite Hel1, Hels. unfold on_cells. simpl. rewrite He1. simpl. rewrite Hls. simpl.
    rewrite He1. simpl. unfold set_value. simpl. rewrite He1. simpl.
    rewrite Hset2. simpl. rewrite drain_nil by done. simpl. by rewrite Hel1, Hels.
  - cbn [elements observables]. rewrite He1. unfold get. rewrite Hc2. done.
Qed.

Lemma reads_as p (ds : list nat) (vals : list (value S)) :
  length vals = length ds → read_as p ds vals (zip_with (reads p) ds vals).
Proof.
  intros Hlen. split; [|split].
  - rewrite length_zip_with. lia.
  - intros i x Hi Hx. rewrite lookup_zip_with, Hi. simpl.
    destruct (vals !! i) as [v|] eqn:Hv; simpl.
    + unfold reads. rewrite decide_True; [done|]. by apply list_elem_of_fmap_2.
    + apply lookup_ge_None in Hv. apply lookup_lt_Some in Hi. lia.
  - intros i d Hi Hd. rewrite lookup_zip_with, Hi. simpl.
    destruct (vals !! i) as [v|] eqn:Hv; simpl; [|done].
    unfold reads. by rewrite decide_False.
Qed.

(** X17. [bind] on a page, where dependencies can be input observables.  The
    target is set to [compute] over what [dependency.value] reads: the value
    of a plain cell, and [undefined] for an input observable, whatever the
    text of its element and of its cell.  The same holds of every later call
    of the callbacks that [bind] registers on the dependencies: [compute] is
    never given the text of an input observable.  The target is not sealed,
    its own subscribers are plain functions and it is not a dependency. *)
Theorem bind_reads_undefined_of_input fuel t ds f p ot vals :
  cells (observables p) !! t = Some ot → _state ot ≠ sealed →
  Forall is_listener (_subscribers ot) →
  t ∉ ds → values_of ds (observables p) = Some vals → 0 < fuel →
  ∃ p' args,
    act fuel (OnCells (Bind t ds f)) p = Some p'
    ∧ elements p' = elements p
    ∧ get t (observables p') = Some (f args)
    ∧ read_as p ds vals args
    ∧ ∀ d, d ∈ ds →
        ∃ od, cells (observables p') !! d = Some od
          ∧ Exists (λ s, ∃ j g, s = Recompute j t ds g
                      ∧ ∀ vals', length vals' = length ds →
                          ∃ args', g vals' = f args' ∧ read_as p ds vals' args')
              (_subscribers od).
Proof.
  intros Hct Hst HA Hnt Hv Hf. simpl.
  destruct (bind_spec t ds (λ args, f (zip_with (reads p) ds args)) fuel (observables p)
              ot vals Hct Hst HA Hnt Hv Hf)
    as (us & w1 & Hb & Hg & _ & _ & _ & _ & Hcl).
  rewrite Hb. simpl. eexists _, _. split; [done|]. split; [done|]. split; [exact Hg|].
  assert (length vals = length ds) as Hlen.
  { unfold values_of in Hv. by apply length_mapM in Hv. }
  split; [by apply reads_as|].
  intros d Hd. destruct (Hcl d Hd) as (od & Hod & Hex). exists od. split; [done|].
  eapply Exists_impl; [exact Hex|]. simpl. intros s' [j ->].
  exists j, (λ args, f (zip_with (reads p) ds args)). split; [done|].
  intros vals' Hlen'. eexists. split; [done|]. by apply reads_as.
Qed.

End PageFacts.

(** ** Cells that only their own [set] writes *)

Section Shield.

Context {T : Type} `{EqDecision T}.

Implicit Types (w : world T) (o this : BasicObservable T) (k : continuation T).

(** The cells that nothing but their own [set] may write. *)
Variable I : nat → Prop.

(** A subscriber that writes none of them: a plain function, or a callback of
    [bind] whose target is another cell. *)
Definition spares (s : Subscriber T) : Prop :=
  match s with
  | Listener _ => True
  | Recompute _ t _ _ => ¬ I t
  end.

(** Its target is one of the [n] cells there are. *)
Definition guarded (n : nat) (s : Subscriber T) : Prop :=
  match s with
  | Listener _ => True
  | Recompute _ t _ _ => ¬ I t ∧ t < n
  end.

Definition guarded_cell (n : nat) o : Prop :=
  Forall (guarded n) (_subscribers o) ∧ Forall (Forall (guarded n)) (_replaced o).

(** Every subscriber of every array is guarded. *)
Definition shielded w : Prop := Forall (guarded_cell (length (cells w))) (cells w).

(** The cells of [I] have the values they had, and none has been sealed. *)
Definition kept w w' : Prop :=
  ∀ c o, I c → cells w !! c = Some o →
    ∃ o', cells w' !! c = Some o' ∧ _value o' = _value o
          ∧ (_state o ≠ sealed → _state o' ≠ sealed).

Definition careful (inv : nat → Subscriber T → T → option T → world T → option (world T)) : Prop :=
  ∀ c s nv ov w w',
    guarded (length (cells w)) s → shielded w → inv c s nv ov w = Some w' →
    shielded w' ∧ kept w w'.

Lemma kept_refl w : kept w w.
Proof. intros c o _ Ho. by exists o. Qed.

Lemma kept_trans w1 w2 w3 : kept w1 w2 → kept w2 w3 → kept w1 w3.
Proof.
  intros H12 H23 c o Hc Ho. destruct (H12 c o Hc Ho) as (o2 & Ho2 & Hv2 & Hs2).
  destruct (H23 c o2 Hc Ho2) as (o3 & Ho3 & Hv3 & Hs3).
  exists o3. split; [done|]. split; [congruence|auto].
Qed.

Lemma kept_cells w w' : cells w' = cells w → kept w w'.
Proof. intros Hc c o _ Ho. exists o. by rewrite Hc. Qed.

Lemma shielded_cells w w' : cells w' = cells w → shielded w → shielded w'.
Proof. unfold shielded. by intros ->. Qed.

Lemma array_of_guarded w c o a :
  shielded w → cells w !! c = Some o → Forall (guarded (length (cells w))) (array_of o a).
Proof.
  intros Hw Ho. eapply Forall_lookup_1 in Hw as [Hs Hr]; [|done].
  unfold array_of. case_decide; [done|].
  destruct (_replaced o !! a) as [A|] eqn:HA; simpl; [|constructor].
  by eapply Forall_lookup_1 in Hr.
Qed.

Lemma shielded_modify c g w :
  (∀ o, guarded_cell (length (cells w)) o → guarded_cell (length (cells w)) (g o)) →
  shielded w → shielded (modify c g w).
Proof.
  intros Hg Hw. unfold shielded, modify. simpl. rewrite length_alter.
  apply Forall_alter; auto.
Qed.

Lemma kept_modify c g w :
  (I c → ∀ o, _value (g o) = _value o ∧ (_state o ≠ sealed → _state (g o) ≠ sealed)) →
  kept w (modify c g w).
Proof.
  intros Hg c' o Hc' Ho. destruct (decide (c = c')) as [<-|Hne].
  - exists (g o). rewrite lookup_modify, Ho. split; [done|]. by apply Hg.
  - exists o. by rewrite lookup_modify_ne.
Qed.

(** Updates of one field that is neither the value nor an array. *)
Definition aside (g : BasicObservable T → BasicObservable T) : Prop :=
  ∀ o, _subscribers (g o) = _subscribers o ∧ _replaced (g o) = _replaced o
       ∧ _value (g o) = _value o ∧ (_state o ≠ sealed → _state (g o) ≠ sealed).

Lemma modify_aside c g w :
  aside g → shielded w → shielded (modify c g w) ∧ kept w (modify c g w).
Proof.
  intros Hg Hw. split.
  - apply shielded_modify; [|done]. intros o [Hs Hr].
    destruct (Hg o) as (Es & Er & _). split; by rewrite ?Es, ?Er.
  - apply kept_modify. intros _ o. by destruct (Hg o) as (_ & _ & ? & ?).
Qed.

Lemma guarded_mono n n' s : n ≤ n' → guarded n s → guarded n' s.
Proof. intros Hn. destruct s as [|k t ds f]; [done|]. intros [? ?]. split; [done|lia]. Qed.

Lemma guarded_cell_mono n n' o : n ≤ n' → guarded_cell n o → guarded_cell n' o.
Proof.
  intros Hn [Hs Hr]. split.
  - eapply Forall_impl; [done|]. intros s. by apply guarded_mono.
  - eapply Forall_impl; [done|]. intros A HA.
    eapply Forall_impl; [done|]. intros s. by apply guarded_mono.
Qed.

Lemma shielded_value c v w : shielded w → shielded (modify c (with_value v) w).
Proof. apply shielded_modify. by intros o [Hs Hr]. Qed.

Lemma shielded_push c s w :
  guarded (length (cells w)) s → shielded w → shielded (modify c (push_subscriber s) w).
Proof.
  intros Hs. apply shielded_modify. intros o [HA Hr]. split; [|done]. simpl.
  apply Forall_app. split; [done|by repeat constructor].
Qed.

Lemma shielded_assign c A w :
  Forall (guarded (length (cells w))) A → shielded w →
  shielded (modify c (assign_subscribers A) w).
Proof.
  intros HA. apply shielded_modify. intros o [Hs Hr]. split; [done|]. simpl.
  apply Forall_app. split; [done|by repeat constructor].
Qed.

Section ShieldInvoke.

Variable inv : nat → Subscriber T → T → option T → world T → option (world T).
Hypothesis inv_careful : careful inv.

Lemma iterate_shield k w w' :
  shielded w → iterate inv k w = Some w' → shielded w' ∧ kept w w'.
Proof.
  unfold iterate. intros Hw Hi.
  destruct (cells w !! k_this k) as [this|] eqn:Hc; simplify_eq/=.
  destruct (array_of this (k_array k) !! k_index k) as [s|] eqn:Hs; simplify_eq/=.
  - destruct (inv _ _ _ _ w) as [w1|] eqn:Hi1; simplify_eq/=.
    assert (guarded (length (cells w)) s) as Hg.
    { eapply Forall_lookup_1; [by eapply array_of_guarded|done]. }
    destruct (inv_careful _ _ _ _ _ _ Hg Hw Hi1) as [Hw1 Hk1].
    split; [by eapply shielded_cells|].
    eapply kept_trans; [done|by apply kept_cells].
  - by apply modify_aside.
Qed.

Lemma for_of_shield c nv ov w w' :
  shielded w → for_of inv c nv ov w = Some w' → shielded w' ∧ kept w w'.
Proof.
  unfold for_of. intros Hw Hf.
  destruct (cells w !! c) as [this|] eqn:Hc; simplify_eq/=.
  by eapply iterate_shield.
Qed.

Lemma throttle_gate_shield c this w w' :
  shielded w → throttle_gate c this w = Some w' → shielded w' ∧ kept w w'.
Proof.
  unfold throttle_gate. intros Hw Hg.
  destruct (truthy _); [|simplify_eq; split; [done|apply kept_refl]].
  destruct (_throttleTimeout this); simplify_eq/=.
  match goal with |- shielded (modify _ _ ?u) ∧ _ =>
    destruct (modify_aside c (with_throttleTimeout (Some (next_timer w))) u) as [H1 H2];
      [done|by eapply shielded_cells|] end.
  split; [done|]. eapply kept_trans; [|done]. by apply kept_cells.
Qed.

Lemma _notify_shield c nv ov w w' :
  shielded w → _notify inv c nv ov w = Some w' → shielded w' ∧ kept w w'.
Proof.
  unfold _notify. intros Hw Hn.
  destruct (cells w !! c) as [this|]; simplify_eq/=.
  repeat case_decide; simplify_eq; try (split; [done|apply kept_refl]).
  destruct (throttle_gate c this w) as [w1|] eqn:Hg;
    [|simplify_eq; split; [done|apply kept_refl]].
  destruct (throttle_gate_shield _ _ _ _ Hw Hg) as [Hw1 Hq1].
  destruct (truthy (debounce _)).
  - assert (∀ u, shielded u →
              shielded (modify c (with_debounceTimeout (Some (next_timer u)))
                          (setTimeout (debounce_elapsed c nv ov) n u).2)
              ∧ kept u (modify c (with_debounceTimeout (Some (next_timer u)))
                          (setTimeout (debounce_elapsed c nv ov) n u).2)) as Hstart.
    { intros u Hu.
      destruct (modify_aside c (with_debounceTimeout (Some (next_timer u)))
                  (setTimeout (debounce_elapsed c nv ov) n u).2) as [H1 H2];
        [done|by eapply shielded_cells|].
      split; [done|]. eapply kept_trans; [|done]. by apply kept_cells. }
    destruct (_debounceTimeout this); simplify_eq/=.
    + destruct (Hstart (clearTimeout n0 w1)) as [H1 H2]; [by eapply shielded_cells|].
      split; [done|]. eapply kept_trans; [done|].
      eapply kept_trans; [|done]. by apply kept_cells.
    + destruct (Hstart w1 Hw1) as [H1 H2]. split; [done|by eapply kept_trans].
  - destruct (for_of_shield _ _ _ _ _ Hw1 Hn) as [Hw2 Hq2].
    split; [done|by eapply kept_trans].
Qed.

(** [set(v)] on the cell [c]: the cells of [I] other than [c] are kept, and
    [c] has the value [v] unless it is sealed. *)
Lemma set_with_shield c v w r w' :
  shielded w → set_with inv c v w = Some (r, w') →
  shielded w'
  ∧ ∀ c' o, I c' → cells w !! c' = Some o →
      ∃ o', cells w' !! c' = Some o'
            ∧ _value o' = (if decide (c' = c ∧ _state o ≠ sealed) then v else _value o)
            ∧ (_state o ≠ sealed → _state o' ≠ sealed).
Proof.
  unfold set_with. intros Hw Hs.
  destruct (cells w !! c) as [this|] eqn:Hc; simplify_eq/=.
  destruct (_checkForSealedMutationError this) eqn:He; simplify_eq/=.
  - split; [done|]. intros c' o Hc' Ho. exists o. split; [done|]. split; [|done].
    case_decide as Hd; [|done]. destruct Hd as [-> Hns]. simplify_eq.
    unfold _checkForSealedMutationError in He. by rewrite decide_False in He.
  - destruct (_notify _ _ _ _ _) as [w2|] eqn:Hn; simplify_eq/=.
    eapply _notify_shield in Hn as [Hw2 Hk2]; [|by apply shielded_value].
    split; [done|]. intros c' o Hc' Ho.
    destruct (decide (c' = c)) as [->|Hne].
    + rewrite Hc in Ho. injection Ho as <-.
      destruct (Hk2 c (with_value v this) Hc') as (o' & Ho' & Hv' & Hs').
      { by rewrite lookup_modify, Hc. }
      exists o'. split; [done|]. split; [|done]. simpl in Hv'. rewrite Hv'.
      rewrite decide_True; [done|]. split; [done|].
      unfold _checkForSealedMutationError in He. by case_decide.
    + destruct (Hk2 c' o Hc') as (o' & Ho' & Hv' & Hs').
      { by rewrite lookup_modify_ne. }
      exists o'. split; [done|]. split; [|done]. rewrite Hv'.
      rewrite decide_False; [done|]. by intros [? _].
Qed.

Lemma set_with_shield_out c v w r w' :
  ¬ I c → shielded w → set_with inv c v w = Some (r, w') → shielded w' ∧ kept w w'.
Proof.
  intros Hc Hw Hs. destruct (set_with_shield _ _ _ _ _ Hw Hs) as [Hw' Hk].
  split; [done|]. intros c' o Hc' Ho. destruct (Hk c' o Hc' Ho) as (o' & Ho' & Hv' & Hs').
  exists o'. split; [done|]. split; [|done]. rewrite Hv'.
  rewrite decide_False; [done|]. intros [-> _]. done.
Qed.

Lemma run_timer_shield cb w w' :
  shielded w → run_timer inv cb w = Some w' → shielded w' ∧ kept w w'.
Proof.
  destruct cb as [c|c nv ov]; simpl; intros Hw Hr.
  - destruct (cells w !! c) as [this|]; simplify_eq/=.
    match goal with |- shielded (modify _ _ ?u) ∧ _ =>
      destruct (modify_aside c (with_throttleTimeout None) u) as [H1 H2];
        [done|destruct (_throttleTimeout this); by eapply shielded_cells|] end.
    split; [done|]. eapply kept_trans; [|done].
    destruct (_throttleTimeout this); by apply kept_cells.
  - by eapply for_of_shield.
Qed.

End ShieldInvoke.

Lemma invoke_careful fuel : careful (invoke fuel).
Proof.
  induction fuel as [|fuel IH]; intros c s nv ov w w' Hs Hw; destruct s as [n|k t ds f];
    simpl; intros Hi; simplify_eq.
  - split; [by eapply shielded_cells|by apply kept_cells].
  - split; [by eapply shielded_cells|by apply kept_cells].
  - destruct (values_of ds _) as [args|]; simplify_eq/=.
    destruct (set_with _ _ _ _) as [[r w2]|] eqn:Hset; simplify_eq/=.
    destruct Hs as [Hs _].
    eapply set_with_shield_out in Hset as [Hw2 Hq2];
      [|done|done|by eapply shielded_cells].
    split; [done|]. eapply kept_trans; [|done]. by apply kept_cells.
Qed.

Lemma drain_turns_shield n fuel w w' :
  shielded w → drain_turns n fuel w = Some w' → shielded w' ∧ kept w w'.
Proof.
  revert w. induction n as [|n IH]; intros w Hw; simpl;
    destruct (microtasks w) as [|k queue] eqn:Hq; intros Hd; simplify_eq;
    try (split; [done|apply kept_refl]).
  destruct (iterate _ _ _) as [w1|] eqn:Hi; simplify_eq/=.
  eapply iterate_shield in Hi as [Hw1 Hq1];
    [|apply invoke_careful|by eapply shielded_cells].
  destruct (IH _ Hw1 Hd) as [Hw2 Hq2]. split; [done|].
  eapply kept_trans; [|done]. eapply kept_trans; [|done]. by apply kept_cells.
Qed.

Lemma drain_shield fuel w w' :
  shielded w → drain fuel w = Some w' → shielded w' ∧ kept w w'.
Proof. apply drain_turns_shield. Qed.

Lemma fire_shield fuel ids w w' :
  shielded w → fire fuel ids w = Some w' → shielded w' ∧ kept w w'.
Proof.
  revert w. induction ids as [|id ids IH]; intros w Hw; simpl; intros Hf; simplify_eq;
    [split; [done|apply kept_refl]|].
  destruct (pending id w) as [t|] eqn:Hp; [|by apply (IH w)].
  destruct (run_timer _ _ _) as [w1|] eqn:Hr; simplify_eq/=.
  destruct (drain fuel w1) as [w2|] eqn:Hd; simplify_eq/=.
  eapply run_timer_shield in Hr as [Hw1 Hq1];
    [|apply invoke_careful|by eapply shielded_cells].
  destruct (drain_shield _ _ _ Hw1 Hd) as [Hw2 Hq2].
  destruct (IH _ Hw2 Hf) as [Hw3 Hq3]. split; [done|].
  eapply kept_trans; [|done]. eapply kept_trans; [|done].
  eapply kept_trans; [|done]. by apply kept_cells.
Qed.

Lemma tick_shield fuel w w' :
  shielded w → tick fuel w = Some w' → shielded w' ∧ kept w w'.
Proof.
  unfold tick. intros Hw Ht.
  destruct (drain fuel w) as [w0|] eqn:Hd; simplify_eq/=.
  destruct (drain_shield _ _ _ Hw Hd) as [Hw0 Hq0].
  eapply fire_shield in Ht as [Hw1 Hq1]; [|by eapply shielded_cells].
  split; [done|]. eapply kept_trans; [done|].
  eapply kept_trans; [|done]. by apply kept_cells.
Qed.

Lemma advance_shield fuel ms w w' :
  shielded w → advance fuel ms w = Some w' → shielded w' ∧ kept w w'.
Proof.
  revert w. induction ms as [|ms IH]; intros w Hw; simpl; intros Ha; simplify_eq;
    [split; [done|apply kept_refl]|].
  destruct (tick fuel w) as [w1|] eqn:Ht; simplify_eq/=.
  destruct (tick_shield _ _ _ Hw Ht) as [Hw1 Hq1].
  destruct (IH _ Hw1 Ha) as [Hw2 Hq2]. split; [done|by eapply kept_trans].
Qed.

(** A callback of [bind] that has been called has its target. *)
Lemma invoke_target fuel c id t ds f nv ov w w' :
  invoke fuel c (Recompute id t ds f) nv ov w = Some w' → t < length (cells w).
Proof.
  destruct fuel as [|fuel]; simpl; intros Hi; simplify_eq.
  destruct (values_of ds _) as [args|]; simplify_eq/=.
  destruct (set_with _ _ _ _) as [[r w2]|] eqn:Hset; simplify_eq/=.
  unfold set_with in Hset. simpl in Hset.
  destruct (cells w !! t) as [this|] eqn:Ht; [|done]. by eapply lookup_lt_Some.
Qed.

Lemma subscribe_shield fuel c s w h w' :
  spares s → shielded w →
  subscribe fuel c s w = Some (h, w') → shielded w' ∧ kept w w'.
Proof.
  unfold subscribe. intros Hs Hw Hsub.
  destruct (cells w !! c) as [this|]; simplify_eq/=.
  destruct (invoke _ _ _ _ _ _) as [w2|] eqn:Hi; simplify_eq/=.
  assert (guarded (length (cells w)) s) as Hg.
  { destruct s as [n|id t ds f]; [done|]. split; [done|].
    apply invoke_target in Hi. unfold modify in Hi. simpl in Hi.
    by rewrite length_alter in Hi. }
  eapply invoke_careful in Hi as [Hw2 Hq2].
  - split; [done|]. eapply kept_trans; [|done]. by apply kept_modify.
  - unfold modify. simpl. by rewrite length_alter.
  - by apply shielded_push.
Qed.

Lemma unsubscribe_shield h w w' :
  shielded w → unsubscribe h w = Some w' → shielded w' ∧ kept w w'.
Proof.
  unfold unsubscribe. intros Hw Hu.
  destruct (cells w !! h.1) as [this|] eqn:Hc; simplify_eq/=.
  split; [|by apply kept_modify].
  apply shielded_assign; [|done]. apply Forall_forall.
  intros s [_ Hs]%list_elem_of_filter.
  eapply Forall_lookup_1 in Hw as [HA _]; [|done]. by eapply Forall_forall in HA.
Qed.

Lemma bind_loop_shield fuel t ds f rest w us w' :
  ¬ I t → shielded w →
  bind_loop fuel t ds f rest w = Some (us, w') → shielded w' ∧ kept w w'.
Proof.
  intros Ht. revert w us. induction rest as [|d rest IH]; intros w us Hw; simpl; intros Hb;
    simplify_eq; [split; [done|apply kept_refl]|].
  destruct (subscribe _ _ _ _) as [[h w1]|] eqn:Hs; simplify_eq/=.
  destruct (bind_loop _ _ _ _ _ _) as [[us' w2]|] eqn:Hl; simplify_eq/=.
  eapply subscribe_shield in Hs as [Hw1 Hq1]; [|done|by eapply shielded_cells].
  destruct (IH _ _ Hw1 Hl) as [Hw2 Hq2]. split; [done|].
  eapply kept_trans; [|done]. eapply kept_trans; [|done]. by apply kept_cells.
Qed.

Lemma bind_shield fuel t ds f w us w' :
  ¬ I t → shielded w → bind fuel t ds f w = Some (us, w') → shielded w' ∧ kept w w'.
Proof.
  unfold bind. intros Ht Hw Hb.
  destruct (bind_loop _ _ _ _ _ _) as [[us' w1]|] eqn:Hl; simplify_eq/=.
  destruct (values_of ds w1) as [args|]; simplify_eq/=.
  destruct (set _ _ _ _) as [[r w2]|] eqn:Hs; simplify_eq/=.
  destruct (bind_loop_shield _ _ _ _ _ _ _ _ Ht Hw Hl) as [Hw1 Hq1].
  eapply set_with_shield_out in Hs as [Hw2 Hq2]; [|apply invoke_careful|done|done].
  split; [done|by eapply kept_trans].
Qed.

Lemma unbind_shield us w w' :
  shielded w → unbind us w = Some w' → shielded w' ∧ kept w w'.
Proof.
  revert w. induction us as [|u us IH]; intros w Hw; simpl; intros Hu; simplify_eq;
    [split; [done|apply kept_refl]|].
  destruct (unsubscribe u w) as [w1|] eqn:Hw1; simplify_eq/=.
  destruct (unsubscribe_shield _ _ _ Hw Hw1) as [Hs1 Hq1].
  destruct (IH _ Hs1 Hu) as [Hs2 Hq2]. split; [done|by eapply kept_trans].
Qed.

Lemma create_shield v options w :
  shielded w → shielded (create v options w).2 ∧ kept w (create v options w).2.
Proof.
  intros Hw. split.
  - unfold shielded. simpl. rewrite length_app. apply Forall_app. split.
    + eapply Forall_impl; [done|]. intros o. apply guarded_cell_mono. lia.
    + repeat constructor.
  - intros c o _ Ho. exists o. simpl. split; [|done]. by apply lookup_app_l_Some.
Qed.

(** Every event but a [set], an [update] or a [seal] of a cell of [I], and a
    [bind] with a cell of [I] for target. *)
Definition sparing (e : event T) : Prop :=
  match e with
  | Set_ c _ | Update c _ | Seal c => ¬ I c
  | Bind t _ _ => ¬ I t
  | _ => True
  end.

Lemma step_shield fuel e w w' :
  sparing e → shielded w → step fuel e w = Some w' → shielded w' ∧ kept w w'.
Proof.
  destruct e; simpl; intros He Hw Hs.
  - simplify_eq. by apply create_shield.
  - destruct (subscribe _ _ _ _) as [[??]|] eqn:Hsub; simplify_eq/=.
    eapply subscribe_shield; [|done|done]. done.
  - by eapply unsubscribe_shield.
  - destruct (set _ _ _ _) as [[??]|] eqn:Hset; simplify_eq/=.
    eapply set_with_shield_out; [apply invoke_careful|done..].
  - unfold update in Hs. destruct (get _ w); simplify_eq/=.
    destruct (set _ _ _ _) as [[??]|] eqn:Hset; simplify_eq/=.
    eapply set_with_shield_out; [apply invoke_careful|done..].
  - destruct (bind _ _ _ _ _) as [[??]|] eqn:?; simplify_eq/=. by eapply bind_shield.
  - by eapply unbind_shield.
  - unfold seal in Hs. destruct (cells w !! c) as [this|]; simplify_eq/=. split.
    + change (shielded (modify c (with_state sealed ∘ assign_subscribers []) w)).
      rewrite <-modify_modify. apply shielded_modify; [by intros o [??]|].
      by apply shielded_assign.
    + by apply kept_modify.
  - unfold mute in Hs. destruct (cells w !! c) as [this|]; simplify_eq/=.
    destruct (_checkForSealedMutationError _); simplify_eq/=;
      [split; [done|apply kept_refl]|].
    split; [by apply shielded_modify; [intros o [??]|]|by apply kept_modify].
  - unfold unmute in Hs. destruct (cells w !! c) as [this|]; simplify_eq/=.
    destruct (_checkForSealedMutationError _); simplify_eq/=;
      [split; [done|apply kept_refl]|].
    split; [by apply shielded_modify; [intros o [??]|]|by apply kept_modify].
  - by eapply drain_shield.
  - by eapply advance_shield.
Qed.

End Shield.

(** Fewer cells to spare, among the cells there are. *)
Lemma shielded_weaken {T} (I I' : nat → Prop) (w : world T) :
  (∀ c, c < length (cells w) → I' c → I c) → shielded I w → shielded I' w.
Proof.
  intros HI Hw. unfold shielded in *.
  assert (∀ s : Subscriber T,
            guarded I (length (cells w)) s → guarded I' (length (cells w)) s) as Hs.
  { intros [|k t ds f]; [done|]. intros [Ht Hlt]. split; [|done]. intros Ht'. by apply Ht, HI. }
  eapply Forall_impl; [done|]. intros o [HA HR]. split.
  - eapply Forall_impl; [done|]. done.
  - eapply Forall_impl; [done|]. intros A HA'. eapply Forall_impl; [done|]. done.
Qed.

(** ** The element and the cell of an input observable *)

Section Sync.

Context {S : Type} `{EqDecision S}.

Implicit Types (p : page S) (el : element S) (x y : InputElementObservable)
  (this : BasicObservable (value S)) (X : InputElementObservable → Prop).

(** The input observables: those with a listener on an element. *)
Definition registered p x : Prop :=
  ∃ e el n, elements p !! e = Some el ∧ (n, x) ∈ el_listeners el.

(** The cells of the input observables [X]. *)
Definition wrapped X (c : nat) : Prop := ∃ x, X x ∧ cell x = c.

(** Each has a cell and an element of its own. *)
Definition one_each X : Prop :=
  ∀ x y, X x → X y → cell x = cell y ∨ inputElement x = inputElement y → x = y.

(** The element and the cell of [x] are there and the cell is not sealed. *)
Definition attached p x : Prop :=
  ∃ el this, elements p !! inputElement x = Some el
    ∧ cells (observables p) !! cell x = Some this
    ∧ _state this ≠ sealed.

(** The value of the cell is the text of the element. *)
Definition tracks p x : Prop :=
  ∃ el this, elements p !! inputElement x = Some el
    ∧ cells (observables p) !! cell x = Some this
    ∧ _state this ≠ sealed
    ∧ _value this = Text (el_value el).

(** The listeners of the elements are those of the input observables [X],
    each on its own element, and each listens to ['input']. *)
Definition wired X p : Prop :=
  (∀ e el n x, elements p !! e = Some el → (n, x) ∈ el_listeners el →
     X x ∧ inputElement x = e)
  ∧ (∀ x, X x →
       ∃ el, elements p !! inputElement x = Some el ∧ (input, x) ∈ el_listeners el).

(** The element has a text that it keeps as it is, and it keeps as it is
    what it has kept of a text. *)
Definition hygienic el : Prop :=
  el_sanitize el (el_value el) = el_value el
  ∧ ∀ s, el_sanitize el (el_sanitize el s) = el_sanitize el s.

(** The actions that leave the cells of the input observables to their
    setter [value] and to the listeners: [set], [update], [seal] and the
    target of [bind] are other cells; an element is given to [cheeze] once;
    and the text assigned to [value] is one that the element keeps as it
    is. *)
Definition gentle X p (a : action S) : Prop :=
  match a with
  | Cheeze (Element e) _ => ∀ x, X x → inputElement x ≠ e
  | Cheeze _ _ => True
  | Assign x v =>
      X x ∧ ∀ el, elements p !! inputElement x = Some el → el_sanitize el v = v
  | Typed _ _ | Committed _ => True
  | OnCells ev => sparing (wrapped X) ev
  end.

(** Every action is gentle on the page it is done on. *)
Fixpoint gently (fuel : nat) (acts : list (action S)) p : Prop :=
  match acts with
  | [] => True
  | a :: acts =>
      gentle (registered p) p a ∧ ∀ p', act fuel a p = Some p' → gently fuel acts p'
  end.

Definition coherent X p : Prop :=
  one_each X ∧ shielded (wrapped X) (observables p) ∧ wired X p
  ∧ Forall hygienic (elements p) ∧ ∀ x, X x → tracks p x.

Lemma registered_elem p x :
  registered p x ↔ x ∈ inputs p.
Proof.
  split.
  - intros (e & el & n & He & Hin). apply list_elem_of_fmap. exists (n, x). split; [done|].
    apply list_elem_of_join. exists (el_listeners el). split; [done|].
    apply list_elem_of_fmap. exists el. split; [done|]. by eapply list_elem_of_lookup_2.
  - intros ([n y] & -> & Hin)%list_elem_of_fmap.
    apply list_elem_of_join in Hin as (ls & Hin & (el & -> & Hel)%list_elem_of_fmap).
    apply list_elem_of_lookup in Hel as [e He]. by exists e, el, n.
Qed.

Lemma tracks_attached p x : tracks p x → attached p x.
Proof. intros (el & this & ? & ? & ? & ?). by exists el, this. Qed.

Lemma wired_registered X p x : wired X p → (registered p x ↔ X x).
Proof.
  intros [W1 W2]. split.
  - intros (e & el & n & He & Hin). by eapply W1.
  - intros Hx. destruct (W2 x Hx) as (el & He & Hin). by exists (inputElement x), el, input.
Qed.

Lemma wired_elements X p (els : list (element S)) w b :
  el_listeners <$> els = el_listeners <$> elements p →
  wired X p → wired X (mkPage w els b).
Proof.
  intros Hl [W1 W2]. split.
  - intros e el n x He Hx. simpl in He.
    assert ((el_listeners <$> elements p) !! e = Some (el_listeners el)) as Hp
      by (by rewrite <-Hl, list_lookup_fmap, He).
    rewrite list_lookup_fmap in Hp.
    destruct (elements p !! e) as [el0|] eqn:He0; [|done].
    injection Hp as Hp. eapply W1; [done|]. by rewrite Hp.
  - intros x Hx. destruct (W2 x Hx) as (el & He & Hin). simpl.
    assert ((el_listeners <$> els) !! inputElement x = Some (el_listeners el)) as Hp
      by (by rewrite Hl, list_lookup_fmap, He).
    rewrite list_lookup_fmap in Hp.
    destruct (els !! inputElement x) as [el0|] eqn:He0; [|done].
    injection Hp as Hp. exists el0. split; [done|]. by rewrite Hp.
Qed.

Lemma listeners_insert (els : list (element S)) (e : nat) el (v : S) :
  els !! e = Some el →
  el_listeners <$> <[e:=assign_text v el]> els = el_listeners <$> els.
Proof.
  intros He. rewrite list_fmap_insert. simpl. apply list_insert_id.
  by rewrite list_lookup_fmap, He.
Qed.

Lemma hygienic_insert (els : list (element S)) (e : nat) el (v : S) :
  els !! e = Some el → Forall hygienic els →
  Forall hygienic (<[e:=assign_text v el]> els).
Proof.
  intros He Hh. apply Forall_insert; [done|].
  eapply Forall_lookup_1 in Hh as [_ Hi]; [|done]. split; simpl; [apply Hi|done].
Qed.

Lemma tracks_kept X p w x :
  X x → kept (wrapped X) (observables p) w → tracks p x →
  tracks (mkPage w (elements p) (isBrowser p)) x.
Proof.
  intros Hx Hk (el & this & He & Hc & Hs & Hv).
  destruct (Hk (cell x) this) as (o' & Ho' & Hv' & Hs'); [by exists x|done|].
  exists el, o'. simpl. split; [done|]. split; [done|]. split; [auto|congruence].
Qed.

Lemma coherent_kept X p w :
  shielded (wrapped X) w → kept (wrapped X) (observables p) w →
  coherent X p → coherent X (on_cells w p).
Proof.
  intros Hw Hk (Hd & _ & Hwi & Hhy & Hsy). split; [done|]. split; [done|].
  split; [by apply (wired_elements X p)|]. split; [done|].
  intros x Hx. by eapply tracks_kept; [| |apply Hsy].
Qed.

(** The setter, given a text that the element keeps as it is, where every
    input observable but [x] is in sync. *)
Lemma set_value_sync X fuel x v p p' :
  one_each X → X x → shielded (wrapped X) (observables p) → wired X p →
  Forall hygienic (elements p) → attached p x →
  (∀ el, elements p !! inputElement x = Some el → el_sanitize el v = v) →
  (∀ y, X y → y ≠ x → tracks p y) →
  set_value fuel x v p = Some p' → coherent X p'.
Proof.
  intros Hd Hx Hw Hwi Hhy (el & this & He & Hc & Hs) Hkeep Hothers. unfold set_value.
  rewrite He. simpl. destruct (set _ _ _ _) as [[r w']|] eqn:Hset; [|done].
  simpl. intros [= <-].
  eapply set_with_shield in Hset as [Hw' Hk]; [|apply invoke_careful|done].
  split; [done|]. split; [done|].
  split; [by apply (wired_elements X p); [apply listeners_insert|]|].
  split; [by apply hygienic_insert|].
  intros y Hy. destruct (decide (y = x)) as [->|Hne].
  - destruct (Hk (cell x) this) as (o' & Ho' & Hv' & Hs'); [by exists x|done|].
    rewrite decide_True in Hv' by done.
    exists (assign_text v el), o'. simpl.
    rewrite list_lookup_insert_eq by (by eapply lookup_lt_Some).
    rewrite (Hkeep el He). auto.
  - destruct (Hothers y Hy Hne) as (el' & o & He' & Hc' & Hs' & Hv').
    destruct (Hk (cell y) o) as (o' & Ho' & Hvo & Hso); [by exists y|done|].
    rewrite decide_False in Hvo.
    2:{ intros [Hcc _]. apply Hne. apply Hd; auto. }
    exists el', o'. simpl. rewrite list_lookup_insert_ne.
    2:{ intros Hee. apply Hne. apply Hd; auto. }
    split; [done|]. split; [done|]. split; [auto|congruence].
Qed.

Lemma call_listeners_coherent X fuel ls p p' :
  Forall X ls → coherent X p → call_listeners fuel ls p = Some p' → coherent X p'.
Proof.
  revert p. induction ls as [|x ls IH]; intros p Hls Hp; simpl; [by intros [= <-]|].
  apply Forall_cons in Hls as [Hx Hls]. destruct Hp as (Hd & Hw & Hwi & Hhy & Hsy).
  destruct (elements p !! inputElement x) as [el|] eqn:He; [|done]. simpl.
  destruct (set_value _ _ _ _) as [p1|] eqn:Hset; [|done]. simpl.
  destruct (drain _ _) as [w|] eqn:Hdr; [|done]. simpl. intros Hcall.
  eapply set_value_sync in Hset;
    [|done|done|done|done|done|by apply tracks_attached, Hsy| |by auto].
  2:{ intros el' Hel'. rewrite He in Hel'. injection Hel' as <-.
      by eapply Forall_lookup_1 in Hhy as [? _]. }
  eapply (IH (on_cells w p1)); [done| |done].
  destruct (drain_shield (wrapped X) _ _ _ (proj1 (proj2 Hset)) Hdr).
  by apply coherent_kept.
Qed.

Lemma listeners_of X p e el n :
  wired X p → elements p !! e = Some el →
  Forall (λ x, X x ∧ inputElement x = e) (snd <$> filter (λ l, l.1 = n) (el_listeners el)).
Proof.
  intros [W1 _] He. apply Forall_fmap, Forall_forall.
  intros [m x] [_ Hin]%list_elem_of_filter. simpl. by eapply W1.
Qed.

Lemma dispatch_coherent X fuel e n p p' :
  coherent X p → dispatch fuel e n p = Some p' → coherent X p'.
Proof.
  intros Hp. unfold dispatch.
  destruct (elements p !! e) as [el|] eqn:He; [|done]. simpl.
  apply call_listeners_coherent; [|done].
  eapply Forall_impl; [by eapply listeners_of; [apply Hp|]|]. by intros x [? _].
Qed.

(** The user edits the text of [e]: the listener of ['input'] brings the cell
    back to the text. *)
Lemma typed_coherent X fuel e s p p' :
  coherent X p → act fuel (Typed e s) p = Some p' → coherent X p'.
Proof.
  intros (Hd & Hw & Hwi & Hhy & Hsy). simpl.
  destruct (elements p !! e) as [el|] eqn:He; [|done]. simpl.
  set (q := mkPage (observables p) (<[e:=assign_text s el]> (elements p)) (isBrowser p)).
  assert (e < length (elements p)) as Hlt by (by eapply lookup_lt_Some).
  assert (elements q !! e = Some (assign_text s el)) as Heq
    by (by apply list_lookup_insert_eq).
  assert (wired X q) as Hwq by (by apply (wired_elements X p); [apply listeners_insert|]).
  assert (Forall hygienic (elements q)) as Hhq by (by apply hygienic_insert).
  assert (∀ y, X y → attached q y) as Hat.
  { intros y Hy. destruct (Hsy y Hy) as (el' & o & He' & Hc' & Hs' & _).
    destruct (decide (inputElement y = e)) as [Hye|Hye].
    - exists (assign_text s el), o. by rewrite Hye.
    - exists el', o. simpl. by rewrite list_lookup_insert_ne. }
  assert (∀ y, X y → inputElement y ≠ e → tracks q y) as Htr.
  { intros y Hy Hye. destruct (Hsy y Hy) as (el' & o & He' & Hc' & Hs' & Hv').
    exists el', o. simpl. by rewrite list_lookup_insert_ne. }
  unfold dispatch. rewrite Heq. simpl.
  pose proof (listeners_of X q e _ input Hwq Heq) as Hls. simpl in Hls.
  destruct (snd <$> filter (λ l, l.1 = input) (el_listeners el)) as [|x ls] eqn:Hf.
  - simpl. intros [= <-]. split; [done|]. split; [done|]. split; [done|].
    split; [done|].
    intros y Hy. apply Htr; [done|]. intros Hye.
    destruct (proj2 Hwi y Hy) as (el' & He' & Hin). rewrite Hye, He in He'.
    injection He' as <-.
    assert (y ∈ snd <$> filter (λ l, l.1 = input) (el_listeners el)) as Hy'.
    { apply list_elem_of_fmap. exists (input, y). split; [done|].
      by apply list_elem_of_filter. }
    rewrite Hf in Hy'. by apply elem_of_nil in Hy'.
  - apply Forall_cons in Hls as [[Hx Hxe] Hls]. simpl.
    change (<[e:=assign_text s el]> (elements p)) with (elements q).
    rewrite Hxe, Heq. simpl.
    destruct (set_value _ _ _ _) as [p1|] eqn:Hset; [|done]. simpl.
    destruct (drain _ _) as [w|] eqn:Hdr; [|done]. simpl. intros Hcall.
    eapply set_value_sync in Hset; [|done|done|done|done|done|by apply Hat| |].
    2:{ rewrite Hxe. intros el' Hel'. rewrite Heq in Hel'. injection Hel' as <-. simpl.
        by eapply Forall_lookup_1 in Hhy as [_ ?]. }
    2:{ intros y Hy Hne. apply Htr; [done|]. intros Hye. apply Hne.
        apply Hd; [done..|]. right. congruence. }
    eapply (call_listeners_coherent X _ ls (on_cells w p1)); [| |done].
    + eapply Forall_impl; [done|]. by intros ? [? _].
    + destruct (drain_shield (wrapped X) _ _ _ (proj1 (proj2 Hset)) Hdr).
      by apply coherent_kept.
Qed.

(** The constructor, on an element that has no input observable yet. *)
Lemma new_coherent X e o p x' p' :
  coherent X p → (∀ x, X x → inputElement x ≠ e) →
  new_InputElementObservable e o p = Some (x', p') →
  coherent (λ x, X x ∨ x = x') p'.
Proof.
  intros (Hd & Hw & [W1 W2] & Hhy & Hsy) Hfree. unfold new_InputElementObservable.
  destruct (elements p !! e) as [el|] eqn:He; [|done]. simpl. intros [= <- <-].
  set (n := length (cells (observables p))).
  set (x' := mkInput n e).
  assert (e < length (elements p)) as Hlt by (by eapply lookup_lt_Some).
  assert (∀ x, X x → cell x < n) as Hold.
  { intros x Hx. destruct (Hsy x Hx) as (_ & this & _ & Hc & _). by eapply lookup_lt_Some. }
  split; [|split; [|split; [|split]]].
  - intros x y [Hx| ->] [Hy| ->] Hxy; [by apply Hd|..|done].
    + exfalso. destruct Hxy as [Hc|He']; [|by eapply Hfree].
      specialize (Hold x Hx). simpl in Hc. lia.
    + exfalso. destruct Hxy as [Hc|He']; [|by eapply Hfree].
      specialize (Hold y Hy). simpl in Hc. lia.
  - simpl.
    destruct (create_shield (wrapped (λ x, X x ∨ x = x')) (Text (el_value el)) o
                (observables p)) as [Hc _]; [|done].
    eapply shielded_weaken; [|done].
    intros c Hc (x & [Hx| ->] & Hcx); [by exists x|]. simpl in Hcx. fold n in Hc. lia.
  - split.
    + intros e' el' m x. simpl. destruct (decide (e' = e)) as [->|Hne].
      * rewrite list_lookup_insert_eq by done. intros [= <-]. simpl.
        intros [Hin|Hin]%elem_of_app.
        -- destruct (W1 e el m x He Hin) as [Hx Hxe]. auto.
        -- apply elem_of_cons in Hin as [Hin|Hin%list_elem_of_singleton];
             injection Hin as -> ->; auto.
      * rewrite list_lookup_insert_ne by done. intros He' Hin.
        destruct (W1 e' el' m x He' Hin). auto.
    + intros x [Hx| ->]; simpl.
      * destruct (W2 x Hx) as (el' & He' & Hin). exists el'.
        rewrite list_lookup_insert_ne by (intros Hee; by eapply Hfree). done.
      * eexists. rewrite list_lookup_insert_eq by done. split; [done|]. simpl.
        apply elem_of_app. right. apply elem_of_cons. right. by apply list_elem_of_singleton.
  - simpl. apply Forall_insert; [done|].
    eapply Forall_lookup_1 in Hhy as [Hk Hi]; [|exact He]. by split.
  - intros x [Hx| ->].
    + destruct (Hsy x Hx) as (el' & this & He' & Hc & Hs & Hv). exists el', this. simpl.
      rewrite list_lookup_insert_ne by (intros Hee; by eapply Hfree).
      rewrite lookup_app_l by (by eapply lookup_lt_Some). done.
    + eexists _, _. simpl. rewrite list_lookup_insert_eq by done.
      rewrite lookup_app_r, Nat.sub_diag by done. simpl. done.
Qed.

Lemma gentle_iff X X' p a : (∀ x, X x ↔ X' x) → gentle X p a → gentle X' p a.
Proof.
  intros HX.
  assert (∀ c, wrapped X' c → wrapped X c) as Hw.
  { intros c (x & Hx & Hc). exists x. split; [by apply HX|done]. }
  destruct a as [[s|e|] o|x v|e s|e|ev]; simpl; try done.
  - intros Hfree x Hx. by apply Hfree, HX.
  - intros [Hx Hk]. split; [by apply HX|done].
  - destruct ev; simpl; auto.
Qed.

Lemma sparing_on_page I p (ev : event (value S)) : sparing I ev → sparing I (on_page p ev).
Proof. by destruct ev. Qed.

Lemma act_coherent X fuel a p p' :
  coherent X p → gentle X p a → act fuel a p = Some p' → ∃ X', coherent X' p'.
Proof.
  intros Hp Ha. destruct a as [i o|x v|e s|e|ev].
  - simpl. unfold cheeze_on.
    destruct (isDOMInputElement p i) as [e|] eqn:Hi.
    + destruct (new_InputElementObservable e None p) as [[x' p1]|] eqn:Hnew; [|done].
      simpl. intros [= <-]. exists (λ x, X x ∨ x = x').
      eapply new_coherent; [done| |done].
      unfold isDOMInputElement in Hi. destruct (isBrowser p); [|done].
      destruct i as [s|e'|]; [done| |done]. by injection Hi as ->.
    + simpl. intros [= <-]. exists X.
      destruct (create_shield (wrapped X) i o (observables p)) as [Hc Hk]; [apply Hp|].
      by apply coherent_kept.
  - simpl. intros Hset. exists X. destruct Hp as (Hd & Hw & Hwi & Hhy & Hsy).
    destruct Ha as [Hx Hk].
    eapply set_value_sync; [done..|by apply tracks_attached, Hsy|done|by auto|done].
  - intros Hact. exists X. by eapply typed_coherent.
  - simpl. intros Hact. exists X. by eapply dispatch_coherent.
  - simpl. destruct (step _ _ _) as [w|] eqn:Hs; [|done]. simpl. intros [= <-].
    exists X.
    destruct (step_shield (wrapped X) _ _ _ _ (sparing_on_page _ p ev Ha)
                (proj1 (proj2 Hp)) Hs).
    by apply coherent_kept.
Qed.

Lemma perform_coherent X fuel acts p p' :
  coherent X p → gently fuel acts p → perform fuel acts p = Some p' →
  ∃ X', coherent X' p'.
Proof.
  revert X p. induction acts as [|a acts IH]; intros X p Hp Hg; simpl.
  - intros [= <-]. by exists X.
  - destruct Hg as [Ha Hg].
    destruct (act fuel a p) as [p1|] eqn:Hact; [|done]. simpl.
    assert (gentle X p a) as Ha'.
    { eapply gentle_iff; [|done]. intros x. apply wired_registered, Hp. }
    destruct (act_coherent X fuel a p p1 Hp Ha' Hact) as [X1 Hp1].
    apply (IH X1); [done|by apply Hg].
Qed.

Lemma fresh_coherent p :
  cells (observables p) = [] → Forall (λ el, el_listeners el = []) (elements p) →
  Forall hygienic (elements p) →
  coherent (λ _, False) p.
Proof.
  intros Hc Hl Hh. split; [by intros ?? []|]. split.
  - unfold shielded. rewrite Hc. constructor.
  - split; [|split; [done|by intros ? []]]. split; [|by intros ? []].
    intros e el n x He Hin. eapply Forall_lookup_1 in Hl; [|done].
    rewrite Hl in Hin. by apply elem_of_nil in Hin.
Qed.

End Sync.

Section SyncClaim.

Context {S : Type} `{EqDecision S}.

(** X16. The cell of an input observable and its element stay in sync.  On a
    page that starts without cells and without listeners, after any number of
    steps ([cheeze] of values and of elements, the user typing in an element
    or leaving it, an assignment to [value], and any use of the cells) every
    input observable has an unsealed cell that holds the text of its element,
    provided that each element is given to [cheeze] once, that no step is a
    [set], an [update] or a [seal] of the cell of an input observable, or a
    [bind] with such a cell for target, and that every text assigned to
    [value] is one that the element keeps as it is.  The elements start with
    a text that they keep as it is, and their sanitization gives a text that
    they keep as it is. *)
Theorem input_observables_stay_in_sync fuel acts (p0 p : page S) :
  cells (observables p0) = [] →
  Forall (λ el, el_listeners el = []) (elements p0) →
  Forall hygienic (elements p0) →
  gently fuel acts p0 →
  perform fuel acts p0 = Some p →
  ∀ x, registered p x → tracks p x.
Proof.
  intros Hc Hl Hh Hg Hp.
  destruct (perform_coherent _ fuel acts p0 p (fresh_coherent p0 Hc Hl Hh) Hg Hp)
    as (X & Hd & Hw & Hwi & Hhy & Hsy).
  intros x Hx. by apply Hsy, (wired_registered X p).
Qed.

End SyncClaim.

(** ** The properties of input elements at a concrete page *)

Import String.StringSyntax Ascii.AsciiSyntax.
Local Open Scope string_scope.

#[global] Instance text_eq_dec : EqDecision String.string := String.string_dec.

(** The value sanitization of a text input: the line breaks are stripped. *)
Fixpoint strip_newlines (s : String.string) : String.string :=
  match s with
  | String.EmptyString => String.EmptyString
  | String.String a s =>
      if (Ascii.eqb a "010" || Ascii.eqb a "013")%bool then strip_newlines s
      else String.String a (strip_newlines s)
  end.

(** The text of two lines, [x] and [y]. *)
Definition two_lines : String.string := String.String "x" (String.String "010" "y").

(** A page with one text input that holds the text "a". *)
Definition blank_page : page String.string :=
  mkPage empty_world [mkElement "a" [] strip_newlines] true.

(** [cheeze] of that element. *)
Definition field : InputElementObservable := mkInput 0 0.

(** The element once [cheeze] has been given it. *)
Definition text_input (s : String.string) : element String.string :=
  mkElement s [(change, field); (input, field)] strip_newlines.

(** The page after [cheeze] of the element and [subscribe(f7)]. *)
Definition form_page : page String.string :=
  mkPage
    (mkWorld [mkObservable unsealed [Listener 7] (Text "a") no_options [Text "a"] None None []]
       [] 0 0 0 [] [])
    [text_input "a"] true.

(** That page with a second, plain cell that holds the empty text. *)
Definition form_page_with_cell : page String.string :=
  mkPage
    (mkWorld [mkObservable unsealed [Listener 7] (Text "a") no_options [Text "a"] None None [];
              mkObservable unsealed [] (Text "") no_options [Text ""] None None []]
       [] 0 0 0 [] [])
    [text_input "a"] true.

(** The compute function [(text) => text] of a cell bound to another one. *)
Definition mirror (args : list (value String.string)) : value String.string :=
  default (Text "") (head args).

Lemma strip_newlines_idem s : strip_newlines (strip_newlines s) = strip_newlines s.
Proof.
  induction s as [|a s IH]; [done|]. simpl.
  destruct (Ascii.eqb a "010" || Ascii.eqb a "013")%bool eqn:Ha; [done|].
  simpl. by rewrite Ha, IH.
Qed.

Lemma form_page_made :
  perform 0 [Cheeze (Element 0) None; OnCells (Subscribe 0 7)] blank_page
  = Some (mkPage (with_calls [(0, user_fn 7, Text "a", None)] (observables form_page))
            (elements form_page) true).
Proof. by vm_compute. Qed.

Lemma cheeze_on_element_witness :
  ∃ p', cheeze_on (Element 0) (Some throttled10) blank_page = Some (Input field, p')
    ∧ cheeze_on (Element 0) None blank_page = Some (Input field, p')
    ∧ cells (observables p') !! 0
      = Some (mkObservable unsealed [] (Text "a") no_options [Text "a"] None None [])
    ∧ elements p' !! 0 = Some (text_input "a")
    ∧ (∀ e', e' ≠ 0 → elements p' !! e' = elements blank_page !! e')
    ∧ (∀ c', c' < 0 → cells (observables p') !! c' = cells (observables blank_page) !! c').
Proof.
  apply (cheeze_on_element (Some throttled10) 0 (mkElement "a" [] strip_newlines) blank_page);
    settle.
Defined.

Lemma assign_writes_the_element_first_witness :
  ∃ p', set_value 1 field two_lines form_page = Some p'
    ∧ elements p' = [text_input "xy"]
    ∧ get 0 (observables p') = Some (Text two_lines).
Proof.
  apply (assign_writes_the_element_first 1 field two_lines form_page (text_input "a")
           (mkObservable unsealed [Listener 7] (Text "a") no_options [Text "a"] None None []));
    settle.
Defined.

Lemma typed_text_is_notified_once_witness :
  ∃ p', perform 1 [Typed 0 "b"; Committed 0] form_page = Some p'
    ∧ el_value <$> elements p' !! 0 = Some "b"
    ∧ get 0 (observables p') = Some (Text "b")
    ∧ calls (observables p') = [(0, user_fn 7, Text "b", Some (Text "a"))]
    ∧ _history <$> cells (observables p') !! 0 = Some [Text "a"; Text "b"].
Proof.
  apply (typed_text_is_notified_once 1 field "b" form_page (text_input "a")
           (mkObservable unsealed [Listener 7] (Text "a") no_options [Text "a"] None None []));
    settle.
Defined.

Lemma bind_reads_undefined_of_input_witness :
  ∃ p' p'',
    act 2 (OnCells (Bind 1 [0] mirror)) form_page_with_cell = Some p'
    ∧ get 0 (observables p') = Some (Text "a")
    ∧ get 1 (observables p') = Some Undefined
    ∧ perform 2 [Typed 0 "b"; OnCells (Set_ 1 (Text "z")); Typed 0 "c"] p' = Some p''
    ∧ get 0 (observables p'') = Some (Text "c")
    ∧ get 1 (observables p'') = Some Undefined.
Proof.
  destruct (bind_reads_undefined_of_input 2 1 [0] mirror form_page_with_cell
              (mkObservable unsealed [] (Text "") no_options [Text ""] None None [])
              [Text "a"])
    as (p' & args & Hact & _ & Hget & (Hlen & Hin & _) & _);
    [done|done|by constructor|by intros ?%list_elem_of_singleton|done|lia|].
  assert (args = [Undefined]) as ->.
  { specialize (Hin 0 field eq_refl). destruct args as [|a [|??]]; try done.
    assert (Some a = Some Undefined) as [= ->]; [|done].
    apply Hin. vm_compute. by repeat constructor. }
  exists p'. eexists. split; [exact Hact|]. vm_compute in Hact. injection Hact as <-.
  split; [by vm_compute|]. split; [exact Hget|]. split; [by vm_compute|]. by vm_compute.
Defined.

(** The input observables of a concrete page, one at a time. *)
Ltac inputs_of H :=
  apply registered_elem in H; simpl in H;
  repeat (apply elem_of_cons in H as [->|H]); try (by apply elem_of_nil in H).

Ltac gentle_here :=
  first [ done
        | by apply registered_elem; simpl; repeat constructor
        | by (let H := fresh in intros ? H; inputs_of H)
        | by (let H := fresh in intros (? & H & ?); inputs_of H)
        | by (split; [apply registered_elem; simpl; repeat constructor
                     |intros ? [= <-]; vm_compute]) ].

Ltac next_page :=
  let H := fresh in intros ? H; vm_compute in H; injection H as <-.

Lemma input_observables_stay_in_sync_witness :
  ∃ p, perform 2 [Cheeze (Element 0) None; OnCells (Subscribe 0 7); Cheeze (Text "") None;
                  OnCells (Bind 1 [0] mirror); Typed 0 two_lines; Assign field "c";
                  OnCells (Set_ 1 (Text "z")); OnCells (Wait 1); Committed 0] blank_page
       = Some p
    ∧ tracks p field
    ∧ el_value <$> elements p !! 0 = Some "c"
    ∧ get 0 (observables p) = Some (Text "c")
    ∧ get 1 (observables p) = Some Undefined.
Proof.
  eexists. split; [by vm_compute|]. split; [|by vm_compute].
  apply (input_observables_stay_in_sync 2
           [Cheeze (Element 0) None; OnCells (Subscribe 0 7); Cheeze (Text "") None;
            OnCells (Bind 1 [0] mirror); Typed 0 two_lines; Assign field "c";
            OnCells (Set_ 1 (Text "z")); OnCells (Wait 1); Committed 0] blank_page).
  - done.
  - by repeat constructor.
  - repeat constructor. apply strip_newlines_idem.
  - do 9 (split; [gentle_here|next_page]). done.
  - by vm_compute.
  - apply registered_elem. simpl. by repeat constructor.
Defined.
